(** * Snake game: shallow embedding of the three engine variants

    The repository holds three near-duplicate snake engines:

    - [Game]    : src/game.js, pixel coordinates, frame-driven ([update(dt)]);
    - [App]     : the "Enhanced Snake Game" (assets/js/app.js), a discrete
                  28x28 wrap-around grid with obstacles and a pause toggle;
    - [Classic] : the "Classic Snake" game.js, cell-quantised continuous
                  movement with hard walls.

    Conventions of the embedding.

    - JavaScript numbers that the engines only ever use as integers (score,
      grid cells, direction components) are [Z]; pixel coordinates and
      elapsed times are exact rationals [Q].  A number that can be [NaN]
      (the result of [parseInt]) is a [jsnum].
    - [Math.random()] is a stream [nat -> Q] together with a cursor that
      counts the draws made so far; every call reads the stream at the cursor
      and advances it.
    - [localStorage] is reduced to the one key each engine uses for its high
      score: [None] is a missing key ([getItem] returns [null]).
    - Mutable globals become the fields of a [state] record that every
      function takes and returns. *)

From Stdlib Require Import ZArith QArith Qround Qminmax List String Ascii Bool Lia Lqa.
Import ListNotations.

Open Scope Z_scope.

(* ================================================================= *)
(** ** JavaScript primitives shared by the three engines *)

Module JS.

(** A JavaScript number as produced by [parseInt]: an integer or [NaN]. *)
Inductive jsnum : Type :=
| Num (n : Z)
| NaN.

(** [a > b] for an integer [a] and a possibly-[NaN] [b]: every comparison
    with [NaN] is false. *)
Definition gt (a : Z) (b : jsnum) : bool :=
  match b with
  | Num n => n <? a
  | NaN => false
  end.

(** [x || 0] on a number: [NaN] and [0] are falsy. *)
Definition or_zero (x : jsnum) : Z :=
  match x with
  | Num n => n
  | NaN => 0
  end.

(** [s || '0'] where [s] is the result of [getItem]: [null] and the empty
    string are falsy. *)
Definition or_zero_string (s : option string) : string :=
  match s with
  | None => "0"
  | Some EmptyString => "0"
  | Some t => t
  end.

Definition digit_of (c : ascii) : option Z :=
  let n := Z.of_nat (nat_of_ascii c) in
  if (48 <=? n) && (n <=? 57) then Some (n - 48) else None.

(** White space skipped by [parseInt]: tab, line feed, vertical tab, form
    feed, carriage return and space. *)
Definition is_space (c : ascii) : bool :=
  let n := nat_of_ascii c in
  ((9 <=? n) && (n <=? 13))%nat || (n =? 32)%nat.

Fixpoint skip_spaces (s : string) : string :=
  match s with
  | String c r => if is_space c then skip_spaces r else s
  | EmptyString => s
  end.

(** Value of the longest prefix of decimal digits of [s], read left to right
    on top of the accumulator [acc]. *)
Fixpoint parse_digits (s : string) (acc : Z) : Z :=
  match s with
  | String c r =>
      match digit_of c with
      | Some d => parse_digits r (10 * acc + d)
      | None => acc
      end
  | EmptyString => acc
  end.

Definition starts_with_digit (s : string) : bool :=
  match s with
  | String c _ => match digit_of c with Some _ => true | None => false end
  | EmptyString => false
  end.

(** [parseInt(s, 10)]: skip leading white space, read an optional sign, then
    the longest run of decimal digits; no digit at all gives [NaN]. *)
Definition parseInt (s : string) : jsnum :=
  match skip_spaces s with
  | String "-"%char r =>
      if starts_with_digit r then Num (- parse_digits r 0) else NaN
  | String "+"%char r =>
      if starts_with_digit r then Num (parse_digits r 0) else NaN
  | t => if starts_with_digit t then Num (parse_digits t 0) else NaN
  end.

Definition digit_char (d : Z) : ascii := ascii_of_nat (Z.to_nat (48 + d)).

(** Decimal digits of a nonnegative [n] pushed in front of [acc]; [fuel]
    bounds the number of digits. *)
Fixpoint digits (fuel : nat) (n : Z) (acc : string) : string :=
  let acc' := String (digit_char (n mod 10)) acc in
  match fuel with
  | O => acc'
  | S f => if n <? 10 then acc' else digits f (n / 10) acc'
  end.

(** [String(n)] for an integer [n]. *)
Definition toString (n : Z) : string :=
  if n <? 0 then String "-"%char (digits (Z.to_nat (Z.log2 (- n))) (- n) "")
  else digits (Z.to_nat (Z.log2 n)) n "".

(** [Math.random()]: the stream of values and the number of draws so far. *)
Record rng : Type := mkRng { stream : nat -> Q; cursor : nat }.

Definition random (g : rng) : Q * rng :=
  (stream g (cursor g), mkRng (stream g) (S (cursor g))).

(** [Math.random()] keeps its contract: every value lies in [0, 1). *)
Definition fair (g : rng) : Prop :=
  forall n, (0 <= stream g n)%Q /\ (stream g n < 1)%Q.

(** [Math.floor(r * n)] for a random [r]. *)
Definition floor_mul (r : Q) (n : Z) : Z := Qfloor (r * inject_Z n).

(** [randInt(min, max)] given the value [r] returned by [Math.random()]. *)
Definition randInt (min max : Z) (r : Q) : Z :=
  floor_mul r (max - min + 1) + min.

(** [a < b] and [a <= b] on rationals, as booleans. *)
Definition Qltb (a b : Q) : bool := negb (Qle_bool b a).
Definition Qleb (a b : Q) : bool := Qle_bool a b.

(** [Math.round(q)]: nearest integer, halves rounded up. *)
Definition round (q : Q) : Z := Qfloor (q + (1 # 2)).

(** [xs.some((x, i) => f(i, x))], indices counted from [i0]. *)
Fixpoint somei {A : Type} (f : nat -> A -> bool) (i0 : nat) (xs : list A) : bool :=
  match xs with
  | [] => false
  | x :: r => f i0 x || somei f (S i0) r
  end.

End JS.

(* ================================================================= *)
(** ** [App]: the discrete grid engine (assets/js/app.js) *)

Module App.
Import JS.

(** A grid cell or a direction: [{x, y}]. *)
Record pos : Type := mkPos { px : Z; py : Z }.

Definition posEq (a b : pos) : bool := (px a =? px b) && (py a =? py b).

(** [let width = 28; let rows = 28;], never reassigned. *)
Definition width : Z := 28.
Definition rows : Z := 28.

Record state : Type := mkState {
  snake : list pos;
  dir : pos;
  nextDir : pos;
  apple : option pos;
  obstacles : list pos;
  score : Z;
  highScore : jsnum;
  gameInterval : bool;      (* the tick interval is armed *)
  running : bool;
  paused : bool;
  countdownTimer : bool;    (* the countdown interval is armed *)
  countdownValue : Z;
  allowInput : bool;
  difficulty : string;      (* difficultyEl.value *)
  snake_high : option string; (* localStorage['snake_high'] *)
  gen : rng
}.

Definition set_snake (v : list pos) (s : state) : state :=
  mkState v (dir s) (nextDir s) (apple s) (obstacles s) (score s) (highScore s)
          (gameInterval s) (running s) (paused s) (countdownTimer s)
          (countdownValue s) (allowInput s) (difficulty s) (snake_high s) (gen s).
Definition set_dir (v : pos) (s : state) : state :=
  mkState (snake s) v (nextDir s) (apple s) (obstacles s) (score s) (highScore s)
          (gameInterval s) (running s) (paused s) (countdownTimer s)
          (countdownValue s) (allowInput s) (difficulty s) (snake_high s) (gen s).
Definition set_nextDir (v : pos) (s : state) : state :=
  mkState (snake s) (dir s) v (apple s) (obstacles s) (score s) (highScore s)
          (gameInterval s) (running s) (paused s) (countdownTimer s)
          (countdownValue s) (allowInput s) (difficulty s) (snake_high s) (gen s).
Definition set_apple (v : option pos) (s : state) : state :=
  mkState (snake s) (dir s) (nextDir s) v (obstacles s) (score s) (highScore s)
          (gameInterval s) (running s) (paused s) (countdownTimer s)
          (countdownValue s) (allowInput s) (difficulty s) (snake_high s) (gen s).
Definition set_obstacles (v : list pos) (s : state) : state :=
  mkState (snake s) (dir s) (nextDir s) (apple s) v (score s) (highScore s)
          (gameInterval s) (running s) (paused s) (countdownTimer s)
          (countdownValue s) (allowInput s) (difficulty s) (snake_high s) (gen s).
Definition set_score (v : Z) (s : state) : state :=
  mkState (snake s) (dir s) (nextDir s) (apple s) (obstacles s) v (highScore s)
          (gameInterval s) (running s) (paused s) (countdownTimer s)
          (countdownValue s) (allowInput s) (difficulty s) (snake_high s) (gen s).
Definition set_highScore (v : jsnum) (s : state) : state :=
  mkState (snake s) (dir s) (nextDir s) (apple s) (obstacles s) (score s) v
          (gameInterval s) (running s) (paused s) (countdownTimer s)
          (countdownValue s) (allowInput s) (difficulty s) (snake_high s) (gen s).
Definition set_gameInterval (v : bool) (s : state) : state :=
  mkState (snake s) (dir s) (nextDir s) (apple s) (obstacles s) (score s) (highScore s)
          v (running s) (paused s) (countdownTimer s)
          (countdownValue s) (allowInput s) (difficulty s) (snake_high s) (gen s).
Definition set_running (v : bool) (s : state) : state :=
  mkState (snake s) (dir s) (nextDir s) (apple s) (obstacles s) (score s) (highScore s)
          (gameInterval s) v (paused s) (countdownTimer s)
          (countdownValue s) (allowInput s) (difficulty s) (snake_high s) (gen s).
Definition set_paused (v : bool) (s : state) : state :=
  mkState (snake s) (dir s) (nextDir s) (apple s) (obstacles s) (score s) (highScore s)
          (gameInterval s) (running s) v (countdownTimer s)
          (countdownValue s) (allowInput s) (difficulty s) (snake_high s) (gen s).
Definition set_countdownTimer (v : bool) (s : state) : state :=
  mkState (snake s) (dir s) (nextDir s) (apple s) (obstacles s) (score s) (highScore s)
          (gameInterval s) (running s) (paused s) v
          (countdownValue s) (allowInput s) (difficulty s) (snake_high s) (gen s).
Definition set_countdownValue (v : Z) (s : state) : state :=
  mkState (snake s) (dir s) (nextDir s) (apple s) (obstacles s) (score s) (highScore s)
          (gameInterval s) (running s) (paused s) (countdownTimer s)
          v (allowInput s) (difficulty s) (snake_high s) (gen s).
Definition set_allowInput (v : bool) (s : state) : state :=
  mkState (snake s) (dir s) (nextDir s) (apple s) (obstacles s) (score s) (highScore s)
          (gameInterval s) (running s) (paused s) (countdownTimer s)
          (countdownValue s) v (difficulty s) (snake_high s) (gen s).
Definition set_difficulty (v : string) (s : state) : state :=
  mkState (snake s) (dir s) (nextDir s) (apple s) (obstacles s) (score s) (highScore s)
          (gameInterval s) (running s) (paused s) (countdownTimer s)
          (countdownValue s) (allowInput s) v (snake_high s) (gen s).
Definition set_snake_high (v : option string) (s : state) : state :=
  mkState (snake s) (dir s) (nextDir s) (apple s) (obstacles s) (score s) (highScore s)
          (gameInterval s) (running s) (paused s) (countdownTimer s)
          (countdownValue s) (allowInput s) (difficulty s) v (gen s).
Definition set_gen (v : rng) (s : state) : state :=
  mkState (snake s) (dir s) (nextDir s) (apple s) (obstacles s) (score s) (highScore s)
          (gameInterval s) (running s) (paused s) (countdownTimer s)
          (countdownValue s) (allowInput s) (difficulty s) (snake_high s) v.

(** One call of [Math.random()]. *)
Definition draw (s : state) : Q * state :=
  let (r, g) := random (gen s) in (r, set_gen g s).

(** [let highScore = parseInt(localStorage.getItem('snake_high') || '0', 10)]. *)
Definition loadHighScore (stored : option string) : jsnum :=
  parseInt (or_zero_string stored).

(** [spawnApple]: the body of [while(attempts < 500)], [budget] being the
    number of attempts left. *)
Fixpoint spawnApple_loop (budget : nat) (s : state) : state :=
  match budget with
  | O => set_apple None s
  | S b =>
      let (rx, s1) := draw s in
      let (ry, s2) := draw s1 in
      let p := mkPos (randInt 1 (width - 2) rx) (randInt 1 (rows - 2) ry) in
      if existsb (fun q => posEq q p) (snake s2) then spawnApple_loop b s2
      else if existsb (fun o => posEq o p) (obstacles s2) then spawnApple_loop b s2
      else set_apple (Some p) s2
  end.

Definition spawnApple (s : state) : state := spawnApple_loop 500 s.
Arguments spawnApple s : simpl never.

Definition initialObstacleCount (d : string) : Z :=
  if String.eqb d "hard" then 6
  else if String.eqb d "medium" then 4
  else if String.eqb d "easy" then 2
  else 3.

(** [spawnObstaclesInitial]: the body of
    [while(obstacles.length < count && tries < 1000)]. *)
Fixpoint spawnObstacles_loop (budget : nat) (count : Z) (s : state) : state :=
  match budget with
  | O => s
  | S b =>
      if Z.of_nat (List.length (obstacles s)) <? count then
        let (rx, s1) := draw s in
        let (ry, s2) := draw s1 in
        let o := mkPos (randInt 2 (width - 3) rx) (randInt 2 (rows - 3) ry) in
        if existsb (fun q => posEq q o) (snake s2) then spawnObstacles_loop b count s2
        else if match apple s2 with Some a => posEq a o | None => false end
             then spawnObstacles_loop b count s2
        else if existsb (fun ob => posEq ob o) (obstacles s2)
             then spawnObstacles_loop b count s2
        else spawnObstacles_loop b count (set_obstacles (obstacles s2 ++ [o]) s2)
      else s
  end.

Definition spawnObstaclesInitial (s : state) : state :=
  spawnObstacles_loop 1000 (initialObstacleCount (difficulty s)) (set_obstacles [] s).
Arguments spawnObstaclesInitial s : simpl never.

(** [maybeAddObstacle]: with probability 8%, one obstacle on a free cell. *)
Definition maybeAddObstacle (s : state) : state :=
  let (r, s0) := draw s in
  if Qltb r (8 # 100) then
    let (rx, s1) := draw s0 in
    let (ry, s2) := draw s1 in
    let o := mkPos (randInt 1 (width - 2) rx) (randInt 1 (rows - 2) ry) in
    if existsb (fun q => posEq q o) (snake s2) then s2
    else if match apple s2 with Some a => posEq a o | None => false end then s2
    else if existsb (fun ob => posEq ob o) (obstacles s2) then s2
    else set_obstacles (obstacles s2 ++ [o]) s2
  else s0.

(** [resetGame] (the music and the drawing are left out). *)
Definition resetGame (s : state) : state :=
  let s := set_snake [mkPos (width / 2) (rows / 2)] s in
  let s := set_nextDir (mkPos 1 0) (set_dir (mkPos 1 0) s) in
  let s := set_apple None s in
  let s := set_obstacles [] s in
  let s := set_score 0 s in
  let s := set_allowInput true s in
  let s := set_running false s in
  let s := set_paused false s in
  let s := set_gameInterval false s in
  spawnObstaclesInitial (spawnApple s).

(** [gameOver]: stop the loop and record the high score. *)
Definition gameOver (s : state) : state :=
  let s := set_running false s in
  let s := set_paused false s in
  let s := set_gameInterval false s in
  if gt (score s) (highScore s) then
    set_snake_high (Some (toString (score s))) (set_highScore (Num (score s)) s)
  else s.

(** The cell the head moves to: [(snake[0] + dir + size) % size] on each axis;
    JavaScript's [%] truncates, hence [Z.rem]. *)
Definition nextHead (h d : pos) : pos :=
  mkPos (Z.rem (px h + px d + width) width) (Z.rem (py h + py d + rows) rows).

(** [snake.some((seg, idx) => idx > 0 && posEq(seg, head))]. *)
Definition hitsBody (head : pos) (s : state) : bool :=
  somei (fun idx seg => (0 <? idx)%nat && posEq seg head) 0 (snake s).

(** [obstacles.some(o => posEq(o, head))]. *)
Definition hitsObstacle (head : pos) (s : state) : bool :=
  existsb (fun o => posEq o head) (obstacles s).

(** The part of [tick] after the collision tests: the new head goes in
    front, then either the apple is eaten or the tail is dropped. *)
Definition proceed (head : pos) (s : state) : state :=
  let s := set_snake (head :: snake s) s in
  let s :=
    if match apple s with Some a => posEq head a | None => false end then
      let s := set_score (score s + 10) s in
      let s := spawnApple s in
      let (r, s) := draw s in
      if Qltb r (25 # 100) then maybeAddObstacle s else s
    else set_snake (removelast (snake s)) s in
  set_allowInput true s.

(** [tick].  [None] stands for the [TypeError] raised by [snake[0].x] on an
    empty snake. *)
Definition tick (s : state) : option state :=
  let s := set_dir (nextDir s) s in
  match snake s with
  | [] => None
  | h0 :: _ =>
      let head := nextHead h0 (dir s) in
      if hitsBody head s then Some (gameOver s)
      else if hitsObstacle head s then Some (gameOver s)
      else Some (proceed head s)
  end.

(** [beginGameLoop]. *)
Definition beginGameLoop (s : state) : state :=
  set_gameInterval true (set_paused false (set_running true s)).

(** [startWithCountdown]. *)
Definition startWithCountdown (s : state) : state :=
  if running s then s
  else set_countdownTimer true (set_countdownValue 3 s).

(** The callback of the countdown interval. *)
Definition countdownStep (s : state) : state :=
  let s := set_countdownValue (countdownValue s - 1) s in
  if 0 <? countdownValue s then s
  else beginGameLoop (set_countdownTimer false s).

(** [togglePause]. *)
Definition togglePause (s : state) : state :=
  if negb (running s) then s
  else set_paused (negb (paused s)) s.

(** [applyDirection(dirStr)], used by the touch buttons and the swipes. *)
Definition mapping (dirStr : string) : option pos :=
  if String.eqb dirStr "up" then Some (mkPos 0 (-1))
  else if String.eqb dirStr "down" then Some (mkPos 0 1)
  else if String.eqb dirStr "left" then Some (mkPos (-1) 0)
  else if String.eqb dirStr "right" then Some (mkPos 1 0)
  else None.

Definition applyDirection (dirStr : string) (s : state) : state :=
  if negb (allowInput s) then s
  else match mapping dirStr with
       | None => s
       | Some newDir =>
           if (px newDir =? - px (dir s)) && (py newDir =? - py (dir s)) then s
           else set_allowInput false (set_nextDir newDir s)
       end.

(** The [keydown] listener; [key] is [e.key]. *)
Definition keydown (key : string) (s : state) : state :=
  if negb (allowInput s) then s
  else
    let s := if String.eqb key "ArrowUp" && (py (dir s) =? 0)
             then set_allowInput false (set_nextDir (mkPos 0 (-1)) s) else s in
    let s := if String.eqb key "ArrowDown" && (py (dir s) =? 0)
             then set_allowInput false (set_nextDir (mkPos 0 1) s) else s in
    let s := if String.eqb key "ArrowLeft" && (px (dir s) =? 0)
             then set_allowInput false (set_nextDir (mkPos (-1) 0) s) else s in
    let s := if String.eqb key "ArrowRight" && (px (dir s) =? 0)
             then set_allowInput false (set_nextDir (mkPos 1 0) s) else s in
    let s := if String.eqb key "p" || String.eqb key "P" then togglePause s else s in
    if String.eqb key " " then (if negb (running s) then startWithCountdown s else s)
    else s.

(** The maintenance pass that runs every three seconds. *)
Definition maintenance (s : state) : state :=
  let s := match apple s with None => spawnApple s | Some _ => s end in
  let n := List.length (obstacles s) in
  if (12 <? n)%nat then set_obstacles (skipn (n - 12) (obstacles s)) s else s.

(** The [change] listener of the difficulty selector: the new value is read
    at the next start, and a running game re-arms its interval right away. *)
Definition changeDifficulty (d : string) (s : state) : state :=
  let s := set_difficulty d s in
  if running s then set_gameInterval true s else s.

(** The callback of the tick interval: [if(!paused) tick()]. *)
Definition intervalStep (s : state) : option state :=
  if negb (paused s) then tick s else Some s.

(** The four directions the input handlers can set. *)
Definition isDirection (d : pos) : bool :=
  posEq d (mkPos 1 0) || posEq d (mkPos (-1) 0)
  || posEq d (mkPos 0 1) || posEq d (mkPos 0 (-1)).

(** [d] is the exact negation of [e]. *)
Definition reverses (d e : pos) : bool :=
  (px d =? - px e) && (py d =? - py e).

(** A cell of the board. *)
Definition inGrid (p : pos) : Prop :=
  0 <= px p < width /\ 0 <= py p < rows.

(** The shape every state of the running page has: a snake with at least
    one segment, all of them on the board, moving in one of the four
    directions. *)
Definition wf (s : state) : Prop :=
  snake s <> [] /\ Forall inGrid (snake s)
  /\ isDirection (dir s) = true /\ isDirection (nextDir s) = true.

(** What an input handler can do to the direction buffer: the current
    direction stays, and the buffered one either stays or becomes a direction
    that is not the reverse of the current one. *)
Definition buffered (s s' : state) : Prop :=
  snake s' = snake s /\ dir s' = dir s
  /\ (nextDir s' = nextDir s
      \/ (isDirection (nextDir s') = true /\ reverses (nextDir s') (dir s) = false)).

(** A direction proposal: a key press or a touch button / swipe. *)
Inductive input : Type :=
| Key (key : string)
| Touch (dirStr : string).

Definition propose (i : input) (s : state) : state :=
  match i with
  | Key k => keydown k s
  | Touch d => applyDirection d s
  end.

(** A sequence of proposals, first to last. *)
Definition proposeAll (ins : list input) (s : state) : state :=
  fold_left (fun s i => propose i s) ins s.

(** Events the page can deliver between two state observations. *)
Inductive event : Type :=
| EvInterval                      (* the tick interval fires *)
| EvCountdown                     (* the countdown interval fires *)
| EvKey (key : string)
| EvTouch (dirStr : string)
| EvStart                         (* start button *)
| EvPause                         (* pause button *)
| EvReset                         (* reset, name form, cancel, error handler *)
| EvDifficulty (d : string)
| EvMaintenance.

Definition handle (e : event) (s : state) : option state :=
  match e with
  | EvInterval => if gameInterval s then intervalStep s else Some s
  | EvCountdown => Some (if countdownTimer s then countdownStep s else s)
  | EvKey k => Some (keydown k s)
  | EvTouch d => Some (applyDirection d s)
  | EvStart => Some (if negb (running s) then startWithCountdown s else s)
  | EvPause => Some (togglePause s)
  | EvReset => Some (resetGame s)
  | EvDifficulty d => Some (changeDifficulty d s)
  | EvMaintenance => Some (maintenance s)
  end.

(** The state after the script has loaded: [resetGame()] on the globals'
    initial values, for any random stream, difficulty and stored high score. *)
Definition boot (g : rng) (d : string) (stored : option string) : state :=
  resetGame
    (mkState [] (mkPos 1 0) (mkPos 1 0) None [] 0 (loadHighScore stored)
             false false false false 0 true d stored g).

(** States reachable from the loaded page. *)
Inductive reachable : state -> Prop :=
| reach_boot g d stored : reachable (boot g d stored)
| reach_step e s s' : reachable s -> handle e s = Some s' -> reachable s'.

(** A board in order: no cell holds two segments or two obstacles, no
    obstacle lies under the snake, and the apple, when there is one, lies on
    a cell free of snake and obstacles. *)
Definition tidy (s : state) : Prop :=
  NoDup (snake s) /\ NoDup (obstacles s)
  /\ (forall o, In o (obstacles s) -> ~ In o (snake s))
  /\ (forall a, apple s = Some a -> ~ In a (snake s) /\ ~ In a (obstacles s)).



(** A sequence of events, first to last; [None] once a handler has raised. *)
Fixpoint run (es : list event) (s : state) : option state :=
  match es with
  | [] => Some s
  | e :: r => match handle e s with
              | Some s' => run r s'
              | None => None
              end
  end.

(** Fields a key press or a touch never writes: anything but the direction
    buffer, the input latch, the pause flag and the countdown. *)
Definition inputBlind {A : Type} (f : state -> A) : Prop :=
  (forall s v, f (set_allowInput v s) = f s)
  /\ (forall s v, f (set_nextDir v s) = f s)
  /\ (forall s v, f (set_paused v s) = f s)
  /\ (forall s v, f (set_countdownTimer v s) = f s)
  /\ (forall s v, f (set_countdownValue v s) = f s).

End App.

(* ================================================================= *)
(** ** [Game]: the pixel engine (src/game.js) *)

Module Game.
Import JS.

(** A point of the canvas, in pixels. *)
Record point : Type := mkPoint { x : Q; y : Q }.

(** A direction: [{x, y}] with integer components. *)
Record vec : Type := mkVec { dx : Z; dy : Z }.

Record food_t : Type := mkFood { fx : Q; fy : Q; color : string; points : Z }.

(** [CONFIG]. *)
Definition cellSize : Z := 22.
Definition initialLength : Z := 5.
Definition speed : Q := 160%Q.
Definition foodTypes : list (string * Z) :=
  [("#ff4d4d"%string, 1); ("#4caf50"%string, 3);
   ("#2196f3"%string, 5); ("#f0ad4e"%string, 10)].
Definition collisionThreshold : Q := 14%Q.

Record state : Type := mkState {
  canvasWidth : Z;
  canvasHeight : Z;
  lastTimestamp : Q;
  running : bool;
  paused : bool;
  gameOver : bool;
  score : Z;
  highScore : jsnum;
  head : point;             (* snake.head *)
  dir : vec;                (* snake.dir *)
  length : Z;               (* snake.length *)
  segments : list point;    (* snake.segments *)
  food : option food_t;
  pendingDir : option vec;
  overlay : option string;  (* the overlay text while it is shown *)
  stored : option string;   (* localStorage[CONFIG.localStorageKey] *)
  gen : rng
}.

Definition set_lastTimestamp (v : Q) (s : state) : state :=
  mkState (canvasWidth s) (canvasHeight s) v (running s) (paused s) (gameOver s)
          (score s) (highScore s) (head s) (dir s) (length s) (segments s)
          (food s) (pendingDir s) (overlay s) (stored s) (gen s).
Definition set_running (v : bool) (s : state) : state :=
  mkState (canvasWidth s) (canvasHeight s) (lastTimestamp s) v (paused s) (gameOver s)
          (score s) (highScore s) (head s) (dir s) (length s) (segments s)
          (food s) (pendingDir s) (overlay s) (stored s) (gen s).
Definition set_paused (v : bool) (s : state) : state :=
  mkState (canvasWidth s) (canvasHeight s) (lastTimestamp s) (running s) v (gameOver s)
          (score s) (highScore s) (head s) (dir s) (length s) (segments s)
          (food s) (pendingDir s) (overlay s) (stored s) (gen s).
Definition set_gameOver (v : bool) (s : state) : state :=
  mkState (canvasWidth s) (canvasHeight s) (lastTimestamp s) (running s) (paused s) v
          (score s) (highScore s) (head s) (dir s) (length s) (segments s)
          (food s) (pendingDir s) (overlay s) (stored s) (gen s).
Definition set_score (v : Z) (s : state) : state :=
  mkState (canvasWidth s) (canvasHeight s) (lastTimestamp s) (running s) (paused s)
          (gameOver s) v (highScore s) (head s) (dir s) (length s) (segments s)
          (food s) (pendingDir s) (overlay s) (stored s) (gen s).
Definition set_highScore (v : jsnum) (s : state) : state :=
  mkState (canvasWidth s) (canvasHeight s) (lastTimestamp s) (running s) (paused s)
          (gameOver s) (score s) v (head s) (dir s) (length s) (segments s)
          (food s) (pendingDir s) (overlay s) (stored s) (gen s).
Definition set_head (v : point) (s : state) : state :=
  mkState (canvasWidth s) (canvasHeight s) (lastTimestamp s) (running s) (paused s)
          (gameOver s) (score s) (highScore s) v (dir s) (length s) (segments s)
          (food s) (pendingDir s) (overlay s) (stored s) (gen s).
Definition set_dir (v : vec) (s : state) : state :=
  mkState (canvasWidth s) (canvasHeight s) (lastTimestamp s) (running s) (paused s)
          (gameOver s) (score s) (highScore s) (head s) v (length s) (segments s)
          (food s) (pendingDir s) (overlay s) (stored s) (gen s).
Definition set_length (v : Z) (s : state) : state :=
  mkState (canvasWidth s) (canvasHeight s) (lastTimestamp s) (running s) (paused s)
          (gameOver s) (score s) (highScore s) (head s) (dir s) v (segments s)
          (food s) (pendingDir s) (overlay s) (stored s) (gen s).
Definition set_segments (v : list point) (s : state) : state :=
  mkState (canvasWidth s) (canvasHeight s) (lastTimestamp s) (running s) (paused s)
          (gameOver s) (score s) (highScore s) (head s) (dir s) (length s) v
          (food s) (pendingDir s) (overlay s) (stored s) (gen s).
Definition set_food (v : option food_t) (s : state) : state :=
  mkState (canvasWidth s) (canvasHeight s) (lastTimestamp s) (running s) (paused s)
          (gameOver s) (score s) (highScore s) (head s) (dir s) (length s) (segments s)
          v (pendingDir s) (overlay s) (stored s) (gen s).
Definition set_pendingDir (v : option vec) (s : state) : state :=
  mkState (canvasWidth s) (canvasHeight s) (lastTimestamp s) (running s) (paused s)
          (gameOver s) (score s) (highScore s) (head s) (dir s) (length s) (segments s)
          (food s) v (overlay s) (stored s) (gen s).
Definition set_overlay (v : option string) (s : state) : state :=
  mkState (canvasWidth s) (canvasHeight s) (lastTimestamp s) (running s) (paused s)
          (gameOver s) (score s) (highScore s) (head s) (dir s) (length s) (segments s)
          (food s) (pendingDir s) v (stored s) (gen s).
Definition set_stored (v : option string) (s : state) : state :=
  mkState (canvasWidth s) (canvasHeight s) (lastTimestamp s) (running s) (paused s)
          (gameOver s) (score s) (highScore s) (head s) (dir s) (length s) (segments s)
          (food s) (pendingDir s) (overlay s) v (gen s).
Definition set_gen (v : rng) (s : state) : state :=
  mkState (canvasWidth s) (canvasHeight s) (lastTimestamp s) (running s) (paused s)
          (gameOver s) (score s) (highScore s) (head s) (dir s) (length s) (segments s)
          (food s) (pendingDir s) (overlay s) (stored s) v.

Definition draw (s : state) : Q * state :=
  let (r, g) := random (gen s) in (r, set_gen g s).

(** What a call that may recurse without bound, or raise, comes back with. *)
Inductive outcome (A : Type) : Type :=
| Done (a : A)      (* the call returned *)
| Unfinished        (* still recursing when the fuel ran out *)
| Raised.           (* a [TypeError] was thrown *)
Arguments Done {A} a.
Arguments Unfinished {A}.
Arguments Raised {A}.

(** [distance(a, b)] is [Math.sqrt(dx*dx + dy*dy)] and is only ever compared
    with a nonnegative constant; the embedding keeps the squared distance and
    compares it with the squared constant. *)
Definition distance2 (ax ay bx by_ : Q) : Q :=
  ((ax - bx) * (ax - bx) + (ay - by_) * (ay - by_))%Q.

Definition closer (ax ay bx by_ : Q) (t : Q) : bool :=
  Qltb (distance2 ax ay bx by_) (t * t)%Q.

(** [CONFIG.cellSize * 0.9] and [CONFIG.cellSize * 0.85]. *)
Definition eatRadius : Q := (inject_Z cellSize * (9 # 10))%Q.
Definition sampleGap : Q := (inject_Z cellSize * (85 # 100))%Q.

(** [parseInt(localStorage.getItem(CONFIG.localStorageKey) || '0', 10)]. *)
Definition loadHighScore (st : option string) : jsnum :=
  parseInt (or_zero_string st).

(** The first five statements of [spawnFood]: a point of the food grid and a
    food type, written to [food].  [None] stands for the [TypeError] of
    [type.color] when the index leaves the table. *)
Definition placeFood (s : state) : option state :=
  let margin := cellSize in
  let cols := (canvasWidth s - margin * 2) / cellSize in
  let rows := (canvasHeight s - margin * 2) / cellSize in
  let (r1, s1) := draw s in
  let (r2, s2) := draw s1 in
  let (r3, s3) := draw s2 in
  let px := (inject_Z (margin + randInt 0 (cols - 1) r1 * cellSize)
             + inject_Z cellSize / 2)%Q in
  let py := (inject_Z (margin + randInt 0 (rows - 1) r2 * cellSize)
             + inject_Z cellSize / 2)%Q in
  match nth_error foodTypes
          (Z.to_nat (randInt 0 (Z.of_nat (List.length foodTypes) - 1) r3)) with
  | None => None
  | Some (c, p) => Some (set_food (Some (mkFood px py c p)) s3)
  end.

(** [snake.segments.some(s => distance(s, food) < CONFIG.cellSize * 0.9)]. *)
Definition overlaps (s : state) : bool :=
  match food s with
  | Some f => existsb (fun sg => closer (x sg) (y sg) (fx f) (fy f) eatRadius)
                      (segments s)
  | None => false
  end.

(** [spawnFood]: one placement, then the same again while the food lies
    within [0.9] cell of a segment.  The recursion has no bound in the
    source; [fuel] bounds the depth explored. *)
Fixpoint spawnFood (fuel : nat) (s : state) : outcome state :=
  match fuel with
  | O => Unfinished
  | S f =>
      match placeFood s with
      | None => Raised
      | Some s4 => if overlaps s4 then spawnFood f s4 else Done s4
      end
  end.

(** [setDirection(dx, dy)]. *)
Definition setDirection (ndx ndy : Z) (s : state) : state :=
  let current := dir s in
  if (ndx =? - dx current) && (ndy =? - dy current) then s
  else set_pendingDir (Some (mkVec ndx ndy)) s.

(** [if (score > highScore) { highScore = score; setItem(key, String(highScore)) }]. *)
Definition recordHighScore (s : state) : state :=
  if gt (score s) (highScore s)
  then set_stored (Some (toString (score s))) (set_highScore (Num (score s)) s)
  else s.

(** The four directions the input handlers pass to [setDirection]. *)
Definition isDirection (d : vec) : bool :=
  ((dx d =? 1) && (dy d =? 0)) || ((dx d =? -1) && (dy d =? 0))
  || ((dx d =? 0) && (dy d =? 1)) || ((dx d =? 0) && (dy d =? -1)).

(** [d] is the exact negation of [e]. *)
Definition reverses (d e : vec) : bool :=
  (dx d =? - dx e) && (dy d =? - dy e).

(** A sequence of [setDirection] calls, first to last. *)
Definition proposeAll (ps : list (Z * Z)) (s : state) : state :=
  fold_left (fun s p => setDirection (fst p) (snd p) s) ps s.

(** [endGame(reason)]. *)
Definition endGame (reason : string) (s : state) : state :=
  let s := set_gameOver true s in
  let s := set_running false s in
  let s := set_paused true s in
  let s := recordHighScore s in
  set_overlay (Some reason) s.

(** [togglePause]. *)
Definition togglePause (s : state) : state :=
  if gameOver s then s
  else
    let s := set_paused (negb (paused s)) s in
    if negb (paused s) then set_lastTimestamp 0%Q s else s.

(** [stopGame]. *)
Definition stopGame (s : state) : state :=
  set_paused true (set_running false s).

(** [for (let i = 0; i < snake.length; i++) segments.push(...)]: the seed
    segments behind the head, [k] of them starting at index [i]. *)
Fixpoint seed (k : nat) (i : Z) (h : point) : list point :=
  match k with
  | O => []
  | S k' => mkPoint (x h - inject_Z (i * cellSize))%Q (y h) :: seed k' (i + 1) h
  end.

(** [resetGameState]. *)
Definition resetGameState (fuel : nat) (s : state) : outcome state :=
  let s := set_score 0 s in
  let s := set_highScore (loadHighScore (stored s)) s in
  let s := set_length initialLength s in
  let s := set_head (mkPoint (inject_Z (canvasWidth s) / 2)%Q
                             (inject_Z (canvasHeight s) / 2)%Q) s in
  let s := set_dir (mkVec 1 0) s in
  let s := set_segments (seed (Z.to_nat (length s)) 0 (head s)) s in
  match spawnFood fuel s with
  | Done s =>
      let s := set_gameOver false s in
      let s := set_paused true s in
      let s := set_running false s in
      let s := set_lastTimestamp 0%Q s in
      Done (set_overlay None s)
  | Unfinished => Unfinished
  | Raised => Raised
  end.

(** [startGame]. *)
Definition startGame (fuel : nat) (s : state) : outcome state :=
  let go s := set_lastTimestamp 0%Q (set_running true (set_paused false s)) in
  if gameOver s then
    match resetGameState fuel s with
    | Done s => Done (go s)
    | Unfinished => Unfinished
    | Raised => Raised
    end
  else Done (go s).

(** The self-collision loop: [for (let i = 4; i < segments.length; i++)]. *)
Definition hitsSelf (s : state) : bool :=
  somei (fun i sg => (4 <=? i)%nat
                     && closer (x (head s)) (y (head s)) (x sg) (y sg) collisionThreshold)
        0 (segments s).

(** [update(dt)] runs three blocks in this order: the movement, the food
    test, the collision tests.  Each block is a definition of its own. *)

(** First block of [update]: apply the pending direction, move the head,
    sample a new front segment, trim the segments. *)
Definition advance (dt : Q) (s : state) : state :=
  let s := match pendingDir s with
           | Some d => set_pendingDir None (set_dir d s)
           | None => s
           end in
  let dist := (speed * dt)%Q in
  let s := set_head (mkPoint (x (head s) + inject_Z (dx (dir s)) * dist)%Q
                             (y (head s) + inject_Z (dy (dir s)) * dist)%Q) s in
  let last := match segments s with sg :: _ => sg | [] => head s end in
  let s := if Qleb (sampleGap * sampleGap)%Q
                   (distance2 (x last) (y last) (x (head s)) (y (head s)))
           then set_segments (head s :: segments s) s else s in
  let maxSegments := Z.max 3 (length s + 2) in
  set_segments (firstn (Z.to_nat maxSegments) (segments s)) s.

(** [food && distance(snake.head, food) < CONFIG.cellSize * 0.9]. *)
Definition reachesFood (s : state) : bool :=
  match food s with
  | Some f => closer (x (head s)) (y (head s)) (fx f) (fy f) eatRadius
  | None => false
  end.

(** Second block of [update]: "Collision with food". *)
Definition eat (fuel : nat) (s : state) : outcome state :=
  match food s with
  | Some f =>
      if closer (x (head s)) (y (head s)) (fx f) (fy f) eatRadius then
        let s := set_score (score s + points f) s in
        let s := set_length (length s + Z.max 1 (points f)) s in
        match spawnFood fuel s with
        | Done s => Done (recordHighScore s)
        | Unfinished => Unfinished
        | Raised => Raised
        end
      else Done s
  | None => Done s
  end.

(** [head.x < 0 || head.y < 0 || head.x > canvasWidth || head.y > canvasHeight]. *)
Definition hitsWall (s : state) : bool :=
  Qltb (x (head s)) 0%Q || Qltb (y (head s)) 0%Q
  || Qltb (inject_Z (canvasWidth s)) (x (head s))
  || Qltb (inject_Z (canvasHeight s)) (y (head s)).

(** Third block of [update]: "Wall collision", then "Self-collision". *)
Definition collide (s : state) : state :=
  if hitsWall s then endGame "You hit the wall!" s
  else if hitsSelf s then endGame "You ran into yourself!" s
  else s.

Definition update (fuel : nat) (dt : Q) (s : state) : outcome state :=
  match eat fuel (advance dt s) with
  | Done s => Done (collide s)
  | Unfinished => Unfinished
  | Raised => Raised
  end.

(** [init], after [resizeCanvas] has fixed the canvas at [w] by [h]: the
    globals' initial values, the stored high score, then [resetGameState]. *)
Definition init (fuel : nat) (w h : Z) (st : option string) (g : rng) : outcome state :=
  resetGameState fuel
    (mkState w h 0%Q false true false 0 (loadHighScore st) (mkPoint 0%Q 0%Q)
             (mkVec 1 0) initialLength [] None None None st g).

(** [loop(timestamp)], the animation-frame callback (drawing left out). *)
Definition loop (fuel : nat) (timestamp : Q) (s : state) : outcome state :=
  if negb (running s) || paused s || gameOver s then Done s
  else
    let s := if Qeq_bool (lastTimestamp s) 0%Q then set_lastTimestamp timestamp s else s in
    let dt := Qmin (1 # 10) ((timestamp - lastTimestamp s) / 1000)%Q in
    update fuel dt (set_lastTimestamp timestamp s).

(** [clamp(v, a, b)]: [Math.max(a, Math.min(b, v))]. *)
Definition clamp (v a b : Q) : Q := Qmax a (Qmin b v).

Definition set_canvas (w h : Z) (s : state) : state :=
  mkState w h (lastTimestamp s) (running s) (paused s) (gameOver s)
          (score s) (highScore s) (head s) (dir s) (length s) (segments s)
          (food s) (pendingDir s) (overlay s) (stored s) (gen s).

(** [resizeCanvas], as far as the game state goes.  [parentWidth] is the
    inner width of the canvas's parent and [innerHeight] the height of the
    window, both read from the page. *)
Definition resizeCanvas (parentWidth innerHeight : Q) (s : state) : state :=
  let maxSize := Qmin parentWidth (innerHeight * (65 # 100))%Q in
  let size := Z.max 280 (Qfloor maxSize) in
  set_canvas size (Qfloor (inject_Z size * (625 # 1000))%Q) s.

(** The [resize] listener: the canvas is resized and the head is brought
    back inside. *)
Definition onResize (parentWidth innerHeight : Q) (s : state) : state :=
  let s := resizeCanvas parentWidth innerHeight s in
  set_head (mkPoint (clamp (x (head s)) 0%Q (inject_Z (canvasWidth s)))
                    (clamp (y (head s)) 0%Q (inject_Z (canvasHeight s)))) s.

(** The snake's length is its initial length plus the score, and the food on
    the canvas is one of the configured types. *)
Definition sane (s : state) : Prop :=
  length s = initialLength + score s
  /\ (forall f, food s = Some f -> In (color f, points f) foodTypes).

End Game.

(* ================================================================= *)
(** ** [Classic]: the cell-quantised engine (the "Classic Snake" game.js) *)

Module Classic.
Import JS.

Record cell : Type := mkCell { cx : Z; cy : Z }.

(** [head]: the cell [x, y] and the pixel position [px, py]. *)
Record head_t : Type := mkHead { hx : Z; hy : Z; hpx : Q; hpy : Q }.

Record food_t : Type := mkFood { fx : Z; fy : Z; color : string; points : Z }.

Definition baseSpeedCellsPerSec : Q := 6%Q.

Definition FOOD_TYPES : list (string * Z) :=
  [("#ff4d4d"%string, 1); ("#ffd24d"%string, 3); ("#4da6ff"%string, 5)].
Definition FOOD_WEIGHTS : list Q := [(7 # 10)%Q; (22 # 100)%Q; (8 # 100)%Q].

Record state : Type := mkState {
  cellSize : Z;
  cols : Z;
  rows : Z;
  speedMultiplier : Q;
  head : head_t;
  dir : cell;
  pendingDir : option cell;
  snake : list cell;
  snakeLength : Z;
  food : option food_t;
  score : Z;
  highScore : Z;
  isRunning : bool;
  isGameOver : bool;
  headPrevCell : cell;
  stored : option string;   (* localStorage[STORAGE_KEY] *)
  gen : rng
}.

Definition set_speedMultiplier (v : Q) (s : state) : state :=
  mkState (cellSize s) (cols s) (rows s) v (head s) (dir s) (pendingDir s) (snake s)
          (snakeLength s) (food s) (score s) (highScore s) (isRunning s) (isGameOver s)
          (headPrevCell s) (stored s) (gen s).
Definition set_head (v : head_t) (s : state) : state :=
  mkState (cellSize s) (cols s) (rows s) (speedMultiplier s) v (dir s) (pendingDir s)
          (snake s) (snakeLength s) (food s) (score s) (highScore s) (isRunning s)
          (isGameOver s) (headPrevCell s) (stored s) (gen s).
Definition set_dir (v : cell) (s : state) : state :=
  mkState (cellSize s) (cols s) (rows s) (speedMultiplier s) (head s) v (pendingDir s)
          (snake s) (snakeLength s) (food s) (score s) (highScore s) (isRunning s)
          (isGameOver s) (headPrevCell s) (stored s) (gen s).
Definition set_pendingDir (v : option cell) (s : state) : state :=
  mkState (cellSize s) (cols s) (rows s) (speedMultiplier s) (head s) (dir s) v
          (snake s) (snakeLength s) (food s) (score s) (highScore s) (isRunning s)
          (isGameOver s) (headPrevCell s) (stored s) (gen s).
Definition set_snake (v : list cell) (s : state) : state :=
  mkState (cellSize s) (cols s) (rows s) (speedMultiplier s) (head s) (dir s)
          (pendingDir s) v (snakeLength s) (food s) (score s) (highScore s) (isRunning s)
          (isGameOver s) (headPrevCell s) (stored s) (gen s).
Definition set_snakeLength (v : Z) (s : state) : state :=
  mkState (cellSize s) (cols s) (rows s) (speedMultiplier s) (head s) (dir s)
          (pendingDir s) (snake s) v (food s) (score s) (highScore s) (isRunning s)
          (isGameOver s) (headPrevCell s) (stored s) (gen s).
Definition set_food (v : option food_t) (s : state) : state :=
  mkState (cellSize s) (cols s) (rows s) (speedMultiplier s) (head s) (dir s)
          (pendingDir s) (snake s) (snakeLength s) v (score s) (highScore s) (isRunning s)
          (isGameOver s) (headPrevCell s) (stored s) (gen s).
Definition set_score (v : Z) (s : state) : state :=
  mkState (cellSize s) (cols s) (rows s) (speedMultiplier s) (head s) (dir s)
          (pendingDir s) (snake s) (snakeLength s) (food s) v (highScore s) (isRunning s)
          (isGameOver s) (headPrevCell s) (stored s) (gen s).
Definition set_highScore (v : Z) (s : state) : state :=
  mkState (cellSize s) (cols s) (rows s) (speedMultiplier s) (head s) (dir s)
          (pendingDir s) (snake s) (snakeLength s) (food s) (score s) v (isRunning s)
          (isGameOver s) (headPrevCell s) (stored s) (gen s).
Definition set_isRunning (v : bool) (s : state) : state :=
  mkState (cellSize s) (cols s) (rows s) (speedMultiplier s) (head s) (dir s)
          (pendingDir s) (snake s) (snakeLength s) (food s) (score s) (highScore s) v
          (isGameOver s) (headPrevCell s) (stored s) (gen s).
Definition set_isGameOver (v : bool) (s : state) : state :=
  mkState (cellSize s) (cols s) (rows s) (speedMultiplier s) (head s) (dir s)
          (pendingDir s) (snake s) (snakeLength s) (food s) (score s) (highScore s)
          (isRunning s) v (headPrevCell s) (stored s) (gen s).
Definition set_headPrevCell (v : cell) (s : state) : state :=
  mkState (cellSize s) (cols s) (rows s) (speedMultiplier s) (head s) (dir s)
          (pendingDir s) (snake s) (snakeLength s) (food s) (score s) (highScore s)
          (isRunning s) (isGameOver s) v (stored s) (gen s).
Definition set_stored (v : option string) (s : state) : state :=
  mkState (cellSize s) (cols s) (rows s) (speedMultiplier s) (head s) (dir s)
          (pendingDir s) (snake s) (snakeLength s) (food s) (score s) (highScore s)
          (isRunning s) (isGameOver s) (headPrevCell s) v (gen s).
Definition set_gen (v : rng) (s : state) : state :=
  mkState (cellSize s) (cols s) (rows s) (speedMultiplier s) (head s) (dir s)
          (pendingDir s) (snake s) (snakeLength s) (food s) (score s) (highScore s)
          (isRunning s) (isGameOver s) (headPrevCell s) (stored s) v.

Definition draw (s : state) : Q * state :=
  let (r, g) := random (gen s) in (r, set_gen g s).

(** [parseInt(localStorage.getItem(STORAGE_KEY) || '0', 10) || 0]. *)
Definition loadHighScore (st : option string) : Z :=
  or_zero (parseInt (or_zero_string st)).

(** [pickFoodType]: the loop over the weights, [acc] being the running sum
    and [ts] the types not yet passed. *)
Fixpoint pickFoodType_loop (r acc : Q) (ws : list Q) (ts : list (string * Z))
  : option (string * Z) :=
  match ws, ts with
  | w :: ws', t :: ts' =>
      let acc := (acc + w)%Q in
      if Qleb r acc then Some t else pickFoodType_loop r acc ws' ts'
  | _, _ => None
  end.

Definition pickFoodType (r : Q) : string * Z :=
  match pickFoodType_loop r 0%Q FOOD_WEIGHTS FOOD_TYPES with
  | Some t => t
  | None => ("#ff4d4d"%string, 1)      (* FOOD_TYPES[0] *)
  end.

Definition onSnake (c : cell) (l : list cell) : bool :=
  existsb (fun sg => (cx sg =? cx c) && (cy sg =? cy c)) l.

(** [spawnFood]: the body of [while (attempts < 200)], then the fallback that
    places the food at cell [(0, 0)]. *)
Fixpoint spawnFood_loop (budget : nat) (s : state) : state :=
  match budget with
  | O => set_food (Some (mkFood 0 0 "#ff4d4d" 1)) s
  | S b =>
      let (r1, s1) := draw s in
      let (r2, s2) := draw s1 in
      let px := floor_mul r1 (cols s2) in
      let py := floor_mul r2 (rows s2) in
      if negb (onSnake (mkCell px py) (snake s2))
         && negb ((hx (head s2) =? px) && (hy (head s2) =? py))
      then
        let (r3, s3) := draw s2 in
        let (c, p) := pickFoodType r3 in
        set_food (Some (mkFood px py c p)) s3
      else spawnFood_loop b s2
  end.

Definition spawnFood (s : state) : state := spawnFood_loop 200 s.
Arguments spawnFood s : simpl never.

(** The initial body: [snakeLength] cells to the left of the head. *)
Fixpoint body (k : nat) (i : Z) (h : head_t) : list cell :=
  match k with
  | O => []
  | S k' => mkCell (hx h - i - 1) (hy h) :: body k' (i + 1) h
  end.

(** [initGame]. *)
Definition initGame (s : state) : state :=
  let h := mkHead (cols s / 3) (rows s / 2)
                  (inject_Z (cols s / 3 * cellSize s))
                  (inject_Z (rows s / 2 * cellSize s)) in
  let s := set_head h s in
  let s := set_dir (mkCell 1 0) s in
  let s := set_pendingDir None s in
  let s := set_snakeLength 5 s in
  let s := set_score 0 s in
  let s := set_isRunning false s in
  let s := set_isGameOver false s in
  let s := set_snake (body (Z.to_nat (snakeLength s)) 0 (head s)) s in
  spawnFood s.

(** [setDirection(nx, ny)]. *)
Definition setDirection (nx ny : Z) (s : state) : state :=
  if isGameOver s then s
  else if negb (isRunning s) then s
  else if (nx =? - cx (dir s)) && (ny =? - cy (dir s)) then s
  else set_pendingDir (Some (mkCell nx ny)) s.

(** [startGame]. *)
Definition startGame (s : state) : state :=
  let s := if isGameOver s then initGame s else s in
  if negb (isRunning s) then set_isRunning true s else s.

(** [resetGame]. *)
Definition resetGame (s : state) : state :=
  initGame (set_isRunning false s).

(** [triggerGameOver]. *)
Definition triggerGameOver (s : state) : state :=
  let s := set_isRunning false s in
  let s := set_isGameOver true s in
  if highScore s <? score s then
    set_stored (Some (toString (score s))) (set_highScore (score s) s)
  else s.

(** [update(dt)] in four parts: the pending direction, the pixel movement,
    the cell under the head, and what happens on entering a new cell. *)

(** "Consume pendingDir if any and not reversing". *)
Definition steer (s : state) : state :=
  match pendingDir s with
  | Some p =>
      let s := if negb ((cx p =? - cx (dir s)) && (cy p =? - cy (dir s)))
               then set_dir p s else s in
      set_pendingDir None s
  | None => s
  end.

(** "Advance head pixel position". *)
Definition glide (dt : Q) (s : state) : state :=
  let speed := (baseSpeedCellsPerSec * speedMultiplier s * inject_Z (cellSize s))%Q in
  let h := head s in
  set_head (mkHead (hx h) (hy h)
                   (hpx h + inject_Z (cx (dir s)) * speed * dt)%Q
                   (hpy h + inject_Z (cy (dir s)) * speed * dt)%Q) s.

(** "Determine current cell (rounded)". *)
Definition cellOf (s : state) : cell :=
  mkCell (round (hpx (head s) / inject_Z (cellSize s))%Q)
         (round (hpy (head s) / inject_Z (cellSize s))%Q).

(** [head.x < 0 || head.x >= cols || head.y < 0 || head.y >= rows]. *)
Definition hitsWall (s : state) : bool :=
  (hx (head s) <? 0) || (cols s <=? hx (head s))
  || (hy (head s) <? 0) || (rows s <=? hy (head s)).

(** The body of [if (newCell.x !== headPrevCell.x || newCell.y !== headPrevCell.y)]. *)
Definition enter (newCell : cell) (s : state) : state :=
  let s := set_headPrevCell newCell s in
  let s := set_head (mkHead (cx newCell) (cy newCell)
                            (hpx (head s)) (hpy (head s))) s in
  if hitsWall s then triggerGameOver s
  else if onSnake (mkCell (hx (head s)) (hy (head s))) (snake s)
  then triggerGameOver s
  else
    let s := set_snake (mkCell (hx (head s)) (hy (head s)) :: snake s) s in
    let s :=
      match food s with
      | Some f =>
          if (hx (head s) =? fx f) && (hy (head s) =? fy f) then
            let s := set_score (score s + points f) s in
            let s := set_snakeLength (snakeLength s + Z.max 1 (points f)) s in
            let s := set_speedMultiplier
                       (1 + Qmin 1 (inject_Z (score s) / 50))%Q s in
            spawnFood s
          else s
      | None => s
      end in
    set_snake (firstn (Z.to_nat (snakeLength s)) (snake s)) s.

Definition update (dt : Q) (s : state) : state :=
  if isGameOver s then s
  else
    let s := glide dt (steer s) in
    let newCell := cellOf s in
    if negb (cx newCell =? cx (headPrevCell s)) || negb (cy newCell =? cy (headPrevCell s))
    then enter newCell s
    else s.

(** The frame callback [loop]: [if (isRunning) update(deltaMs / 1000)]. *)
Definition loop (dt : Q) (s : state) : state :=
  if isRunning s then update dt s else s.

(** The four directions the input handlers pass to [setDirection]. *)
Definition isDirection (d : cell) : bool :=
  ((cx d =? 1) && (cy d =? 0)) || ((cx d =? -1) && (cy d =? 0))
  || ((cx d =? 0) && (cy d =? 1)) || ((cx d =? 0) && (cy d =? -1)).

(** [d] is the exact negation of [e]. *)
Definition reverses (d e : cell) : bool :=
  (cx d =? - cx e) && (cy d =? - cy e).

(** The score is not negative, the target length is five plus the score, the
    snake is no longer than its target, and the food on the board is one of
    the configured types. *)
Definition sane (s : state) : Prop :=
  0 <= score s /\ snakeLength s = 5 + score s
  /\ Z.of_nat (List.length (snake s)) <= snakeLength s
  /\ (forall f, food s = Some f -> In (color f, points f) FOOD_TYPES).

End Classic.

(* ================================================================= *)
(** ** Concrete sessions used as examples *)

Module Scenario.
Import JS.

(** *** A session of the pixel engine that ends on a piece of food

    The canvas is 800 by 500.  The random stream places the first food at
    column 14, row 9 of the food grid, that is at (341, 231), of the gold
    type (10 points); every later draw is 0.  The player presses Start, then
    Up, lets two frames pass (the first one has [dt = 0]), presses Left and
    lets three frames of 100 ms pass. *)

Definition draws (n : nat) : Q :=
  match n with
  | 0%nat => (42 # 100)%Q
  | 1%nat => (45 # 100)%Q
  | 2%nat => (9 # 10)%Q
  | _ => 0%Q
  end.

Definition fuel : nat := 4.

Definition andThen (o : Game.outcome Game.state)
                   (k : Game.state -> Game.outcome Game.state)
  : Game.outcome Game.state :=
  match o with
  | Game.Done s => k s
  | Game.Unfinished => Game.Unfinished
  | Game.Raised => Game.Raised
  end.

(** The session up to, and without, its last frame. *)
Definition uTurn : Game.outcome Game.state :=
  andThen (Game.init fuel 800 500 None (mkRng draws 0)) (fun s =>
  andThen (Game.startGame fuel s) (fun s =>
  andThen (Game.loop fuel 1000%Q (Game.setDirection 0 (-1) s)) (fun s =>
  andThen (Game.loop fuel (2125 # 2)%Q s) (fun s =>
  andThen (Game.loop fuel (2325 # 2)%Q (Game.setDirection (-1) 0 s)) (fun s =>
  Game.loop fuel (2525 # 2)%Q s))))).

(** The time stamp of the last frame. *)
Definition lastFrame : Q := (2725 # 2)%Q.

(** The session with its last frame: the game is over. *)
Definition crashed : Game.outcome Game.state :=
  andThen uTurn (Game.loop fuel lastFrame).

(** The player then presses Left and clicks the overlay's Start button, and
    five frames of 100 ms pass. *)
Definition restarted : Game.outcome Game.state :=
  andThen crashed (fun s =>
  andThen (Game.startGame fuel (Game.setDirection (-1) 0 s)) (fun s =>
  andThen (Game.loop fuel 3000%Q s) (fun s =>
  andThen (Game.loop fuel 3100%Q s) (fun s =>
  andThen (Game.loop fuel 3200%Q s) (fun s =>
  andThen (Game.loop fuel 3300%Q s) (fun s =>
  andThen (Game.loop fuel 3400%Q s) (fun s =>
  Game.loop fuel 3500%Q s))))))).

(** The state inside a result, [d] when there is none. *)
Definition stateOf (o : Game.outcome Game.state) (d : Game.state) : Game.state :=
  match o with
  | Game.Done s => s
  | _ => d
  end.

(** *** A session of the grid engine

    Medium difficulty, nothing stored.  The first two draws put the apple on
    cell (15, 14), right in front of the snake that starts on (14, 14); the
    later draws follow a fixed pattern.  The player presses Start and the
    countdown runs out. *)

Definition appDraws (n : nat) : Q :=
  match n with
  | 0%nat => (56 # 100)%Q
  | 1%nat => (51 # 100)%Q
  | _ => (Z.of_nat (n * 37 mod 100) # 100)%Q
  end.

Definition appBoot : App.state := App.boot (mkRng appDraws 0) "medium" None.

Definition appStarted : option App.state :=
  App.run [App.EvStart; App.EvCountdown; App.EvCountdown; App.EvCountdown] appBoot.

Definition appRunning : App.state :=
  match appStarted with
  | Some s => s
  | None => appBoot
  end.

(** The same session, paused right after the countdown. *)
Definition appPaused : option App.state :=
  App.run [App.EvStart; App.EvCountdown; App.EvCountdown; App.EvCountdown;
           App.EvPause] appBoot.

(** *** A session of the cell engine on its last free cell

    A 12 by 12 board of 24-pixel cells.  The snake winds over every cell but
    (0, 0): along row 0 from (1, 0), where the head is, to (11, 0), back along
    row 1, forth along row 2, and so on.  The food lies on (0, 0), and the
    head moves left towards it at twice the base speed. *)

Fixpoint rowCells (k : nat) (x0 step y0 : Z) : list Classic.cell :=
  match k with
  | O => []
  | S k' => Classic.mkCell x0 y0 :: rowCells k' (x0 + step) step y0
  end.

Fixpoint windingRows (k : nat) (y0 : Z) : list Classic.cell :=
  match k with
  | O => []
  | S k' => (if Z.odd y0 then rowCells 12 11 (-1) y0 else rowCells 12 0 1 y0)
            ++ windingRows k' (y0 + 1)
  end.

Definition winding : list Classic.cell := rowCells 11 1 1 0 ++ windingRows 11 1.

Definition patternDraws (n : nat) : Q := (Z.of_nat (n * 37 mod 100) # 100)%Q.

Definition lastFreeCell : Classic.state :=
  Classic.mkState 24 12 12 2%Q (Classic.mkHead 1 0 24%Q 0%Q)
                  (Classic.mkCell (-1) 0) None winding 143
                  (Some (Classic.mkFood 0 0 "#ff4d4d" 1)) 138 200 true false
                  (Classic.mkCell 1 0) (Some "200"%string) (mkRng patternDraws 0).

(** *** A state of the pixel engine with no room for food

    A 280 by 175 canvas has a food grid of 10 columns and 5 rows; the snake
    has a segment on each of its 50 points. *)

Fixpoint rowPoints (k : nat) (x0 y0 : Z) : list Game.point :=
  match k with
  | O => []
  | S k' => Game.mkPoint (inject_Z x0) (inject_Z y0) :: rowPoints k' (x0 + 22) y0
  end.

Fixpoint gridPoints (k : nat) (y0 : Z) : list Game.point :=
  match k with
  | O => []
  | S k' => rowPoints 10 33 y0 ++ gridPoints k' (y0 + 22)
  end.

Definition crowded (fd : option Game.food_t) (g : rng) : Game.state :=
  Game.mkState 280 175 0%Q true false false 60 (Num 60)
               (Game.mkPoint 33%Q 33%Q) (Game.mkVec 1 0) 65 (gridPoints 5 33)
               fd None None (Some "60"%string) g.

(** The state inside a result of the grid engine, [d] when there is none. *)
Definition gridStateOf (o : option App.state) (d : App.state) : App.state :=
  match o with
  | Some s => s
  | None => d
  end.

(** The pixel session right after Start. *)
Definition gameStarted : Game.state :=
  stateOf (andThen (Game.init fuel 800 500 None (mkRng draws 0)) (Game.startGame fuel))
          (crowded None (mkRng draws 0)).



(** *** Snakes about to bite their tail

    Four segments in a square, the head about to step onto the tail's
    cell. *)

Definition appCoiled : App.state :=
  App.mkState [App.mkPos 5 5; App.mkPos 5 6; App.mkPos 6 6; App.mkPos 6 5]
              (App.mkPos 0 (-1)) (App.mkPos 1 0) (Some (App.mkPos 20 20)) []
              30 (Num 0) true true false false 0 true "medium" None
              (mkRng patternDraws 0).

Definition cellCoiled : Classic.state :=
  Classic.mkState 24 30 20 1%Q (Classic.mkHead 5 5 120%Q 120%Q)
                  (Classic.mkCell 1 0) None
                  [Classic.mkCell 5 5; Classic.mkCell 5 6; Classic.mkCell 6 6;
                   Classic.mkCell 6 5]
                  4 (Some (Classic.mkFood 20 10 "#ff4d4d" 1)) 3 0 true false
                  (Classic.mkCell 5 5) None (mkRng patternDraws 0).

(** The same snakes with a random stream whose first two values land on the
    segment (6, 6), so that the first placement attempt fails: on the grid
    board [floor(0.2 * 26) + 1 = 6] twice, on the cell board
    [floor(0.2 * 30) = 6] and [floor(0.3 * 20) = 6]. *)
Definition retryDraws (a b : Q) (n : nat) : Q :=
  match n with
  | 0%nat => a
  | 1%nat => b
  | _ => patternDraws n
  end.

Definition appBlocked : App.state :=
  App.set_gen (mkRng (retryDraws (1 # 5) (1 # 5)) 0) appCoiled.

Definition cellBlocked : Classic.state :=
  Classic.set_gen (mkRng (retryDraws (1 # 5) (3 # 10)) 0) cellCoiled.

(** The grid session after its first tick, which eats the apple, and a
    maintenance pass. *)
Definition appFed : App.state :=
  gridStateOf
    (App.run [App.EvStart; App.EvCountdown; App.EvCountdown; App.EvCountdown;
              App.EvInterval; App.EvMaintenance] appBoot)
    appBoot.

Definition appHeld : App.state :=
  match appPaused with
  | Some s => s
  | None => appBoot
  end.

End Scenario.

(* ================================================================= *)
(** * Properties *)

(** ** [parseInt] and [String] *)

Section Decimal.
Import JS.

Lemma digit_of_digit_char (d : Z) :
  0 <= d < 10 -> digit_of (digit_char d) = Some d.
Proof.
  intros H.
  assert (E : d = 0 \/ d = 1 \/ d = 2 \/ d = 3 \/ d = 4 \/ d = 5 \/ d = 6
              \/ d = 7 \/ d = 8 \/ d = 9) by lia.
  repeat (destruct E as [E | E]; [subst d; reflexivity |]).
  subst d; reflexivity.
Qed.

Lemma digits_head (f : nat) : forall n acc,
  0 <= n -> exists c r, digits f n acc = String c r /\ digit_of c <> None.
Proof.
  induction f as [|f IH]; intros n acc Hn; simpl.
  - exists (digit_char (n mod 10)), acc. split; [reflexivity|].
    rewrite digit_of_digit_char; [discriminate | apply Z.mod_pos_bound; lia].
  - destruct (n <? 10).
    + exists (digit_char (n mod 10)), acc. split; [reflexivity|].
      rewrite digit_of_digit_char; [discriminate | apply Z.mod_pos_bound; lia].
    + apply IH. apply Z.div_pos; lia.
Qed.

Lemma log2_div10 (n : Z) : 10 <= n -> Z.log2 (n / 10) <= Z.log2 n - 1.
Proof.
  intros H.
  assert (D : n = 10 * (n / 10) + n mod 10) by (apply Z.div_mod; lia).
  assert (M : 0 <= n mod 10 < 10) by (apply Z.mod_pos_bound; lia).
  assert (P : 0 < n / 10) by lia.
  pose proof (Z.log2_double (n / 10) P) as Dbl.
  assert (L : Z.log2 (2 * (n / 10)) <= Z.log2 n) by (apply Z.log2_le_mono; lia).
  lia.
Qed.

Lemma parse_digits_digits (f : nat) : forall n acc,
  0 <= n -> Z.log2 n <= Z.of_nat f ->
  parse_digits (digits f n acc) 0 = parse_digits acc n.
Proof.
  assert (Small : forall n acc, 0 <= n < 10 ->
            parse_digits (String (digit_char (n mod 10)) acc) 0 = parse_digits acc n).
  { intros n acc Hn. simpl. rewrite Z.mod_small by lia.
    rewrite digit_of_digit_char by lia. f_equal. }
  induction f as [|f IH]; intros n acc Hn Hl; simpl digits.
  - apply Small.
    assert (n < 2 ^ 1).
    { destruct (Z.eq_dec n 0) as [->|]; [reflexivity|].
      apply Z.log2_lt_pow2; lia. }
    change (2 ^ 1) with 2 in *. lia.
  - destruct (n <? 10) eqn:E.
    + apply Small. apply Z.ltb_lt in E. lia.
    + apply Z.ltb_ge in E.
      rewrite IH.
      * cbn [parse_digits].
        rewrite digit_of_digit_char by (apply Z.mod_pos_bound; lia).
        f_equal. symmetry. apply Z.div_mod. lia.
      * apply Z.div_pos; lia.
      * pose proof (log2_div10 n E). lia.
Qed.

Lemma parseInt_leading_digit (c : ascii) (r : string) :
  digit_of c <> None ->
  parseInt (String c r) = Num (parse_digits (String c r) 0).
Proof.
  destruct c as [[] [] [] [] [] [] [] []]; intros H;
    try (exfalso; apply H; reflexivity); reflexivity.
Qed.

Lemma starts_with_digit_digits (f : nat) (n : Z) (acc : string) :
  0 <= n -> starts_with_digit (digits f n acc) = true.
Proof.
  intros Hn. destruct (digits_head f n acc Hn) as (c & r & -> & Hc).
  simpl. destruct (digit_of c); congruence.
Qed.

Lemma parseInt_minus (r : string) :
  parseInt (String "-"%char r)
  = if starts_with_digit r then Num (- parse_digits r 0) else NaN.
Proof. reflexivity. Qed.

(** Reading back what [String] wrote gives the same integer. *)
Lemma parseInt_toString (n : Z) : parseInt (toString n) = Num n.
Proof.
  unfold toString. destruct (n <? 0) eqn:E.
  - apply Z.ltb_lt in E. rewrite parseInt_minus.
    rewrite starts_with_digit_digits by lia.
    rewrite parse_digits_digits; [cbn [parse_digits]; f_equal; lia | lia |].
    rewrite Z2Nat.id; [lia | apply Z.log2_nonneg].
  - apply Z.ltb_ge in E.
    destruct (digits_head (Z.to_nat (Z.log2 n)) n "" E) as (c & r & Hd & Hc).
    rewrite Hd, parseInt_leading_digit by exact Hc. rewrite <- Hd.
    rewrite parse_digits_digits; [reflexivity | lia |].
    rewrite Z2Nat.id; [lia | apply Z.log2_nonneg].
Qed.

(** [String(n)] is never the empty string, so [s || '0'] keeps it. *)
Lemma or_zero_string_toString (n : Z) :
  or_zero_string (Some (toString n)) = toString n.
Proof.
  unfold toString. destruct (n <? 0) eqn:E; [reflexivity|].
  apply Z.ltb_ge in E.
  destruct (digits_head (Z.to_nat (Z.log2 n)) n "" E) as (c & r & -> & _).
  reflexivity.
Qed.

(** A stored text without a leading number parses to [NaN]. *)
Lemma parseInt_no_digit (c : ascii) (r : string) :
  is_space c = false -> c <> "-"%char -> c <> "+"%char -> digit_of c = None ->
  parseInt (String c r) = NaN.
Proof.
  intros Hs Hm Hp Hd. unfold parseInt. simpl skip_spaces. rewrite Hs.
  destruct c as [[] [] [] [] [] [] [] []];
    try reflexivity; try discriminate; congruence.
Qed.

End Decimal.

(** ** Random integers *)

Section RandomFacts.
Import JS.

(** [Math.floor(r * n)] lies in [0, n) when [r] lies in [0, 1). *)
Lemma floor_mul_range (r : Q) (n : Z) :
  (0 <= r)%Q -> (r < 1)%Q -> 0 < n -> 0 <= floor_mul r n < n.
Proof.
  intros H0 H1 Hn. unfold floor_mul.
  assert (Pn : (inject_Z 0 < inject_Z n)%Q) by (rewrite <- Zlt_Qlt; exact Hn).
  change (inject_Z 0) with 0%Q in Pn.
  split.
  - change 0 with (Qfloor 0). apply Qfloor_resp_le.
    apply Qmult_le_0_compat; [exact H0 | apply Qlt_le_weak; exact Pn].
  - rewrite Zlt_Qlt.
    apply Qle_lt_trans with (r * inject_Z n)%Q; [apply Qfloor_le|].
    setoid_replace (inject_Z n) with (1 * inject_Z n)%Q at 2 by ring.
    apply Qmult_lt_compat_r; assumption.
Qed.

(** [randInt(min, max)] lies in [min, max] when [Math.random()] behaves. *)
Lemma randInt_range (lo hi : Z) (r : Q) :
  (0 <= r)%Q -> (r < 1)%Q -> lo <= hi -> lo <= randInt lo hi r <= hi.
Proof.
  intros H0 H1 H. unfold randInt.
  pose proof (floor_mul_range r (hi - lo + 1) H0 H1). lia.
Qed.

End RandomFacts.

(** ** The pixel engine *)

Section GameFacts.
Import JS Game.

(** A placement writes the food and draws random numbers; nothing else. *)
Lemma placeFood_only_food s s4 :
  placeFood s = Some s4 ->
  s4 = set_gen (gen s4) (set_food (food s4) s) /\ food s4 <> None
  /\ cursor (gen s4) = (cursor (gen s) + 3)%nat.
Proof.
  unfold placeFood, draw, random. cbv zeta.
  cbn [fst snd gen set_gen stream cursor].
  destruct (nth_error foodTypes _) as [[c p]|]; [|discriminate].
  intros H; inversion H; subst s4. cbn [gen food set_food set_gen cursor].
  split; [destruct s; reflexivity|]. split; [discriminate|lia].
Qed.

Lemma spawnFood_only_food (fuel : nat) : forall s s',
  spawnFood fuel s = Done s' -> s' = set_gen (gen s') (set_food (food s') s).
Proof.
  induction fuel as [|f IH]; intros s s' H; [discriminate|].
  cbn [spawnFood] in H.
  destruct (placeFood s) as [s4|] eqn:Ep; [|discriminate].
  destruct (placeFood_only_food _ _ Ep) as (E4 & _).
  destruct (overlaps s4).
  - apply IH in H. rewrite H, E4. destruct s; reflexivity.
  - inversion H; subst s'. exact E4.
Qed.

Lemma spawnFood_score fuel s s' : spawnFood fuel s = Done s' -> score s' = score s.
Proof. intros H. rewrite (spawnFood_only_food _ _ _ H). reflexivity. Qed.

Lemma spawnFood_highScore fuel s s' :
  spawnFood fuel s = Done s' -> highScore s' = highScore s.
Proof. intros H. rewrite (spawnFood_only_food _ _ _ H). reflexivity. Qed.


Lemma spawnFood_segments fuel s s' :
  spawnFood fuel s = Done s' -> segments s' = segments s.
Proof. intros H. rewrite (spawnFood_only_food _ _ _ H). reflexivity. Qed.

(** When [spawnFood] returns, food is present and no segment lies within
    [0.9] cell of it. *)
Lemma spawnFood_clear (fuel : nat) : forall s s',
  spawnFood fuel s = Done s' ->
  exists f, food s' = Some f
            /\ existsb (fun sg => closer (x sg) (y sg) (fx f) (fy f) eatRadius)
                       (segments s') = false.
Proof.
  induction fuel as [|f IH]; intros s s' H; [discriminate|].
  cbn [spawnFood] in H.
  destruct (placeFood s) as [s4|] eqn:Ep; [|discriminate].
  destruct (overlaps s4) eqn:Eo; [eapply IH; exact H|].
  inversion H; subst s'.
  destruct (placeFood_only_food _ _ Ep) as (_ & Hf & _).
  unfold overlaps in Eo. destruct (food s4) as [fd|]; [|congruence].
  exists fd. split; [reflexivity|exact Eo].
Qed.

(** More fuel never changes a result already obtained. *)
Lemma spawnFood_fuel_mono (fuel : nat) : forall s s',
  spawnFood fuel s = Done s' -> spawnFood (S fuel) s = Done s'.
Proof.
  induction fuel as [|f IH]; intros s s' H; [discriminate|].
  cbn [spawnFood] in H. change (spawnFood (S (S f)) s) with
    (match placeFood s with
     | None => Raised
     | Some s4 => if overlaps s4 then spawnFood (S f) s4 else Done s4
     end).
  destruct (placeFood s) as [s4|]; [|discriminate].
  destruct (overlaps s4); [apply IH; exact H | exact H].
Qed.

(** The first placement that is clear of the snake is the one [spawnFood]
    returns with. *)
Lemma spawnFood_first_clear s s4 fuel :
  placeFood s = Some s4 -> overlaps s4 = false -> spawnFood (S fuel) s = Done s4.
Proof. intros Ep Eo. cbn [spawnFood]. rewrite Ep, Eo. reflexivity. Qed.

Lemma recordHighScore_score s : score (recordHighScore s) = score s.
Proof. unfold recordHighScore. destruct (gt _ _); reflexivity. Qed.

Lemma endGame_score reason s : score (endGame reason s) = score s.
Proof. unfold endGame. cbn. rewrite recordHighScore_score. reflexivity. Qed.

Lemma endGame_gameOver reason s : gameOver (endGame reason s) = true.
Proof. unfold endGame, recordHighScore. cbn. destruct (gt _ _); reflexivity. Qed.

Lemma endGame_running reason s : running (endGame reason s) = false.
Proof. unfold endGame, recordHighScore. cbn. destruct (gt _ _); reflexivity. Qed.

Lemma collide_score s : score (collide s) = score s.
Proof.
  unfold collide. destruct (hitsWall s); [apply endGame_score|].
  destruct (hitsSelf s); [apply endGame_score | reflexivity].
Qed.

Ltac gfields :=
  cbn [canvasWidth canvasHeight lastTimestamp running paused gameOver score
       highScore head dir length segments food pendingDir overlay stored gen
       set_lastTimestamp set_running set_paused set_gameOver set_score
       set_highScore set_head set_dir set_length set_segments set_food
       set_pendingDir set_overlay set_stored set_gen fst snd] in *.

Lemma advance_score dt s : score (advance dt s) = score s.
Proof.
  unfold advance. cbv zeta. gfields.
  destruct (pendingDir s); gfields;
    match goal with |- context [if ?b then _ else _] => destruct b end; reflexivity.
Qed.

Lemma advance_food dt s : food (advance dt s) = food s.
Proof.
  unfold advance. cbv zeta. gfields.
  destruct (pendingDir s); gfields;
    match goal with |- context [if ?b then _ else _] => destruct b end; reflexivity.
Qed.

Lemma eat_score fuel s s' f :
  food s = Some f -> reachesFood s = true -> eat fuel s = Done s' ->
  score s' = score s + points f.
Proof.
  unfold eat, reachesFood. intros -> -> H.
  destruct (spawnFood fuel _) as [s3| |] eqn:Hs; try discriminate.
  inversion H; subst s'. rewrite recordHighScore_score.
  rewrite (spawnFood_score _ _ _ Hs). reflexivity.
Qed.

Lemma update_Done fuel dt s s1 :
  update fuel dt s = Done s1 ->
  exists s2, eat fuel (advance dt s) = Done s2 /\ s1 = collide s2.
Proof.
  unfold update. generalize (advance dt s). intros a.
  destruct (eat fuel a) as [s2| |]; try discriminate.
  intros H; inversion H. exists s2. split; reflexivity.
Qed.

(** The food test of [update] comes before its collision tests: when the
    moved head reaches the food, the points are added whether or not the same
    frame ends the game. *)
Lemma update_scores_before_colliding fuel dt s f s1 :
  food s = Some f ->
  reachesFood (advance dt s) = true ->
  update fuel dt s = Done s1 ->
  score s1 = score s + points f.
Proof.
  intros Hf Hr Hu.
  destruct (update_Done _ _ _ _ Hu) as (s2 & He & ->).
  rewrite collide_score.
  rewrite <- (advance_food dt s) in Hf.
  rewrite (eat_score _ _ _ _ Hf Hr He).
  rewrite advance_score. reflexivity.
Qed.

Lemma advance_dir dt s :
  dir (advance dt s) = match pendingDir s with Some d => d | None => dir s end.
Proof.
  unfold advance. cbv zeta. gfields.
  destruct (pendingDir s); gfields;
    match goal with |- context [if ?b then _ else _] => destruct b end; reflexivity.
Qed.


Lemma recordHighScore_dir s : dir (recordHighScore s) = dir s.
Proof. unfold recordHighScore. destruct (gt _ _); reflexivity. Qed.

Lemma eat_dir fuel s s' : eat fuel s = Done s' -> dir s' = dir s.
Proof.
  unfold eat. destruct (food s) as [f|]; [|intros H; inversion H; reflexivity].
  destruct (closer _ _ _ _ _); [|intros H; inversion H; reflexivity].
  destruct (spawnFood fuel _) as [s3| |] eqn:Hs; try discriminate.
  intros H; inversion H. rewrite recordHighScore_dir.
  rewrite (spawnFood_only_food _ _ _ Hs). reflexivity.
Qed.

Lemma collide_dir s : dir (collide s) = dir s.
Proof.
  unfold collide, endGame.
  destruct (hitsWall s); [cbv zeta; gfields; rewrite recordHighScore_dir; reflexivity|].
  destruct (hitsSelf s); [cbv zeta; gfields; rewrite recordHighScore_dir|]; reflexivity.
Qed.

(** The direction a frame applies is the pending one, or the current one
    when nothing is pending. *)
Lemma update_dir fuel dt s s' :
  update fuel dt s = Done s' ->
  dir s' = match pendingDir s with Some d => d | None => dir s end.
Proof.
  intros H. destruct (update_Done _ _ _ _ H) as (s2 & He & ->).
  rewrite collide_dir, (eat_dir _ _ _ He). apply advance_dir.
Qed.

Lemma advance_pending dt s : pendingDir (advance dt s) = None.
Proof.
  unfold advance. cbv zeta. gfields.
  destruct (pendingDir s) eqn:E; gfields;
    match goal with |- context [if ?b then _ else _] => destruct b end;
    gfields; first [reflexivity | exact E].
Qed.

Lemma recordHighScore_pending s : pendingDir (recordHighScore s) = pendingDir s.
Proof. unfold recordHighScore. destruct (gt _ _); reflexivity. Qed.

Lemma eat_pending fuel a s' : eat fuel a = Done s' -> pendingDir s' = pendingDir a.
Proof.
  unfold eat. destruct (food a) as [f|]; [|intros H; inversion H; reflexivity].
  destruct (closer _ _ _ _ _); [|intros H; inversion H; reflexivity].
  destruct (spawnFood fuel _) as [s3| |] eqn:Hs; try discriminate.
  intros H; inversion H. rewrite recordHighScore_pending.
  rewrite (spawnFood_only_food _ _ _ Hs). reflexivity.
Qed.

Lemma collide_pending s : pendingDir (collide s) = pendingDir s.
Proof.
  unfold collide, endGame.
  destruct (hitsWall s);
    [cbv zeta; gfields; rewrite recordHighScore_pending; reflexivity|].
  destruct (hitsSelf s);
    [cbv zeta; gfields; rewrite recordHighScore_pending|]; reflexivity.
Qed.

(** A frame always leaves the pending direction empty. *)
Lemma update_pending fuel dt s s' : update fuel dt s = Done s' -> pendingDir s' = None.
Proof.
  intros H. destruct (update_Done _ _ _ _ H) as (s2 & He & ->).
  rewrite collide_pending, (eat_pending _ _ _ He). apply advance_pending.
Qed.

Lemma setDirection_buffer ndx ndy s :
  dir (setDirection ndx ndy s) = dir s
  /\ (pendingDir (setDirection ndx ndy s) = pendingDir s
      \/ exists p, pendingDir (setDirection ndx ndy s) = Some p
                   /\ reverses p (dir s) = false).
Proof.
  unfold setDirection. cbv zeta.
  destruct ((ndx =? - dx (dir s)) && (ndy =? - dy (dir s))) eqn:E; [auto|].
  split; [reflexivity|]. right. eexists; split; [reflexivity|exact E].
Qed.

Lemma setDirection_all_buffer ps : forall s t,
  dir t = dir s ->
  (pendingDir t = None \/ exists p, pendingDir t = Some p /\ reverses p (dir s) = false) ->
  dir (proposeAll ps t) = dir s
  /\ (pendingDir (proposeAll ps t) = None
      \/ exists p, pendingDir (proposeAll ps t) = Some p
                   /\ reverses p (dir s) = false).
Proof.
  induction ps as [|[a b] ps IH]; intros s t Ed En; [split; assumption|].
  cbn [proposeAll fold_left fst snd]. fold (proposeAll ps (setDirection a b t)).
  destruct (setDirection_buffer a b t) as [Ed' En'].
  apply IH; [congruence|].
  destruct En' as [-> | (p & Hp & Hr)]; [exact En|].
  right. exists p. split; [exact Hp|]. rewrite <- Ed. exact Hr.
Qed.

Lemma vec_reverses_self d : isDirection d = true -> reverses d d = false.
Proof.
  unfold isDirection, reverses. destruct d as [a b]. cbn [dx dy].
  rewrite !orb_true_iff, !andb_true_iff, !Z.eqb_eq.
  intros H. apply andb_false_iff. rewrite !Z.eqb_neq. lia.
Qed.

(** Whatever is proposed between two frames, the second frame does not apply
    the reverse of the direction the first one applied. *)
Lemma update_never_reverses fuel dt0 dt s0 s1 ps s2 :
  update fuel dt0 s0 = Done s1 ->
  isDirection (dir s1) = true ->
  update fuel dt (proposeAll ps s1) = Done s2 ->
  reverses (dir s2) (dir s1) = false.
Proof.
  intros U1 Hd U2.
  pose proof (update_pending _ _ _ _ U1) as P1.
  destruct (setDirection_all_buffer ps s1 s1 eq_refl (or_introl P1)) as [Ed En].
  rewrite (update_dir _ _ _ _ U2), Ed.
  destruct En as [-> | (p & -> & Hr)]; [apply vec_reverses_self; exact Hd | exact Hr].
Qed.

(** [setDirection] looks at no flag: the request is recorded whenever it is
    not the reverse of the current direction. *)
Lemma setDirection_any_state ndx ndy s :
  reverses (mkVec ndx ndy) (dir s) = false ->
  pendingDir (setDirection ndx ndy s) = Some (mkVec ndx ndy).
Proof.
  unfold setDirection, reverses. cbn [dx dy]. intros ->. reflexivity.
Qed.

Lemma recordHighScore_spec s h :
  highScore s = Num h ->
  (h < score s -> highScore (recordHighScore s) = Num (score s)
                  /\ stored (recordHighScore s) = Some (toString (score s)))
  /\ (score s <= h -> highScore (recordHighScore s) = Num h
                      /\ stored (recordHighScore s) = stored s).
Proof.
  intros Hh. unfold recordHighScore. rewrite Hh. cbn [gt].
  split; intros L.
  - apply Z.ltb_lt in L. rewrite L. split; reflexivity.
  - apply Z.ltb_ge in L. rewrite L. split; [exact Hh | reflexivity].
Qed.


(** The check made again when the game ends. *)
Lemma endGame_records reason s h :
  highScore s = Num h ->
  (h < score s -> highScore (endGame reason s) = Num (score s)
                  /\ stored (endGame reason s) = Some (toString (score s)))
  /\ (score s <= h -> highScore (endGame reason s) = Num h
                      /\ stored (endGame reason s) = stored s).
Proof.
  intros Hh. unfold endGame. cbv zeta. gfields.
  set (t := set_paused true (set_running false (set_gameOver true s))).
  assert (Ht : highScore t = Num h) by exact Hh.
  destruct (recordHighScore_spec t h Ht) as [A B].
  change (score t) with (score s) in A, B.
  change (stored t) with (stored s) in B.
  split; assumption.
Qed.





(** On the crowded canvas every point of the food grid is within reach of a
    segment. *)
Lemma crowded_grid_covered (k j : Z) :
  0 <= k < 10 -> 0 <= j < 5 ->
  existsb (fun sg => closer (x sg) (y sg)
                            (inject_Z (22 + k * 22) + inject_Z 22 / 2)%Q
                            (inject_Z (22 + j * 22) + inject_Z 22 / 2)%Q eatRadius)
          (Scenario.gridPoints 5 33) = true.
Proof.
  intros Hk Hj.
  assert (Ek : k = 0 \/ k = 1 \/ k = 2 \/ k = 3 \/ k = 4 \/ k = 5 \/ k = 6
               \/ k = 7 \/ k = 8 \/ k = 9) by lia.
  assert (Ej : j = 0 \/ j = 1 \/ j = 2 \/ j = 3 \/ j = 4) by lia.
  repeat (destruct Ek as [Ek | Ek]; [subst k|]); try subst k;
    repeat (destruct Ej as [Ej | Ej]; [subst j|]); try subst j;
    vm_compute; reflexivity.
Qed.

(** There [spawnFood] never returns, whatever [Math.random()] yields. *)
Lemma spawnFood_crowded (st : nat -> Q) :
  (forall n, (0 <= st n)%Q /\ (st n < 1)%Q) ->
  forall fuel fd c, spawnFood fuel (Scenario.crowded fd (mkRng st c)) = Unfinished.
Proof.
  intros Hst. induction fuel as [|f IH]; intros fd c; [reflexivity|].
  cbn [spawnFood].
  destruct (Hst c) as [A0 A1]. destruct (Hst (S c)) as [B0 B1].
  destruct (Hst (S (S c))) as [C0 C1].
  pose proof (floor_mul_range (st c) 10 A0 A1 eq_refl) as Rk.
  pose proof (floor_mul_range (st (S c)) 5 B0 B1 eq_refl) as Rj.
  pose proof (floor_mul_range (st (S (S c))) 4 C0 C1 eq_refl) as Rt.
  assert (Ep : exists cl p,
             placeFood (Scenario.crowded fd (mkRng st c))
             = Some (Scenario.crowded
                       (Some (mkFood (inject_Z (22 + floor_mul (st c) 10 * 22)
                                      + inject_Z 22 / 2)%Q
                                     (inject_Z (22 + floor_mul (st (S c)) 5 * 22)
                                      + inject_Z 22 / 2)%Q cl p))
                       (mkRng st (S (S (S c)))))).
  { unfold placeFood, draw, random, randInt. cbv zeta.
    cbn [fst snd gen set_gen stream cursor Scenario.crowded canvasWidth canvasHeight].
    change ((280 - cellSize * 2) / cellSize - 1 - 0 + 1) with 10.
    change ((175 - cellSize * 2) / cellSize - 1 - 0 + 1) with 5.
    change (Z.of_nat (List.length foodTypes) - 1 - 0 + 1) with 4.
    rewrite !Z.add_0_r.
    assert (Et : floor_mul (st (S (S c))) 4 = 0 \/ floor_mul (st (S (S c))) 4 = 1
                 \/ floor_mul (st (S (S c))) 4 = 2
                 \/ floor_mul (st (S (S c))) 4 = 3) by lia.
    destruct Et as [-> | [-> | [-> | ->]]]; cbn [Z.to_nat nth_error foodTypes
                                                  Pos.to_nat Pos.iter_op Nat.add];
      do 2 eexists; reflexivity. }
  destruct Ep as (cl & p & ->).
  unfold overlaps. cbn [food segments Scenario.crowded fx fy].
  rewrite crowded_grid_covered by assumption.
  apply IH.
Qed.

(** [togglePause] does nothing once the game is over; otherwise it flips the
    pause flag, so a second call undoes the first. *)
Lemma togglePause_over s : gameOver s = true -> togglePause s = s.
Proof. intros G. unfold togglePause. rewrite G. reflexivity. Qed.

Lemma togglePause_flips s :
  gameOver s = false ->
  paused (togglePause s) = negb (paused s)
  /\ paused (togglePause (togglePause s)) = paused s.
Proof.
  intros G.
  assert (F : forall t, gameOver t = false ->
            paused (togglePause t) = negb (paused t)
            /\ gameOver (togglePause t) = false).
  { intros t Gt. unfold togglePause. rewrite Gt. cbv zeta. gfields.
    destruct (paused t); cbn [negb]; gfields; auto. }
  destruct (F s G) as [P1 G1]. destruct (F _ G1) as [P2 _].
  split; [exact P1|]. rewrite P2, P1. apply negb_involutive.
Qed.

End GameFacts.

(** ** The grid engine *)

Section AppFacts.
Import JS App.

Lemma posEq_eq a b : posEq a b = true <-> a = b.
Proof.
  unfold posEq. rewrite andb_true_iff, !Z.eqb_eq.
  destruct a, b; cbn. split; [intros [-> ->]; reflexivity | intros H; inversion H; auto].
Qed.

(** [spawnApple] writes the apple and draws random numbers; nothing else. *)
Lemma spawnApple_loop_only_apple (n : nat) : forall s,
  spawnApple_loop n s = set_gen (gen (spawnApple_loop n s))
                                (set_apple (apple (spawnApple_loop n s)) s).
Proof.
  induction n as [|n IH]; intros s; [destruct s; reflexivity|].
  cbn [spawnApple_loop]. unfold draw, random. cbn [fst snd gen].
  repeat match goal with
         | |- context [if ?b then _ else _] => destruct b
         end;
    try (rewrite IH at 1; destruct s; reflexivity); destruct s; reflexivity.
Qed.

Lemma spawnApple_only_apple s :
  spawnApple s = set_gen (gen (spawnApple s)) (set_apple (apple (spawnApple s)) s).
Proof. apply spawnApple_loop_only_apple. Qed.

(** [maybeAddObstacle] writes the obstacles and draws random numbers. *)
Lemma maybeAddObstacle_only_obstacles s :
  maybeAddObstacle s
  = set_gen (gen (maybeAddObstacle s))
            (set_obstacles (obstacles (maybeAddObstacle s)) s).
Proof.
  unfold maybeAddObstacle, draw, random. cbn [fst snd gen].
  repeat match goal with
         | |- context [if ?b then _ else _] => destruct b
         end; destruct s; reflexivity.
Qed.

Lemma spawnObstacles_loop_only_obstacles (n : nat) (count : Z) : forall s,
  spawnObstacles_loop n count s
  = set_gen (gen (spawnObstacles_loop n count s))
            (set_obstacles (obstacles (spawnObstacles_loop n count s)) s).
Proof.
  induction n as [|n IH]; intros s; [destruct s; reflexivity|].
  cbn [spawnObstacles_loop]. unfold draw, random. cbn [fst snd gen].
  repeat match goal with
         | |- context [if ?b then _ else _] => destruct b
         end;
    try (rewrite IH at 1; destruct s; reflexivity); destruct s; reflexivity.
Qed.

Lemma gameOver_score s : score (gameOver s) = score s.
Proof. unfold gameOver. cbn. destruct (gt _ _); reflexivity. Qed.

Lemma gameOver_running s : running (gameOver s) = false.
Proof. unfold gameOver. cbn. destruct (gt _ _); reflexivity. Qed.

Lemma gameOver_snake s : snake (gameOver s) = snake s.
Proof. unfold gameOver. cbn. destruct (gt _ _); reflexivity. Qed.

Lemma gameOver_dirs s :
  dir (gameOver s) = dir s /\ nextDir (gameOver s) = nextDir s.
Proof. unfold gameOver. cbn. destruct (gt _ _); split; reflexivity. Qed.

Lemma tick_unfold s :
  tick s =
  match snake s with
  | [] => None
  | h0 :: _ =>
      let s1 := set_dir (nextDir s) s in
      let head := nextHead h0 (nextDir s) in
      if hitsBody head s1 then Some (gameOver s1)
      else if hitsObstacle head s1 then Some (gameOver s1)
      else Some (proceed head s1)
  end.
Proof. unfold tick. cbn. destruct (snake s); reflexivity. Qed.

(** Reduce projections of setters, leaving the spawning loops alone. *)
Ltac fields :=
  cbn [snake dir nextDir apple obstacles score highScore gameInterval running
       paused countdownTimer countdownValue allowInput difficulty snake_high gen
       set_snake set_dir set_nextDir set_apple set_obstacles set_score
       set_highScore set_gameInterval set_running set_paused set_countdownTimer
       set_countdownValue set_allowInput set_difficulty set_snake_high set_gen
       fst snd] in *.

Lemma spawnApple_keeps {A} (f : state -> A) :
  (forall s a g, f (set_gen g (set_apple a s)) = f s) ->
  forall s, f (spawnApple s) = f s.
Proof. intros H s. rewrite spawnApple_only_apple. apply H. Qed.

Lemma maybeAddObstacle_keeps {A} (f : state -> A) :
  (forall s o g, f (set_gen g (set_obstacles o s)) = f s) ->
  forall s, f (maybeAddObstacle s) = f s.
Proof. intros H s. rewrite maybeAddObstacle_only_obstacles. apply H. Qed.

Lemma spawnObstaclesInitial_keeps {A} (f : state -> A) :
  (forall s o g, f (set_gen g (set_obstacles o s)) = f s) ->
  forall s, f (spawnObstaclesInitial s) = f s.
Proof.
  intros H s. unfold spawnObstaclesInitial.
  rewrite spawnObstacles_loop_only_obstacles, H.
  exact (H s [] (gen s)).
Qed.

Lemma draw_keeps {A} (f : state -> A) :
  (forall s g, f (set_gen g s) = f s) -> forall s, f (snd (draw s)) = f s.
Proof. intros H s. unfold draw, random. apply H. Qed.

(** The fields a step leaves alone when it only eats or only moves. *)
Lemma proceed_frame head s :
  let s' := proceed head s in
  dir s' = dir s /\ nextDir s' = nextDir s /\ running s' = running s
  /\ paused s' = paused s /\ highScore s' = highScore s
  /\ snake_high s' = snake_high s
  /\ (snake s' = head :: snake s \/ snake s' = removelast (head :: snake s)).
Proof.
  unfold proceed. cbv zeta.
  destruct (match apple (set_snake (head :: snake s) s) with
            | Some a => posEq head a | None => false end).
  - set (t := set_score _ _).
    assert (Ht : dir t = dir s /\ nextDir t = nextDir s /\ running t = running s
                 /\ paused t = paused s /\ highScore t = highScore s
                 /\ snake_high t = snake_high s /\ snake t = head :: snake s)
      by (repeat split).
    clearbody t.
    assert (Ha : dir (spawnApple t) = dir t /\ nextDir (spawnApple t) = nextDir t
                 /\ running (spawnApple t) = running t
                 /\ paused (spawnApple t) = paused t
                 /\ highScore (spawnApple t) = highScore t
                 /\ snake_high (spawnApple t) = snake_high t
                 /\ snake (spawnApple t) = snake t)
      by (repeat split; apply spawnApple_keeps; reflexivity).
    generalize dependent (spawnApple t). intros a Ha.
    destruct (draw a) as [r u] eqn:Ed.
    assert (Hu : u = set_gen (gen u) a).
    { unfold draw, random in Ed. inversion Ed. reflexivity. }
    assert (Hm : forall v, v = u \/ v = maybeAddObstacle u ->
                 dir v = dir a /\ nextDir v = nextDir a /\ running v = running a
                 /\ paused v = paused a /\ highScore v = highScore a
                 /\ snake_high v = snake_high a /\ snake v = snake a).
    { intros v [-> | ->].
      - rewrite Hu. repeat split.
      - rewrite !(maybeAddObstacle_keeps dir), !(maybeAddObstacle_keeps nextDir),
          !(maybeAddObstacle_keeps running), !(maybeAddObstacle_keeps paused),
          !(maybeAddObstacle_keeps highScore), !(maybeAddObstacle_keeps snake_high),
          !(maybeAddObstacle_keeps snake) by reflexivity.
        rewrite Hu. repeat split. }
    set (v := if Qltb r (25 # 100) then maybeAddObstacle u else u).
    assert (Hv : v = u \/ v = maybeAddObstacle u)
      by (unfold v; destruct (Qltb r (25 # 100)); auto).
    apply Hm in Hv. clearbody v.
    destruct Hv as (V1 & V2 & V3 & V4 & V5 & V6 & V7).
    destruct Ha as (A1 & A2 & A3 & A4 & A5 & A6 & A7).
    destruct Ht as (T1 & T2 & T3 & T4 & T5 & T6 & T7).
    change (dir (set_allowInput true v)) with (dir v).
    change (nextDir (set_allowInput true v)) with (nextDir v).
    change (running (set_allowInput true v)) with (running v).
    change (paused (set_allowInput true v)) with (paused v).
    change (highScore (set_allowInput true v)) with (highScore v).
    change (snake_high (set_allowInput true v)) with (snake_high v).
    change (snake (set_allowInput true v)) with (snake v).
    rewrite V1, V2, V3, V4, V5, V6, V7, A1, A2, A3, A4, A5, A6, A7.
    repeat split; auto.
  - repeat split. right. reflexivity.
Qed.

Lemma isDirection_cases d :
  isDirection d = true ->
  d = mkPos 1 0 \/ d = mkPos (-1) 0 \/ d = mkPos 0 1 \/ d = mkPos 0 (-1).
Proof.
  unfold isDirection. rewrite !orb_true_iff, !posEq_eq. tauto.
Qed.

Lemma nextHead_inGrid h d :
  inGrid h -> isDirection d = true -> inGrid (nextHead h d).
Proof.
  intros [Hx Hy] Hd. unfold inGrid, nextHead, width, rows in *. cbn [px py].
  apply isDirection_cases in Hd.
  destruct Hd as [-> | [-> | [-> | ->]]]; cbn [px py];
    split; apply Z.rem_bound_pos; lia.
Qed.

(** A direction never has the head stay where it is. *)
Lemma nextHead_moves h d : isDirection d = true -> nextHead h d <> h.
Proof.
  intros Hd E. apply isDirection_cases in Hd. destruct h as [hx hy].
  unfold nextHead, width, rows in E. cbn [px py] in E.
  destruct Hd as [-> | [-> | [-> | ->]]]; cbn [px py] in E; inversion E as [[Ex Ey]].
  - pose proof (Z.quot_rem' (hx + 1 + 28) 28). lia.
  - pose proof (Z.quot_rem' (hx + -1 + 28) 28). lia.
  - pose proof (Z.quot_rem' (hy + 1 + 28) 28). lia.
  - pose proof (Z.quot_rem' (hy + -1 + 28) 28). lia.
Qed.

Lemma Forall_removelast {A} (P : A -> Prop) (l : list A) :
  Forall P l -> Forall P (removelast l).
Proof.
  induction 1 as [|a l Ha Hl IH]; [constructor|].
  cbn. destruct l; [constructor|]. constructor; assumption.
Qed.

Lemma wf_gameOver s : wf s -> wf (gameOver s).
Proof.
  unfold wf. rewrite gameOver_snake.
  destruct (gameOver_dirs s) as [-> ->]. tauto.
Qed.

Lemma wf_tick s s' : wf s -> tick s = Some s' -> wf s'.
Proof.
  intros (Hne & Hall & Hd & Hn) H. rewrite tick_unfold in H.
  destruct (snake s) as [|h0 rest] eqn:Es; [discriminate|].
  assert (W1 : wf (set_dir (nextDir s) s)).
  { unfold wf. cbn. rewrite Es. repeat split; auto. }
  cbv zeta in H.
  destruct (hitsBody _ _); [inversion H; apply wf_gameOver; exact W1|].
  destruct (hitsObstacle _ _); [inversion H; apply wf_gameOver; exact W1|].
  inversion H; subst s'; clear H.
  pose proof (proceed_frame (nextHead h0 (nextDir s)) (set_dir (nextDir s) s)) as F.
  cbv zeta in F. cbn [dir nextDir snake set_dir] in F. rewrite Es in F.
  destruct F as (Fd & Fn & _ & _ & _ & _ & Fs).
  assert (G : inGrid (nextHead h0 (nextDir s))).
  { apply nextHead_inGrid; [inversion Hall; assumption | exact Hn]. }
  unfold wf. rewrite Fd, Fn. repeat split; auto.
  - destruct Fs as [-> | ->]; [discriminate | cbn; discriminate].
  - destruct Fs as [-> | ->]; [constructor; assumption|].
    apply Forall_removelast. constructor; assumption.
Qed.


Lemma mapping_direction d p : mapping d = Some p -> isDirection p = true.
Proof.
  unfold mapping.
  repeat match goal with |- context [if ?b then _ else _] => destruct b end;
    intros H; inversion H; reflexivity.
Qed.

Lemma buffered_refl s : buffered s s.
Proof. unfold buffered. auto. Qed.

Lemma applyDirection_buffered d s : buffered s (applyDirection d s).
Proof.
  unfold buffered, applyDirection.
  destruct (negb (allowInput s)); [apply (buffered_refl s)|].
  destruct (mapping d) as [p|] eqn:Em; [|apply (buffered_refl s)].
  destruct ((px p =? - px (dir s)) && (py p =? - py (dir s))) eqn:Er;
    [apply (buffered_refl s)|].
  fields. repeat split. right. split; [eapply mapping_direction; eassumption|exact Er].
Qed.

Lemma togglePause_dirs s :
  snake (togglePause s) = snake s /\ dir (togglePause s) = dir s
  /\ nextDir (togglePause s) = nextDir s.
Proof. unfold togglePause. destruct (negb (running s)); auto. Qed.

Lemma startWithCountdown_dirs s :
  snake (startWithCountdown s) = snake s /\ dir (startWithCountdown s) = dir s
  /\ nextDir (startWithCountdown s) = nextDir s.
Proof. unfold startWithCountdown. destruct (running s); auto. Qed.

Lemma buffered_set s t d :
  buffered s t -> isDirection d = true -> reverses d (dir s) = false ->
  buffered s (set_allowInput false (set_nextDir d t)).
Proof.
  intros (Es & Ed & _) Hd Hr. unfold buffered. fields.
  repeat split; auto.
Qed.

Lemma buffered_same s t t' :
  buffered s t -> snake t' = snake t -> dir t' = dir t -> nextDir t' = nextDir t ->
  buffered s t'.
Proof. unfold buffered. intros (Es & Ed & En) -> -> ->. auto. Qed.

(** An arrow key is taken only when the snake moves along the other axis,
    so the direction it sets is never the reverse of the current one. *)
Lemma buffered_arrow s t (c : bool) d :
  buffered s t -> isDirection d = true ->
  (c = true -> reverses d (dir s) = false) ->
  buffered s (if c then set_allowInput false (set_nextDir d t) else t).
Proof.
  intros B Hd Hc. destruct c; [|exact B].
  apply buffered_set; auto.
Qed.

Lemma keydown_buffered k s : buffered s (keydown k s).
Proof.
  unfold keydown.
  destruct (negb (allowInput s)); [apply buffered_refl|]. cbv zeta.
  assert (Hv : forall (b : bool) (t : state) (v : Z), dir t = dir s -> v <> 0 ->
            b && (py (dir t) =? 0) = true -> reverses (mkPos 0 v) (dir s) = false).
  { intros b t v Et Hv H. apply andb_true_iff in H. destruct H as [_ H].
    apply Z.eqb_eq in H. rewrite Et in H. unfold reverses. cbn [px py]. rewrite H.
    apply andb_false_iff. right. apply Z.eqb_neq. lia. }
  assert (Hh : forall (b : bool) (t : state) (v : Z), dir t = dir s -> v <> 0 ->
            b && (px (dir t) =? 0) = true -> reverses (mkPos v 0) (dir s) = false).
  { intros b t v Et Hv' H. apply andb_true_iff in H. destruct H as [_ H].
    apply Z.eqb_eq in H. rewrite Et in H. unfold reverses. cbn [px py]. rewrite H.
    apply andb_false_iff. left. apply Z.eqb_neq. lia. }
  pose proof (buffered_refl s) as B0.
  set (s1 := if String.eqb k "ArrowUp" && (py (dir s) =? 0)
             then set_allowInput false (set_nextDir (mkPos 0 (-1)) s) else s).
  assert (B1 : buffered s s1).
  { apply buffered_arrow; [exact B0 | reflexivity |].
    apply Hv; [reflexivity | lia]. }
  clearbody s1.
  set (s2 := if String.eqb k "ArrowDown" && (py (dir s1) =? 0)
             then set_allowInput false (set_nextDir (mkPos 0 1) s1) else s1).
  assert (B2 : buffered s s2).
  { apply buffered_arrow; [exact B1 | reflexivity |].
    apply Hv; [apply B1 | lia]. }
  clearbody s2.
  set (s3 := if String.eqb k "ArrowLeft" && (px (dir s2) =? 0)
             then set_allowInput false (set_nextDir (mkPos (-1) 0) s2) else s2).
  assert (B3 : buffered s s3).
  { apply buffered_arrow; [exact B2 | reflexivity |].
    apply Hh; [apply B2 | lia]. }
  clearbody s3.
  set (s4 := if String.eqb k "ArrowRight" && (px (dir s3) =? 0)
             then set_allowInput false (set_nextDir (mkPos 1 0) s3) else s3).
  assert (B4 : buffered s s4).
  { apply buffered_arrow; [exact B3 | reflexivity |].
    apply Hh; [apply B3 | lia]. }
  clearbody s4.
  set (s5 := if String.eqb k "p" || String.eqb k "P" then togglePause s4 else s4).
  assert (B5 : buffered s s5).
  { unfold s5. destruct (String.eqb k "p" || String.eqb k "P"); [|exact B4].
    destruct (togglePause_dirs s4) as (E1 & E2 & E3).
    eapply buffered_same; eassumption. }
  clearbody s5.
  destruct (String.eqb k " "); [|exact B5].
  destruct (negb (running s5)); [|exact B5].
  destruct (startWithCountdown_dirs s5) as (E1 & E2 & E3).
  eapply buffered_same; eassumption.
Qed.

Lemma wf_buffered s s' : wf s -> buffered s s' -> wf s'.
Proof.
  intros (Hne & Hall & Hd & Hn) (Es & Ed & En). unfold wf.
  rewrite Es, Ed. repeat split; auto.
  destruct En as [-> | [H _]]; assumption.
Qed.

Lemma resetGame_start s :
  snake (resetGame s) = [mkPos 14 14]
  /\ dir (resetGame s) = mkPos 1 0 /\ nextDir (resetGame s) = mkPos 1 0.
Proof.
  unfold resetGame. cbv zeta.
  rewrite !(spawnObstaclesInitial_keeps snake), !(spawnObstaclesInitial_keeps dir),
    !(spawnObstaclesInitial_keeps nextDir) by reflexivity.
  rewrite !(spawnApple_keeps snake), !(spawnApple_keeps dir),
    !(spawnApple_keeps nextDir) by reflexivity.
  fields. repeat split.
Qed.

Lemma wf_resetGame s : wf (resetGame s).
Proof.
  destruct (resetGame_start s) as (Es & Ed & En). unfold wf.
  rewrite Es, Ed, En. repeat split; try discriminate.
  constructor; [|constructor]. unfold inGrid, width, rows. cbn. lia.
Qed.

Lemma wf_same s s' :
  snake s' = snake s -> dir s' = dir s -> nextDir s' = nextDir s -> wf s -> wf s'.
Proof. unfold wf. intros -> -> ->. tauto. Qed.

Lemma wf_handle e s s' : wf s -> handle e s = Some s' -> wf s'.
Proof.
  intros W H. destruct e; cbn [handle] in H.
  - destruct (gameInterval s); [|inversion H; subst; exact W].
    unfold intervalStep in H.
    destruct (negb (paused s)); [eapply wf_tick; eassumption|].
    inversion H; subst; exact W.
  - inversion H; subst s'; clear H.
    destruct (countdownTimer s); [|exact W].
    unfold countdownStep. cbv zeta. fields.
    destruct (0 <? countdownValue s - 1); (eapply wf_same; [ | | |exact W]; reflexivity).
  - inversion H; subst s'. eapply wf_buffered; [exact W|apply keydown_buffered].
  - inversion H; subst s'. eapply wf_buffered; [exact W|apply applyDirection_buffered].
  - inversion H; subst s'; clear H.
    destruct (negb (running s)); [|exact W].
    destruct (startWithCountdown_dirs s) as (E1 & E2 & E3).
    eapply wf_same; eassumption.
  - inversion H; subst s'; clear H.
    destruct (togglePause_dirs s) as (E1 & E2 & E3).
    eapply wf_same; eassumption.
  - inversion H; subst s'. apply wf_resetGame.
  - inversion H; subst s'; clear H. unfold changeDifficulty. cbv zeta. fields.
    destruct (running s); (eapply wf_same; [ | | |exact W]; reflexivity).
  - inversion H; subst s'; clear H. unfold maintenance. cbv zeta.
    assert (W1 : wf (match apple s with None => spawnApple s | Some _ => s end)).
    { destruct (apple s); [exact W|].
      eapply wf_same; [ | | |exact W]; apply spawnApple_keeps; reflexivity. }
    destruct (12 <? _)%nat; [|exact W1].
    eapply wf_same; [ | | |exact W1]; reflexivity.
Qed.

Lemma wf_boot g d st : wf (boot g d st).
Proof. apply wf_resetGame. Qed.

(** Every state of the running page is well formed. *)
Lemma reachable_wf s : reachable s -> wf s.
Proof.
  induction 1 as [g d st | e s s' _ IH H]; [apply wf_boot|].
  eapply wf_handle; eassumption.
Qed.

Lemma tick_dirs s s' :
  tick s = Some s' -> dir s' = nextDir s /\ nextDir s' = nextDir s.
Proof.
  rewrite tick_unfold. destruct (snake s) as [|h0 rest]; [discriminate|]. cbv zeta.
  destruct (hitsBody _ _);
    [intros H; inversion H; destruct (gameOver_dirs (set_dir (nextDir s) s)) as [-> ->];
     split; reflexivity|].
  destruct (hitsObstacle _ _);
    [intros H; inversion H; destruct (gameOver_dirs (set_dir (nextDir s) s)) as [-> ->];
     split; reflexivity|].
  intros H; inversion H.
  pose proof (proceed_frame (nextHead h0 (nextDir s)) (set_dir (nextDir s) s)) as F.
  cbv zeta in F. destruct F as (-> & -> & _). split; reflexivity.
Qed.

Lemma somei_tail {A} (f : A -> bool) (l : list A) : forall n,
  somei (fun idx seg => (0 <? idx)%nat && f seg) (S n) l = existsb f l.
Proof.
  induction l as [|a l IH]; intros n; [reflexivity|].
  cbn [somei existsb]. rewrite IH. reflexivity.
Qed.

Lemma hitsBody_tail head s h0 rest :
  snake s = h0 :: rest ->
  hitsBody head s = existsb (fun seg => posEq seg head) rest.
Proof.
  intros E. unfold hitsBody. rewrite E. cbn [somei].
  rewrite somei_tail. reflexivity.
Qed.

(** What one run of the apple loop ends in: no apple after [n] failed
    attempts, or an apple placed at attempt [i + 1] on a cell free of snake
    and obstacles. *)
Lemma spawnApple_loop_outcome (n : nat) : forall s,
  let s' := spawnApple_loop n s in
  (cursor (gen s') = cursor (gen s) + 2 * n)%nat /\ apple s' = None
  \/ exists i p,
       (i < n)%nat /\ (cursor (gen s') = cursor (gen s) + 2 * i + 2)%nat
       /\ apple s' = Some p
       /\ existsb (fun q => posEq q p) (snake s) = false
       /\ existsb (fun o => posEq o p) (obstacles s) = false.
Proof.
  induction n as [|n IH]; intros s; cbv zeta.
  - left. cbn [spawnApple_loop]. fields. split; [lia|reflexivity].
  - cbn [spawnApple_loop]. unfold draw, random. fields. cbn [stream cursor].
    set (p := mkPos _ _).
    pose proof (IH (set_gen (mkRng (stream (gen s)) (S (S (cursor (gen s))))) s)) as R.
    cbv zeta in R. fields. cbn [stream cursor] in R.
    assert (K : (cursor (gen (spawnApple_loop n
                    (set_gen (mkRng (stream (gen s)) (S (S (cursor (gen s))))) s)))
                 = cursor (gen s) + 2 * S n)%nat
                /\ apple (spawnApple_loop n
                    (set_gen (mkRng (stream (gen s)) (S (S (cursor (gen s))))) s)) = None
                \/ exists i q,
                     (i < S n)%nat
                     /\ (cursor (gen (spawnApple_loop n
                            (set_gen (mkRng (stream (gen s)) (S (S (cursor (gen s))))) s)))
                         = cursor (gen s) + 2 * i + 2)%nat
                     /\ apple (spawnApple_loop n
                            (set_gen (mkRng (stream (gen s)) (S (S (cursor (gen s))))) s))
                        = Some q
                     /\ existsb (fun x => posEq x q) (snake s) = false
                     /\ existsb (fun o => posEq o q) (obstacles s) = false).
    { destruct R as [[C F] | (i & q & Li & C & F & O1 & O2)].
      - left. split; [lia|exact F].
      - right. exists (S i), q. repeat split; auto; lia. }
    destruct (existsb (fun q => posEq q p) (snake s)) eqn:E1; [exact K|].
    destruct (existsb (fun o => posEq o p) (obstacles s)) eqn:E2; [exact K|].
    right. exists 0%nat, p. fields. cbn [stream cursor].
    split; [lia|]. split; [lia|]. split; [reflexivity|]. split; assumption.
Qed.

Lemma spawnApple_outcome s :
  (cursor (gen (spawnApple s)) = cursor (gen s) + 1000)%nat
  /\ apple (spawnApple s) = None
  \/ exists i p,
       (i < 500)%nat
       /\ (cursor (gen (spawnApple s)) = cursor (gen s) + 2 * i + 2)%nat
       /\ apple (spawnApple s) = Some p
       /\ existsb (fun q => posEq q p) (snake s) = false
       /\ existsb (fun o => posEq o p) (obstacles s) = false.
Proof. exact (spawnApple_loop_outcome 500 s). Qed.

Lemma reachable_run es : forall s s',
  reachable s -> run es s = Some s' -> reachable s'.
Proof.
  induction es as [|e es IH]; intros s s' R H; cbn [run] in H.
  - inversion H; subst; exact R.
  - destruct (handle e s) as [s1|] eqn:E; [|discriminate].
    eapply IH; [|exact H]. eapply reach_step; eassumption.
Qed.

(** A step into a cell of the body, the tail included, ends the game and
    leaves snake and score as they were. *)
Lemma tick_into_body s h0 rest :
  snake s = h0 :: rest ->
  In (nextHead h0 (nextDir s)) rest ->
  tick s = Some (gameOver (set_dir (nextDir s) s)).
Proof.
  intros Es Hin. rewrite tick_unfold, Es. cbv zeta.
  rewrite (hitsBody_tail _ (set_dir (nextDir s) s) h0 rest) by exact Es.
  assert (E : existsb (fun seg => posEq seg (nextHead h0 (nextDir s))) rest = true).
  { apply existsb_exists. eexists; split; [exact Hin|]. apply posEq_eq. reflexivity. }
  rewrite E. reflexivity.
Qed.

Lemma last_In {A} (l : list A) (d : A) : l <> [] -> In (last l d) l.
Proof.
  induction l as [|a l IH]; [congruence|]. intros _.
  destruct l as [|b l]; [left; reflexivity|].
  right. apply IH. discriminate.
Qed.

Lemma tick_into_tail s h0 rest :
  snake s = h0 :: rest ->
  isDirection (nextDir s) = true ->
  nextHead h0 (nextDir s) = last (snake s) h0 ->
  exists s', tick s = Some s' /\ running s' = false
             /\ snake s' = snake s /\ score s' = score s.
Proof.
  intros Es Hd Hl. rewrite Es in Hl.
  destruct rest as [|b rest'].
  - cbn in Hl. exfalso. eapply nextHead_moves; eassumption.
  - exists (gameOver (set_dir (nextDir s) s)).
    split; [|split; [apply gameOver_running |
                     split; [rewrite gameOver_snake | rewrite gameOver_score];
                     reflexivity]].
    eapply tick_into_body; [exact Es|].
    change (last (h0 :: b :: rest') h0) with (last (b :: rest') h0) in Hl.
    rewrite Hl. apply last_In. discriminate.
Qed.

Lemma reverses_self d : isDirection d = true -> reverses d d = false.
Proof.
  intros H. apply isDirection_cases in H.
  destruct H as [-> | [-> | [-> | ->]]]; reflexivity.
Qed.

Lemma buffered_trans s t u :
  dir t = dir s ->
  (nextDir t = dir s \/ (isDirection (nextDir t) = true
                         /\ reverses (nextDir t) (dir s) = false)) ->
  buffered t u ->
  dir u = dir s
  /\ (nextDir u = dir s \/ (isDirection (nextDir u) = true
                            /\ reverses (nextDir u) (dir s) = false)).
Proof.
  intros Ed En (_ & Ed' & En'). split; [congruence|].
  destruct En' as [-> | H]; [exact En|]. right. rewrite <- Ed. exact H.
Qed.

Lemma propose_buffered i s : buffered s (propose i s).
Proof. destruct i; [apply keydown_buffered | apply applyDirection_buffered]. Qed.

Lemma proposeAll_buffer ins : forall s t,
  dir t = dir s ->
  (nextDir t = dir s \/ (isDirection (nextDir t) = true
                         /\ reverses (nextDir t) (dir s) = false)) ->
  dir (proposeAll ins t) = dir s
  /\ (nextDir (proposeAll ins t) = dir s
      \/ (isDirection (nextDir (proposeAll ins t)) = true
          /\ reverses (nextDir (proposeAll ins t)) (dir s) = false)).
Proof.
  induction ins as [|i ins IH]; intros s t Ed En; [split; assumption|].
  cbn [proposeAll fold_left]. fold (proposeAll ins (propose i t)).
  destruct (buffered_trans s t (propose i t) Ed En (propose_buffered i t)) as [Ed' En'].
  apply IH; assumption.
Qed.

(** Whatever is proposed between two ticks, the second tick does not apply
    the reverse of the direction the first one applied. *)
Lemma tick_never_reverses s0 s1 ins s2 :
  isDirection (nextDir s0) = true ->
  tick s0 = Some s1 ->
  tick (proposeAll ins s1) = Some s2 ->
  reverses (dir s2) (dir s1) = false.
Proof.
  intros Hd T1 T2.
  destruct (tick_dirs _ _ T1) as [Ed En].
  destruct (tick_dirs _ _ T2) as [Ed2 _].
  destruct (proposeAll_buffer ins s1 s1 eq_refl) as [_ Hn].
  { left. congruence. }
  rewrite Ed2. destruct Hn as [-> | [_ H]]; [|exact H].
  apply reverses_self. rewrite Ed. exact Hd.
Qed.

(** [togglePause] flips the pause flag of a running game and does nothing
    else; called twice it restores the state. *)
Lemma togglePause_running s :
  running s = true ->
  togglePause s = set_paused (negb (paused s)) s
  /\ togglePause (togglePause s) = s.
Proof.
  intros R. unfold togglePause. rewrite R. cbn [negb]. fields. rewrite R. cbn [negb].
  split; [reflexivity|]. rewrite negb_involutive. destruct s; reflexivity.
Qed.

Lemma togglePause_idle s : running s = false -> togglePause s = s.
Proof. intros R. unfold togglePause. rewrite R. reflexivity. Qed.

(** [gameOver] compares the score with the high score and, when it is
    higher, stores it. *)
Lemma gameOver_records s h :
  highScore s = Num h ->
  (h < score s -> highScore (gameOver s) = Num (score s)
                  /\ snake_high (gameOver s) = Some (toString (score s)))
  /\ (score s <= h -> highScore (gameOver s) = Num h
                      /\ snake_high (gameOver s) = snake_high s).
Proof.
  intros Hh. unfold gameOver. cbv zeta. fields. rewrite Hh. cbn [gt].
  split; intros L.
  - apply Z.ltb_lt in L. rewrite L. split; reflexivity.
  - apply Z.ltb_ge in L. rewrite L. fields. split; [exact Hh | reflexivity].
Qed.


(** A tick that ends the game leaves the score alone. *)
Lemma tick_fatal_keeps_score s s' :
  tick s = Some s' -> running s = true -> running s' = false -> score s' = score s.
Proof.
  rewrite tick_unfold. destruct (snake s) as [|h0 rest]; [discriminate|]. cbv zeta.
  destruct (hitsBody _ _);
    [intros H _ _; inversion H; rewrite gameOver_score; reflexivity|].
  destruct (hitsObstacle _ _);
    [intros H _ _; inversion H; rewrite gameOver_score; reflexivity|].
  intros H R R'. inversion H; subst s'.
  pose proof (proceed_frame (nextHead h0 (nextDir s)) (set_dir (nextDir s) s)) as F.
  cbv zeta in F. destruct F as (_ & _ & F1 & _).
  change (running (set_dir (nextDir s) s)) with (running s) in F1. congruence.
Qed.

End AppFacts.

(** ** The cell engine *)

Section ClassicFacts.
Import JS Classic.

Ltac cfields :=
  cbn [cellSize cols rows speedMultiplier head dir pendingDir snake snakeLength
       food score highScore isRunning isGameOver headPrevCell stored gen
       set_speedMultiplier set_head set_dir set_pendingDir set_snake
       set_snakeLength set_food set_score set_highScore set_isRunning
       set_isGameOver set_headPrevCell set_stored set_gen fst snd
       hx hy hpx hpy cx cy fx fy points color stream cursor] in *.

(** What one run of the placement loop ends in: the fallback after [n]
    failed attempts, or a placement at attempt [i + 1] on a cell that is
    neither on the snake nor under the head. *)
Lemma spawnFood_loop_outcome (n : nat) : forall s,
  let s' := spawnFood_loop n s in
  s' = set_gen (gen s') (set_food (food s') s)
  /\ ((cursor (gen s') = cursor (gen s) + 2 * n)%nat
       /\ food s' = Some (mkFood 0 0 "#ff4d4d" 1)
      \/ exists i f,
           (i < n)%nat /\ (cursor (gen s') = cursor (gen s) + 2 * i + 3)%nat
           /\ food s' = Some f
           /\ onSnake (mkCell (fx f) (fy f)) (snake s) = false
           /\ (hx (head s) =? fx f) && (hy (head s) =? fy f) = false).
Proof.
  induction n as [|n IH]; intros s; cbv zeta.
  - cbn [spawnFood_loop]. split; [destruct s; reflexivity|]. left.
    cfields. split; [lia|reflexivity].
  - cbn [spawnFood_loop]. unfold draw, random. cfields.
    set (c1 := floor_mul (stream (gen s) (cursor (gen s))) (cols s)).
    set (c2 := floor_mul (stream (gen s) (S (cursor (gen s)))) (rows s)).
    destruct (onSnake (mkCell c1 c2) (snake s)) eqn:Eo; cbn [negb andb].
    + specialize (IH (set_gen (mkRng (stream (gen s)) (S (S (cursor (gen s))))) s)).
      cbv zeta in IH. destruct IH as [E IH].
      remember (spawnFood_loop n _) as L eqn:HL. clear HL. split.
      * rewrite E. destruct s; reflexivity.
      * cfields. destruct IH as [[C F] | (i & f & Li & C & F & O & H)].
        -- left. split; [lia|exact F].
        -- right. exists (S i), f. repeat split; auto; lia.
    + destruct ((hx (head s) =? c1) && (hy (head s) =? c2)) eqn:Eh; cbn [negb].
      * specialize (IH (set_gen (mkRng (stream (gen s)) (S (S (cursor (gen s))))) s)).
        cbv zeta in IH. destruct IH as [E IH].
        remember (spawnFood_loop n _) as L eqn:HL. clear HL. split.
        -- rewrite E. destruct s; reflexivity.
        -- cfields. destruct IH as [[C F] | (i & f & Li & C & F & O & H)].
           ++ left. split; [lia|exact F].
           ++ right. exists (S i), f. repeat split; auto; lia.
      * destruct (pickFoodType _) as [c p]. cfields. split.
        -- destruct s; reflexivity.
        -- right. exists 0%nat. eexists. cfields.
           split; [lia|]. split; [lia|]. split; [reflexivity|].
           cfields. split; assumption.
Qed.

Lemma spawnFood_outcome s :
  (cursor (gen (spawnFood s)) = cursor (gen s) + 400)%nat
  /\ food (spawnFood s) = Some (mkFood 0 0 "#ff4d4d" 1)
  \/ exists i f,
       (i < 200)%nat
       /\ (cursor (gen (spawnFood s)) = cursor (gen s) + 2 * i + 3)%nat
       /\ food (spawnFood s) = Some f
       /\ onSnake (mkCell (fx f) (fy f)) (snake s) = false
       /\ (hx (head s) =? fx f) && (hy (head s) =? fy f) = false.
Proof. exact (proj2 (spawnFood_loop_outcome 200 s)). Qed.

Lemma spawnFood_only_food_cell s :
  spawnFood s = set_gen (gen (spawnFood s)) (set_food (food (spawnFood s)) s).
Proof. apply (spawnFood_loop_outcome 200 s). Qed.

Lemma spawnFood_keeps {A} (f : state -> A) :
  (forall s a g, f (set_gen g (set_food a s)) = f s) ->
  forall s, f (spawnFood s) = f s.
Proof. intros H s. rewrite spawnFood_only_food_cell. apply H. Qed.

Lemma triggerGameOver_flags s :
  isGameOver (triggerGameOver s) = true /\ isRunning (triggerGameOver s) = false
  /\ score (triggerGameOver s) = score s /\ snake (triggerGameOver s) = snake s.
Proof.
  unfold triggerGameOver. cbv zeta. cfields.
  destruct (highScore s <? score s); repeat split.
Qed.

(** What entering a cell does to the game-over flag and the score: either
    the game ends and the score stays, or the game goes on. *)
Lemma enter_outcome c a :
  isGameOver (enter c a) = true /\ isRunning (enter c a) = false
  /\ score (enter c a) = score a
  \/ isGameOver (enter c a) = isGameOver a.
Proof.
  unfold enter. cbv zeta.
  set (b := set_head _ (set_headPrevCell c a)).
  assert (Sb : score b = score a) by reflexivity.
  assert (Gb : isGameOver b = isGameOver a) by reflexivity.
  clearbody b.
  destruct (hitsWall b);
    [left; destruct (triggerGameOver_flags b) as (-> & -> & -> & _); auto|].
  destruct (onSnake _ (snake b));
    [left; destruct (triggerGameOver_flags b) as (-> & -> & -> & _); auto|].
  right. cfields.
  destruct (food b) as [f|]; [|exact Gb]. cfields.
  destruct ((hx (head b) =? fx f) && (hy (head b) =? fy f)); [|exact Gb].
  rewrite (spawnFood_keeps isGameOver) by reflexivity. exact Gb.
Qed.

(** Entering a cell of the body, the tail included, ends the game. *)
Lemma enter_body c a :
  onSnake c (snake a) = true ->
  isGameOver (enter c a) = true /\ isRunning (enter c a) = false
  /\ score (enter c a) = score a /\ snake (enter c a) = snake a.
Proof.
  intros O. unfold enter. cbv zeta.
  set (b := set_head _ (set_headPrevCell c a)).
  assert (Sb : score b = score a) by reflexivity.
  assert (Nb : snake b = snake a) by reflexivity.
  assert (Hb : mkCell (hx (head b)) (hy (head b)) = c) by (destruct c; reflexivity).
  clearbody b. rewrite Hb, Nb, O.
  destruct (hitsWall b);
    destruct (triggerGameOver_flags b) as (-> & -> & -> & ->); auto.
Qed.

Lemma steer_frame s :
  snake (steer s) = snake s /\ headPrevCell (steer s) = headPrevCell s
  /\ score (steer s) = score s /\ isGameOver (steer s) = isGameOver s.
Proof.
  unfold steer. destruct (pendingDir s) as [p|]; [|auto]. cbv zeta.
  destruct (negb _); auto.
Qed.

Lemma glide_frame dt s :
  snake (glide dt s) = snake s /\ headPrevCell (glide dt s) = headPrevCell s
  /\ score (glide dt s) = score s /\ isGameOver (glide dt s) = isGameOver s.
Proof. unfold glide. auto. Qed.

Lemma update_unfold dt s :
  isGameOver s = false ->
  update dt s =
  (let a := glide dt (steer s) in
   if negb (cx (cellOf a) =? cx (headPrevCell a))
      || negb (cy (cellOf a) =? cy (headPrevCell a))
   then enter (cellOf a) a else a).
Proof. intros G. unfold update. rewrite G. reflexivity. Qed.

(** A frame that ends the game leaves the score as it was: the collision
    tests come before the food test. *)
Lemma update_fatal_keeps_score dt s :
  isGameOver s = false -> isGameOver (update dt s) = true ->
  score (update dt s) = score s.
Proof.
  intros G. rewrite (update_unfold dt s G). cbv zeta.
  destruct (glide_frame dt (steer s)) as (_ & _ & Sg & Gg).
  destruct (steer_frame s) as (_ & _ & Ss & Gs).
  generalize dependent (glide dt (steer s)). intros a Sa Ga.
  destruct (negb _ || negb _).
  - destruct (enter_outcome (cellOf a) a) as [(_ & _ & E) | E]; [congruence|].
    intros H. congruence.
  - intros H. congruence.
Qed.

Lemma onSnake_In c l : In c l -> onSnake c l = true.
Proof.
  intros H. unfold onSnake. apply existsb_exists. exists c.
  split; [exact H|]. rewrite !Z.eqb_refl. reflexivity.
Qed.

(** When the head comes into the cell the tail is on, the frame ends the
    game, tail not yet dropped. *)
Lemma update_into_tail dt s c :
  isGameOver s = false ->
  c = cellOf (glide dt (steer s)) ->
  negb (cx c =? cx (headPrevCell s)) || negb (cy c =? cy (headPrevCell s)) = true ->
  snake s <> [] -> c = last (snake s) c ->
  isGameOver (update dt s) = true /\ isRunning (update dt s) = false
  /\ score (update dt s) = score s /\ snake (update dt s) = snake s.
Proof.
  intros G Ec Hn Hne Hl. rewrite (update_unfold dt s G). cbv zeta.
  destruct (glide_frame dt (steer s)) as (Ng & Pg & Sg & _).
  destruct (steer_frame s) as (Ns & Ps & Ss & _).
  rewrite <- Ec. generalize dependent (glide dt (steer s)). intros a _ Na Pa Sa.
  rewrite Pa, Ps, Hn.
  assert (O : onSnake c (snake a) = true).
  { apply onSnake_In. rewrite Na, Ns, Hl. apply last_In. exact Hne. }
  destruct (enter_body c a O) as (E1 & E2 & E3 & E4).
  repeat split; congruence.
Qed.

(** [setDirection] is ignored unless the game is running. *)
Lemma setDirection_gated nx ny s :
  isRunning s = false \/ isGameOver s = true -> setDirection nx ny s = s.
Proof.
  unfold setDirection. intros [R | G].
  - destruct (isGameOver s); [reflexivity|]. rewrite R. reflexivity.
  - rewrite G. reflexivity.
Qed.

(** The stored high score always loads as an integer, [0] when the key is
    missing or the text does not start with a number. *)
Lemma loadHighScore_missing : loadHighScore None = 0.
Proof. reflexivity. Qed.

Lemma loadHighScore_roundtrip n : loadHighScore (Some (toString n)) = n.
Proof.
  unfold loadHighScore. rewrite or_zero_string_toString, parseInt_toString.
  reflexivity.
Qed.

Lemma loadHighScore_corrupt t :
  parseInt (or_zero_string (Some t)) = NaN -> loadHighScore (Some t) = 0.
Proof. unfold loadHighScore. intros ->. reflexivity. Qed.

End ClassicFacts.

(* ================================================================= *)
(** * The claims *)

Section Claims.
Import JS.

(** C1, on the pixel engine (src/game.js, [update]): the claim asks that a
    frame which both reaches the food and collides awards no points.  In the
    session [Scenario.uTurn] the game is running with score 0; its last frame
    brings the head within reach of the food and of a body segment at once.
    [update] tests the food first: the frame ends the game with 10 points
    added, and the high score and the store raised to 10. *)
Theorem fatal_frame_awards_points :
  match Scenario.uTurn with
  | Game.Done s =>
      Game.running s = true /\ Game.paused s = false /\ Game.gameOver s = false
      /\ Game.score s = 0 /\ Game.highScore s = Num 0
      /\ Game.reachesFood (Game.advance (1 # 10) s) = true
      /\ Game.hitsSelf (Game.advance (1 # 10) s) = true
      /\ match Game.loop Scenario.fuel Scenario.lastFrame s with
         | Game.Done s' =>
             Game.gameOver s' = true /\ Game.score s' = 10
             /\ Game.highScore s' = Num 10
             /\ Game.stored s' = Some "10"%string
         | _ => False
         end
  | _ => False
  end.
Proof. vm_compute. repeat split; reflexivity. Qed.

(** C2: between two consecutive ticks, whatever sequence of directions is
    proposed, the direction the second tick applies is not the exact negation
    of the direction the first one applied.  Stated for the frames of the
    pixel engine ([setDirection], [update]) and for the ticks of the grid
    engine (key presses and [applyDirection], [tick]). *)
Theorem direction_never_reversed_between_ticks :
  (forall fuel dt0 dt s0 s1 ps s2,
      Game.update fuel dt0 s0 = Game.Done s1 ->
      Game.isDirection (Game.dir s1) = true ->
      Game.update fuel dt (Game.proposeAll ps s1) = Game.Done s2 ->
      Game.reverses (Game.dir s2) (Game.dir s1) = false)
  /\ (forall s0 s1 ins s2,
      App.isDirection (App.nextDir s0) = true ->
      App.tick s0 = Some s1 ->
      App.tick (App.proposeAll ins s1) = Some s2 ->
      App.reverses (App.dir s2) (App.dir s1) = false).
Proof.
  split.
  - intros. eapply update_never_reverses; eassumption.
  - intros. eapply tick_never_reverses; eassumption.
Qed.

Lemma direction_never_reversed_witness :
  Game.reverses
    (Game.dir
       (Scenario.stateOf
          (Game.update 4 (1 # 10)
             (Game.proposeAll [(0, -1); (-1, 0); (0, 1)]
                (Scenario.stateOf (Game.update 4 (1 # 10) Scenario.gameStarted)
                                  Scenario.gameStarted)))
          Scenario.gameStarted))
    (Game.dir (Scenario.stateOf (Game.update 4 (1 # 10) Scenario.gameStarted)
                                Scenario.gameStarted))
  = false
  /\ App.reverses
       (App.dir
          (Scenario.gridStateOf
             (App.tick
                (App.proposeAll [App.Key "ArrowUp"; App.Touch "down"; App.Key "ArrowLeft"]
                   (Scenario.gridStateOf (App.tick Scenario.appRunning)
                                         Scenario.appRunning)))
             Scenario.appRunning))
       (App.dir (Scenario.gridStateOf (App.tick Scenario.appRunning)
                                      Scenario.appRunning))
     = false.
Proof.
  split.
  - apply (proj1 direction_never_reversed_between_ticks 4%nat (1 # 10)%Q (1 # 10)%Q
             Scenario.gameStarted
             (Scenario.stateOf (Game.update 4 (1 # 10) Scenario.gameStarted)
                               Scenario.gameStarted)
             [(0, -1); (-1, 0); (0, 1)]);
      vm_compute; reflexivity.
  - apply (proj2 direction_never_reversed_between_ticks Scenario.appRunning
             (Scenario.gridStateOf (App.tick Scenario.appRunning) Scenario.appRunning)
             [App.Key "ArrowUp"; App.Touch "down"; App.Key "ArrowLeft"]);
      vm_compute; reflexivity.
Defined.

(** C3, as the code has it: [spawnApple] of the grid engine makes at most
    500 attempts (two draws each) and, when all of them fail, leaves the apple
    absent, and the maintenance pass then runs [spawnApple] again;
    [spawnFood] of the cell engine makes at most 200 attempts and, when all
    of them fail, puts the food of the first type on cell (0, 0). *)
Theorem spawn_attempts :
  (forall s,
      let s' := App.spawnApple s in
      (cursor (App.gen s') = cursor (App.gen s) + 1000)%nat /\ App.apple s' = None
      \/ exists i p,
           (i < 500)%nat
           /\ (cursor (App.gen s') = cursor (App.gen s) + 2 * i + 2)%nat
           /\ App.apple s' = Some p)
  /\ (forall s,
      App.apple s = None ->
      App.apple (App.maintenance s) = App.apple (App.spawnApple s))
  /\ (forall s,
      let s' := Classic.spawnFood s in
      (cursor (Classic.gen s') = cursor (Classic.gen s) + 400)%nat
      /\ Classic.food s' = Some (Classic.mkFood 0 0 "#ff4d4d" 1)
      \/ exists i f,
           (i < 200)%nat
           /\ (cursor (Classic.gen s') = cursor (Classic.gen s) + 2 * i + 3)%nat
           /\ Classic.food s' = Some f).
Proof.
  split; [|split].
  - intros s. cbv zeta.
    destruct (spawnApple_outcome s) as [H | (i & p & Li & C & F & _)].
    + left. exact H.
    + right. exists i, p. auto.
  - intros s H. unfold App.maintenance. rewrite H. cbv zeta.
    generalize (App.spawnApple s). intros t.
    destruct (12 <? List.length (App.obstacles t))%nat; reflexivity.
  - intros s. cbv zeta.
    destruct (spawnFood_outcome s) as [H | (i & f & Li & C & F & _)].
    + left. exact H.
    + right. exists i, f. auto.
Qed.

(** On the coiled snakes the first attempt lands on the segment (6, 6) and
    the second one places the food: the grid engine has used four draws and
    the apple is on (20, 3), also when it is the maintenance pass that finds
    the apple absent; the cell engine has used five draws and the food is on
    (22, 2). *)
Lemma spawn_attempts_witness :
  (exists i,
      (0 < i < 500)%nat
      /\ (cursor (App.gen (App.spawnApple Scenario.appBlocked)) = 2 * i + 2)%nat
      /\ App.apple (App.spawnApple Scenario.appBlocked) = Some (App.mkPos 20 3))
  /\ App.apple (App.maintenance (App.set_apple None Scenario.appBlocked))
     = Some (App.mkPos 20 3)
  /\ (exists i,
      (0 < i < 200)%nat
      /\ (cursor (Classic.gen (Classic.spawnFood Scenario.cellBlocked)) = 2 * i + 3)%nat
      /\ Classic.food (Classic.spawnFood Scenario.cellBlocked)
         = Some (Classic.mkFood 22 2 "#ff4d4d" 1)).
Proof.
  assert (Ca : cursor (App.gen (App.spawnApple Scenario.appBlocked)) = 4%nat)
    by (vm_compute; reflexivity).
  assert (Cc : cursor (Classic.gen (Classic.spawnFood Scenario.cellBlocked)) = 5%nat)
    by (vm_compute; reflexivity).
  split; [|split].
  - destruct (proj1 spawn_attempts Scenario.appBlocked)
      as [[C _] | (i & p & Li & C & _)];
      rewrite Ca in C; cbn [cursor App.gen Scenario.appBlocked App.set_gen] in C.
    + discriminate C.
    + exists i. split; [lia|]. split; [lia|]. vm_compute. reflexivity.
  - rewrite (proj1 (proj2 spawn_attempts) (App.set_apple None Scenario.appBlocked)
               eq_refl).
    vm_compute. reflexivity.
  - destruct (proj2 (proj2 spawn_attempts) Scenario.cellBlocked)
      as [[C _] | (i & f & Li & C & _)];
      rewrite Cc in C;
      cbn [cursor Classic.gen Scenario.cellBlocked Classic.set_gen] in C.
    + discriminate C.
    + exists i. split; [lia|]. split; [lia|]. vm_compute. reflexivity.
Defined.

(** C3 as stated fails on the cell engine: the frame that takes the last
    free cell of [Scenario.lastFreeCell] uses up all 200 attempts (400 draws)
    and still leaves food present, on cell (0, 0), under the head. *)
Lemma spawn_budget_counterexample :
  cursor (Classic.gen (Classic.loop (1 # 10) Scenario.lastFreeCell)) = 400%nat
  /\ Classic.food (Classic.loop (1 # 10) Scenario.lastFreeCell)
     = Some (Classic.mkFood 0 0 "#ff4d4d" 1)
  /\ Classic.food (Classic.loop (1 # 10) Scenario.lastFreeCell) <> None
  /\ Classic.hx (Classic.head (Classic.loop (1 # 10) Scenario.lastFreeCell)) = 0
  /\ Classic.hy (Classic.head (Classic.loop (1 # 10) Scenario.lastFreeCell)) = 0.
Proof. vm_compute. repeat split; discriminate. Qed.

(** C4, as the code has it: an apple that [spawnApple] leaves present is on
    no snake segment and no obstacle; the food [spawnFood] of the pixel engine
    returns with is farther than [0.9] cell from every segment; the food
    [spawnFood] of the cell engine places within its 200 attempts is on no
    snake cell and not under the head. *)
Theorem spawned_food_is_clear :
  (forall s p,
      App.apple (App.spawnApple s) = Some p ->
      existsb (fun q => App.posEq q p) (App.snake (App.spawnApple s)) = false
      /\ existsb (fun o => App.posEq o p) (App.obstacles (App.spawnApple s)) = false)
  /\ (forall fuel s s',
      Game.spawnFood fuel s = Game.Done s' ->
      exists f, Game.food s' = Some f
                /\ existsb (fun sg => Game.closer (Game.x sg) (Game.y sg)
                                                  (Game.fx f) (Game.fy f)
                                                  Game.eatRadius)
                           (Game.segments s') = false)
  /\ (forall s,
      let s' := Classic.spawnFood s in
      cursor (Classic.gen s') <> (cursor (Classic.gen s) + 400)%nat ->
      exists f, Classic.food s' = Some f
                /\ Classic.onSnake (Classic.mkCell (Classic.fx f) (Classic.fy f))
                                   (Classic.snake s') = false
                /\ (Classic.hx (Classic.head s') =? Classic.fx f)
                   && (Classic.hy (Classic.head s') =? Classic.fy f) = false).
Proof.
  split; [|split].
  - intros s p Hp.
    rewrite (spawnApple_keeps App.snake), (spawnApple_keeps App.obstacles)
      by reflexivity.
    destruct (spawnApple_outcome s) as [[_ N] | (i & q & _ & _ & F & O1 & O2)].
    + congruence.
    + rewrite F in Hp. inversion Hp; subst q. split; assumption.
  - intros. eapply spawnFood_clear; eassumption.
  - intros s. cbv zeta. intros Hc.
    rewrite (spawnFood_keeps Classic.snake), (spawnFood_keeps Classic.head)
      by reflexivity.
    destruct (spawnFood_outcome s) as [[C _] | (i & f & _ & _ & F & O & H)].
    + exfalso. apply Hc. exact C.
    + exists f. auto.
Qed.

Lemma spawned_food_is_clear_witness :
  existsb (fun q => App.posEq q (App.mkPos 15 14))
          (App.snake (App.spawnApple (App.set_gen (mkRng Scenario.appDraws 0)
                                                  Scenario.appCoiled))) = false
  /\ existsb (fun o => App.posEq o (App.mkPos 15 14))
             (App.obstacles (App.spawnApple (App.set_gen (mkRng Scenario.appDraws 0)
                                                         Scenario.appCoiled))) = false.
Proof.
  apply (proj1 spawned_food_is_clear). vm_compute. reflexivity.
Defined.

(** C4 as stated fails on the cell engine: after the frame that takes the
    last free cell of [Scenario.lastFreeCell], the spawn has returned with
    the food on cell (0, 0), which is the cell of the head and of the first
    snake segment. *)
Lemma fallback_food_on_snake :
  let s' := Classic.loop (1 # 10) Scenario.lastFreeCell in
  Classic.food s' = Some (Classic.mkFood 0 0 "#ff4d4d" 1)
  /\ Classic.onSnake (Classic.mkCell 0 0) (Classic.snake s') = true
  /\ hd_error (Classic.snake s') = Some (Classic.mkCell 0 0)
  /\ Classic.isGameOver s' = false.
Proof. vm_compute. repeat split; reflexivity. Qed.




(** C6, on the pixel engine (src/game.js, [init] and [resetGameState]): the
    claim asks that a corrupt stored value loads as 0.  With the text "abc"
    under the key, [parseInt] yields [NaN], and that is the high score the
    game starts with; no later comparison [score > highScore] can succeed, so
    [endGame] leaves it at [NaN] whatever the score.  The cell engine loads
    the same text as 0. *)
Theorem corrupt_high_score_loads_as_NaN :
  Game.loadHighScore (Some "abc"%string) = NaN
  /\ match Game.init 4 800 500 (Some "abc"%string) (mkRng Scenario.draws 0) with
     | Game.Done s =>
         Game.highScore s = NaN
         /\ Game.highScore (Game.endGame "Game Over" (Game.set_score 50 s)) = NaN
         /\ Game.stored (Game.endGame "Game Over" (Game.set_score 50 s))
            = Some "abc"%string
     | _ => False
     end
  /\ Classic.loadHighScore (Some "abc"%string) = 0.
Proof. vm_compute. repeat split; reflexivity. Qed.

(** C7, on the pixel engine (src/game.js, [setDirection]): the claim asks
    that a proposal made while the game is not running changes nothing.
    Right after [init] the game is idle (not running, paused) and
    [setDirection(0, -1)] fills the pending direction.  After the game is over
    ([Scenario.crashed]) [setDirection(-1, 0)] fills it too; it survives the
    reset, and the restarted snake turns back into its own body and dies
    ([Scenario.restarted]). *)
Theorem setDirection_recorded_while_not_running :
  match Game.init 4 800 500 None (mkRng Scenario.draws 0) with
  | Game.Done s =>
      Game.running s = false /\ Game.paused s = true /\ Game.pendingDir s = None
      /\ Game.pendingDir (Game.setDirection 0 (-1) s) = Some (Game.mkVec 0 (-1))
  | _ => False
  end
  /\ match Scenario.crashed with
     | Game.Done s =>
         Game.gameOver s = true /\ Game.running s = false
         /\ Game.pendingDir s = None
         /\ Game.pendingDir (Game.setDirection (-1) 0 s) = Some (Game.mkVec (-1) 0)
     | _ => False
     end
  /\ match Scenario.restarted with
     | Game.Done s =>
         Game.gameOver s = true /\ Game.score s = 0
         /\ Game.overlay s = Some "You ran into yourself!"%string
     | _ => False
     end.
Proof. vm_compute. repeat split; reflexivity. Qed.



(** C9, as the code has it: the engines have no [pause()] and no [resume()],
    only [togglePause].  While the grid engine is running (the pixel engine:
    not over) it flips the pause flag, so that two calls in a row restore it;
    otherwise it changes nothing. *)
Theorem togglePause_toggles :
  (forall s, App.running s = false -> App.togglePause s = s)
  /\ (forall s, App.running s = true ->
        App.paused (App.togglePause s) = negb (App.paused s)
        /\ App.togglePause (App.togglePause s) = s)
  /\ (forall s, Game.gameOver s = true -> Game.togglePause s = s)
  /\ (forall s, Game.gameOver s = false ->
        Game.paused (Game.togglePause s) = negb (Game.paused s)
        /\ Game.paused (Game.togglePause (Game.togglePause s)) = Game.paused s).
Proof.
  split; [|split; [|split]].
  - apply togglePause_idle.
  - intros s R. destruct (togglePause_running s R) as [E1 E2].
    split; [rewrite E1; reflexivity | exact E2].
  - apply togglePause_over.
  - apply togglePause_flips.
Qed.

Lemma togglePause_toggles_witness :
  App.paused (App.togglePause Scenario.appRunning) = negb (App.paused Scenario.appRunning)
  /\ App.togglePause (App.togglePause Scenario.appRunning) = Scenario.appRunning.
Proof.
  apply (proj1 (proj2 togglePause_toggles)). vm_compute. reflexivity.
Defined.

(** C9 as stated fails: in the session [Scenario.appHeld] the grid game is
    running and paused, and the next pause request resumes it; in the pixel
    session [Scenario.gameStarted], paused once, the next request resumes it
    as well. *)
Lemma second_pause_resumes :
  App.running Scenario.appHeld = true /\ App.paused Scenario.appHeld = true
  /\ App.paused (App.togglePause Scenario.appHeld) = false
  /\ Game.paused (Game.togglePause Scenario.gameStarted) = true
  /\ Game.paused (Game.togglePause (Game.togglePause Scenario.gameStarted)) = false.
Proof. vm_compute. repeat split; reflexivity. Qed.

(** C10: the self-collision test sees the whole body, tail included.  In the
    grid engine, when the next head cell is the cell of the last segment, the
    tick ends the game; in the cell engine, when the head comes into a new
    cell that is the cell of the last segment, the frame ends the game.  Snake
    and score are left as they were. *)
Theorem no_tail_chase :
  (forall s h0 rest,
      App.snake s = h0 :: rest ->
      App.isDirection (App.nextDir s) = true ->
      App.nextHead h0 (App.nextDir s) = last (App.snake s) h0 ->
      exists s', App.tick s = Some s' /\ App.running s' = false
                 /\ App.snake s' = App.snake s /\ App.score s' = App.score s)
  /\ (forall dt s c,
      Classic.isGameOver s = false ->
      c = Classic.cellOf (Classic.glide dt (Classic.steer s)) ->
      negb (Classic.cx c =? Classic.cx (Classic.headPrevCell s))
      || negb (Classic.cy c =? Classic.cy (Classic.headPrevCell s)) = true ->
      Classic.snake s <> [] -> c = last (Classic.snake s) c ->
      Classic.isGameOver (Classic.update dt s) = true
      /\ Classic.isRunning (Classic.update dt s) = false
      /\ Classic.score (Classic.update dt s) = Classic.score s
      /\ Classic.snake (Classic.update dt s) = Classic.snake s).
Proof.
  split.
  - intros. eapply tick_into_tail; eassumption.
  - intros. eapply update_into_tail; eassumption.
Qed.

Lemma no_tail_chase_witness :
  (exists s', App.tick Scenario.appCoiled = Some s' /\ App.running s' = false
              /\ App.snake s' = App.snake Scenario.appCoiled
              /\ App.score s' = App.score Scenario.appCoiled)
  /\ (Classic.isGameOver (Classic.update (1 # 10) Scenario.cellCoiled) = true
      /\ Classic.isRunning (Classic.update (1 # 10) Scenario.cellCoiled) = false
      /\ Classic.score (Classic.update (1 # 10) Scenario.cellCoiled)
         = Classic.score Scenario.cellCoiled
      /\ Classic.snake (Classic.update (1 # 10) Scenario.cellCoiled)
         = Classic.snake Scenario.cellCoiled).
Proof.
  split.
  - apply (proj1 no_tail_chase Scenario.appCoiled (App.mkPos 5 5)
             [App.mkPos 5 6; App.mkPos 6 6; App.mkPos 6 5]);
      vm_compute; reflexivity.
  - apply (proj2 no_tail_chase (1 # 10)%Q Scenario.cellCoiled (Classic.mkCell 6 5));
      vm_compute; first [reflexivity | discriminate].
Defined.

End Claims.

(* ================================================================= *)
(** * Further properties of the grid engine *)

(** Reduce projections of setters of the grid engine's state. *)
Ltac afields :=
  cbn [App.snake App.dir App.nextDir App.apple App.obstacles App.score
       App.highScore App.gameInterval App.running App.paused App.countdownTimer
       App.countdownValue App.allowInput App.difficulty App.snake_high App.gen
       App.set_snake App.set_dir App.set_nextDir App.set_apple App.set_obstacles
       App.set_score App.set_highScore App.set_gameInterval App.set_running
       App.set_paused App.set_countdownTimer App.set_countdownValue
       App.set_allowInput App.set_difficulty App.set_snake_high App.set_gen
       fst snd JS.stream JS.cursor] in *.

Section GridExtras.
Import JS App.

Lemma togglePause_keeps {A} (f : state -> A) s :
  inputBlind f -> f (togglePause s) = f s.
Proof.
  intros (_ & _ & Hp & _). unfold togglePause.
  destruct (negb (running s)); [reflexivity|apply Hp].
Qed.

Lemma startWithCountdown_keeps {A} (f : state -> A) s :
  inputBlind f -> f (startWithCountdown s) = f s.
Proof.
  intros (_ & _ & _ & Ht & Hv). unfold startWithCountdown.
  destruct (running s); [reflexivity|]. rewrite Ht, Hv. reflexivity.
Qed.

Lemma applyDirection_keeps {A} (f : state -> A) d s :
  inputBlind f -> f (applyDirection d s) = f s.
Proof.
  intros (Ha & Hn & _). unfold applyDirection.
  destruct (negb (allowInput s)); [reflexivity|].
  destruct (mapping d) as [p|]; [|reflexivity].
  destruct (_ && _); [reflexivity|]. rewrite Ha, Hn. reflexivity.
Qed.

Lemma arrow_keeps {A} (f : state -> A) (c : bool) d t :
  inputBlind f -> f (if c then set_allowInput false (set_nextDir d t) else t) = f t.
Proof.
  intros (Ha & Hn & _). destruct c; [|reflexivity]. rewrite Ha, Hn. reflexivity.
Qed.

Lemma keydown_keeps {A} (f : state -> A) k s :
  inputBlind f -> f (keydown k s) = f s.
Proof.
  intros B. unfold keydown.
  destruct (negb (allowInput s)); [reflexivity|]. cbv zeta.
  set (s1 := if String.eqb k "ArrowUp" && (py (dir s) =? 0)
             then set_allowInput false (set_nextDir (mkPos 0 (-1)) s) else s).
  assert (E1 : f s1 = f s) by apply (arrow_keeps f _ _ s B).
  clearbody s1.
  set (s2 := if String.eqb k "ArrowDown" && (py (dir s1) =? 0)
             then set_allowInput false (set_nextDir (mkPos 0 1) s1) else s1).
  assert (E2 : f s2 = f s) by (rewrite <- E1; apply (arrow_keeps f _ _ s1 B)).
  clearbody s2.
  set (s3 := if String.eqb k "ArrowLeft" && (px (dir s2) =? 0)
             then set_allowInput false (set_nextDir (mkPos (-1) 0) s2) else s2).
  assert (E3 : f s3 = f s) by (rewrite <- E2; apply (arrow_keeps f _ _ s2 B)).
  clearbody s3.
  set (s4 := if String.eqb k "ArrowRight" && (px (dir s3) =? 0)
             then set_allowInput false (set_nextDir (mkPos 1 0) s3) else s3).
  assert (E4 : f s4 = f s) by (rewrite <- E3; apply (arrow_keeps f _ _ s3 B)).
  clearbody s4.
  set (s5 := if String.eqb k "p" || String.eqb k "P" then togglePause s4 else s4).
  assert (E5 : f s5 = f s).
  { unfold s5. destruct (String.eqb k "p" || String.eqb k "P"); [|exact E4].
    rewrite togglePause_keeps by exact B. exact E4. }
  clearbody s5.
  destruct (String.eqb k " "); [|exact E5].
  destruct (negb (running s5)); [|exact E5].
  rewrite startWithCountdown_keeps by exact B. exact E5.
Qed.

Lemma countdownStep_keeps {A} (f : state -> A) s :
  inputBlind f ->
  (forall s v, f (set_running v s) = f s) ->
  (forall s v, f (set_gameInterval v s) = f s) ->
  f (countdownStep s) = f s.
Proof.
  intros (_ & _ & Hp & Ht & Hv) Hr Hg. unfold countdownStep, beginGameLoop.
  cbv zeta. afields. destruct (0 <? countdownValue s - 1).
  - apply Hv.
  - rewrite Hg, Hp, Hr, Ht, Hv. reflexivity.
Qed.

Lemma existsb_posEq_false (l : list pos) (p : pos) :
  existsb (fun q => posEq q p) l = false <-> ~ In p l.
Proof.
  split.
  - intros E H. assert (T : existsb (fun q => posEq q p) l = true).
    { apply existsb_exists. exists p. split; [exact H|]. apply posEq_eq. reflexivity. }
    congruence.
  - intros H. destruct (existsb _ l) eqn:E; [|reflexivity].
    apply existsb_exists in E. destruct E as (q & Hq & Eq).
    apply posEq_eq in Eq. subst q. contradiction.
Qed.

Lemma tidy_same s s' :
  snake s' = snake s -> obstacles s' = obstacles s -> apple s' = apple s ->
  tidy s -> tidy s'.
Proof. unfold tidy. intros -> -> ->. tauto. Qed.

(** Spawning an apple puts the board in order as far as the apple goes. *)
Lemma tidy_spawnApple s :
  NoDup (snake s) -> NoDup (obstacles s) ->
  (forall o, In o (obstacles s) -> ~ In o (snake s)) ->
  tidy (spawnApple s).
Proof.
  intros N1 N2 D. unfold tidy.
  rewrite (spawnApple_keeps snake), (spawnApple_keeps obstacles) by reflexivity.
  repeat split; try assumption.
  - destruct (spawnApple_outcome s) as [[_ E] | (i & p & _ & _ & E & O1 & _)];
      rewrite E in H; [discriminate|].
    inversion H; subst a. apply existsb_posEq_false. exact O1.
  - destruct (spawnApple_outcome s) as [[_ E] | (i & p & _ & _ & E & _ & O2)];
      rewrite E in H; [discriminate|].
    inversion H; subst a. apply existsb_posEq_false. exact O2.
Qed.

(** [maybeAddObstacle] adds nothing, or one obstacle on a cell free of snake,
    apple and obstacles. *)
Lemma maybeAddObstacle_outcome s :
  snake (maybeAddObstacle s) = snake s /\ apple (maybeAddObstacle s) = apple s
  /\ (obstacles (maybeAddObstacle s) = obstacles s
      \/ exists o, obstacles (maybeAddObstacle s) = obstacles s ++ [o]
                   /\ ~ In o (snake s) /\ apple s <> Some o
                   /\ ~ In o (obstacles s)).
Proof.
  unfold maybeAddObstacle, draw, random. afields.
  destruct (Qltb _ _); [|afields; auto]. afields.
  set (o := mkPos _ _).
  destruct (existsb (fun q => posEq q o) (snake s)) eqn:E1; [afields; auto|].
  destruct (match apple s with Some a => posEq a o | None => false end) eqn:E2;
    [afields; auto|].
  destruct (existsb (fun ob => posEq ob o) (obstacles s)) eqn:E3; [afields; auto|].
  afields. split; [reflexivity|]. split; [reflexivity|]. right. exists o.
  split; [reflexivity|]. split; [apply existsb_posEq_false; exact E1|].
  split; [|apply existsb_posEq_false; exact E3].
  intros Ea. rewrite Ea in E2.
  assert (T : posEq o o = true) by (apply posEq_eq; reflexivity). congruence.
Qed.

Lemma NoDup_snoc {A} (l : list A) (a : A) : NoDup l -> ~ In a l -> NoDup (l ++ [a]).
Proof.
  intros N H. induction N as [|b l Hb N IH]; cbn.
  - constructor; [intros []|constructor].
  - constructor.
    + rewrite in_app_iff. intros [I | [I | []]]; [contradiction|].
      subst. apply H. left. reflexivity.
    + apply IH. intros I. apply H. right. exact I.
Qed.

Lemma tidy_add_obstacle s s' o :
  snake s' = snake s -> apple s' = apple s -> obstacles s' = obstacles s ++ [o] ->
  ~ In o (snake s) -> apple s <> Some o -> ~ In o (obstacles s) ->
  tidy s -> tidy s'.
Proof.
  intros Es Ea Eo H1 H2 H3 (N1 & N2 & D & A). unfold tidy. rewrite Es, Ea, Eo.
  split; [exact N1|]. split; [apply NoDup_snoc; assumption|]. split.
  - intros x Hx. apply in_app_iff in Hx. destruct Hx as [Hx | [<- | []]]; auto.
  - intros a Ha. destruct (A a Ha) as [A1 A2]. split; [exact A1|].
    rewrite in_app_iff. intros [I | [I | []]]; [contradiction|]. congruence.
Qed.

Lemma tidy_maybeAddObstacle s : tidy s -> tidy (maybeAddObstacle s).
Proof.
  intros T. destruct (maybeAddObstacle_outcome s) as (Es & Ea & [Eo | (o & Eo & H1 & H2 & H3)]).
  - eapply tidy_same; eassumption.
  - eapply tidy_add_obstacle; eassumption.
Qed.

Lemma NoDup_removelast {A} (l : list A) : NoDup l -> NoDup (removelast l).
Proof.
  induction 1 as [|a l Ha N IH]; [constructor|].
  cbn. destruct l as [|b l']; [constructor|]. constructor; [|exact IH].
  intros I. apply Ha. clear -I. revert b I.
  induction l' as [|c l' IH]; intros b I; [destruct I|].
  cbn [removelast] in I. destruct I as [<- | I]; [left; reflexivity|].
  right. destruct l' as [|d l'']; [destruct I|]. apply (IH c). exact I.
Qed.

Lemma In_removelast {A} (l : list A) (a : A) : In a (removelast l) -> In a l.
Proof.
  induction l as [|b l IH]; [intros []|].
  cbn. destruct l as [|c l']; [intros []|].
  intros [<- | I]; [left; reflexivity | right; apply IH; exact I].
Qed.

(** The step after the collision tests keeps the board in order. *)
Lemma tidy_proceed head s :
  tidy s -> ~ In head (snake s) -> ~ In head (obstacles s) -> tidy (proceed head s).
Proof.
  intros (N1 & N2 & D & A) H1 H2. unfold proceed. cbv zeta.
  assert (N1' : NoDup (head :: snake s)) by (constructor; assumption).
  assert (D' : forall o, In o (obstacles s) -> ~ In o (head :: snake s)).
  { intros o Ho [<- | I]; [contradiction | exact (D o Ho I)]. }
  change (apple (set_snake (head :: snake s) s)) with (apple s).
  destruct (match apple s with Some a => posEq head a | None => false end) eqn:Ee.
  - set (t := set_score _ _).
    assert (Ta : tidy (spawnApple t)) by (apply tidy_spawnApple; assumption).
    clearbody t. generalize dependent (spawnApple t). intros a Ta.
    destruct (draw a) as [r u] eqn:Ed.
    assert (Tu : tidy u).
    { unfold draw, random in Ed. inversion Ed.
      eapply tidy_same; [ | | |exact Ta]; reflexivity. }
    clear Ed.
    assert (Tv : tidy (if Qltb r (25 # 100) then maybeAddObstacle u else u))
      by (destruct (Qltb r (25 # 100)); [apply tidy_maybeAddObstacle|]; exact Tu).
    eapply tidy_same; [ | | |exact Tv]; reflexivity.
  - unfold tidy. afields. split; [apply NoDup_removelast; exact N1'|].
    split; [exact N2|]. split.
    + intros o Ho I. apply In_removelast in I. exact (D' o Ho I).
    + intros a Ea. destruct (A a Ea) as [A1 A2]. split; [|exact A2].
      intros I. apply In_removelast in I. destruct I as [<- | I]; [|contradiction].
      rewrite Ea in Ee.
      assert (T : posEq head head = true) by (apply posEq_eq; reflexivity).
      congruence.
Qed.

Lemma tidy_gameOver s : tidy s -> tidy (gameOver s).
Proof.
  intros T. unfold gameOver. cbv zeta.
  destruct (gt _ _); (eapply tidy_same; [ | | |exact T]; reflexivity).
Qed.

Lemma tidy_tick s s' : wf s -> tidy s -> tick s = Some s' -> tidy s'.
Proof.
  intros (Hne & _ & _ & Hd) T H. rewrite tick_unfold in H.
  destruct (snake s) as [|h0 rest] eqn:Es; [discriminate|]. cbv zeta in H.
  assert (T1 : tidy (set_dir (nextDir s) s))
    by (eapply tidy_same; [ | | |exact T]; reflexivity).
  destruct (hitsBody _ _) eqn:Eb; [inversion H; apply tidy_gameOver; exact T1|].
  destruct (hitsObstacle _ _) eqn:Eo; [inversion H; apply tidy_gameOver; exact T1|].
  inversion H; subst s'. apply tidy_proceed; [exact T1| |].
  - change (snake (set_dir (nextDir s) s)) with (snake s). rewrite Es.
    rewrite (hitsBody_tail _ (set_dir (nextDir s) s) h0 rest) in Eb by exact Es.
    apply existsb_posEq_false in Eb.
    intros [E | I]; [|contradiction].
    symmetry in E. revert E. apply nextHead_moves. exact Hd.
  - unfold hitsObstacle in Eb, Eo. apply existsb_posEq_false in Eo. exact Eo.
Qed.

Lemma spawnObstacles_loop_tidy (n : nat) (count : Z) : forall s,
  tidy s ->
  tidy (spawnObstacles_loop n count s)
  /\ snake (spawnObstacles_loop n count s) = snake s
  /\ apple (spawnObstacles_loop n count s) = apple s
  /\ Z.of_nat (List.length (obstacles (spawnObstacles_loop n count s)))
     <= Z.max count (Z.of_nat (List.length (obstacles s))).
Proof.
  induction n as [|n IH]; intros s T;
    [cbn [spawnObstacles_loop];
     split; [exact T|]; split; [reflexivity|]; split; [reflexivity|lia]|].
  cbn [spawnObstacles_loop].
  destruct (Z.of_nat (List.length (obstacles s)) <? count) eqn:Ec;
    [|split; [exact T|]; split; [reflexivity|]; split; [reflexivity|lia]].
  apply Z.ltb_lt in Ec.
  unfold draw, random. afields. set (o := mkPos _ _).
  set (s2 := set_gen _ (set_gen _ s)).
  assert (T2 : tidy s2) by (eapply tidy_same; [ | | |exact T]; reflexivity).
  assert (E2 : snake s2 = snake s /\ apple s2 = apple s /\ obstacles s2 = obstacles s)
    by (repeat split).
  clearbody s2. destruct E2 as (Es & Ea & Eo).
  assert (K : tidy (spawnObstacles_loop n count s2)
              /\ snake (spawnObstacles_loop n count s2) = snake s
              /\ apple (spawnObstacles_loop n count s2) = apple s
              /\ Z.of_nat (List.length (obstacles (spawnObstacles_loop n count s2)))
                 <= Z.max count (Z.of_nat (List.length (obstacles s)))).
  { destruct (IH s2 T2) as (K1 & K2 & K3 & K4). rewrite Es in K2. rewrite Ea in K3.
    rewrite Eo in K4. auto. }
  destruct (existsb (fun q => posEq q o) (snake s)) eqn:E1; [exact K|].
  destruct (match apple s with Some a => posEq a o | None => false end) eqn:E3;
    [exact K|].
  destruct (existsb (fun ob => posEq ob o) (obstacles s)) eqn:E4; [exact K|].
  assert (T3 : tidy (set_obstacles (obstacles s ++ [o]) s2)).
  { eapply (tidy_add_obstacle s2 _ o); try reflexivity; try exact T2.
    - afields. rewrite Eo. reflexivity.
    - rewrite Es. apply existsb_posEq_false. exact E1.
    - rewrite Ea. intros E. rewrite E in E3.
      assert (X : posEq o o = true) by (apply posEq_eq; reflexivity). congruence.
    - rewrite Eo. apply existsb_posEq_false. exact E4. }
  destruct (IH _ T3) as (K1 & K2 & K3 & K4). afields.
  rewrite Es in K2. rewrite Ea in K3.
  rewrite length_app in K4. cbn [List.length] in K4.
  split; [exact K1|]. split; [exact K2|]. split; [exact K3|]. lia.
Qed.

Lemma NoDup_skipn {A} (k : nat) (l : list A) : NoDup l -> NoDup (skipn k l).
Proof.
  revert l. induction k as [|k IH]; intros l N; [exact N|].
  destruct l as [|a l]; [constructor|]. cbn. apply IH. inversion N; assumption.
Qed.

Lemma In_skipn {A} (k : nat) (l : list A) (a : A) : In a (skipn k l) -> In a l.
Proof.
  revert l. induction k as [|k IH]; intros l I; [exact I|].
  destruct l as [|b l]; [destruct I|]. right. apply IH. exact I.
Qed.

Lemma tidy_resetGame s :
  tidy (resetGame s)
  /\ Z.of_nat (List.length (obstacles (resetGame s)))
     <= initialObstacleCount (difficulty s).
Proof.
  unfold resetGame. cbv zeta.
  set (t := set_gameInterval false _).
  assert (Et : snake t = [mkPos 14 14] /\ obstacles t = [] /\ difficulty t = difficulty s)
    by (repeat split).
  clearbody t. destruct Et as (Es & Eo & Ed).
  assert (Ta : tidy (spawnApple t)).
  { apply tidy_spawnApple; rewrite ?Es, ?Eo.
    - constructor; [intros []|constructor].
    - constructor.
    - intros o []. }
  assert (Ea : obstacles (spawnApple t) = [] /\ difficulty (spawnApple t) = difficulty s).
  { rewrite (spawnApple_keeps obstacles), (spawnApple_keeps difficulty) by reflexivity.
    auto. }
  generalize dependent (spawnApple t). intros a Ta (Eo' & Ed').
  unfold spawnObstaclesInitial.
  assert (T0 : tidy (set_obstacles [] a))
    by (eapply tidy_same; [ | | |exact Ta]; [reflexivity|symmetry; exact Eo'|reflexivity]).
  destruct (spawnObstacles_loop_tidy 1000 (initialObstacleCount (difficulty a))
              (set_obstacles [] a) T0) as (K1 & _ & _ & K4).
  afields. split; [exact K1|]. cbn [List.length] in K4.
  rewrite Ed' in *.
  assert (0 <= initialObstacleCount (difficulty s)).
  { unfold initialObstacleCount.
    repeat match goal with |- context [if ?b then _ else _] => destruct b end; lia. }
  lia.
Qed.

Lemma tidy_maintenance s : tidy s -> tidy (maintenance s).
Proof.
  intros T. unfold maintenance. cbv zeta.
  assert (T1 : tidy (match apple s with None => spawnApple s | Some _ => s end)).
  { destruct (apple s); [exact T|]. destruct T as (N1 & N2 & D & _).
    apply tidy_spawnApple; assumption. }
  generalize dependent (match apple s with None => spawnApple s | Some _ => s end).
  intros a (N1 & N2 & D & A).
  destruct (12 <? _)%nat; [|unfold tidy; auto].
  unfold tidy. afields. split; [exact N1|]. split; [apply NoDup_skipn; exact N2|].
  split.
  - intros o Ho. apply D. eapply In_skipn. exact Ho.
  - intros x Hx. destruct (A x Hx) as [A1 A2]. split; [exact A1|].
    intros I. apply A2. eapply In_skipn. exact I.
Qed.

Lemma inputBlind_snake : inputBlind snake.
Proof. repeat split. Qed.

Lemma inputBlind_obstacles : inputBlind obstacles.
Proof. repeat split. Qed.

Lemma inputBlind_apple : inputBlind apple.
Proof. repeat split. Qed.

Lemma inputBlind_score : inputBlind score.
Proof. repeat split. Qed.

(** Apart from a tick, a reset and the maintenance pass, no event touches
    snake, obstacles, apple or score. *)
Lemma handle_quiet e s s' :
  handle e s = Some s' ->
  e <> EvInterval -> e <> EvReset -> e <> EvMaintenance ->
  snake s' = snake s /\ obstacles s' = obstacles s /\ apple s' = apple s
  /\ score s' = score s.
Proof.
  intros H N1 N2 N3. destruct e; cbn [handle] in H; try congruence;
    inversion H; subst s'; clear H.
  - destruct (countdownTimer s); [|auto].
    rewrite !countdownStep_keeps;
      auto using inputBlind_snake, inputBlind_obstacles, inputBlind_apple,
                 inputBlind_score.
  - rewrite !keydown_keeps;
      auto using inputBlind_snake, inputBlind_obstacles, inputBlind_apple,
                 inputBlind_score.
  - rewrite !applyDirection_keeps;
      auto using inputBlind_snake, inputBlind_obstacles, inputBlind_apple,
                 inputBlind_score.
  - destruct (negb (running s)); [|auto].
    rewrite !startWithCountdown_keeps;
      auto using inputBlind_snake, inputBlind_obstacles, inputBlind_apple,
                 inputBlind_score.
  - rewrite !togglePause_keeps;
      auto using inputBlind_snake, inputBlind_obstacles, inputBlind_apple,
                 inputBlind_score.
  - unfold changeDifficulty. cbv zeta. afields. destruct (running s); auto.
Qed.

Lemma event_cases e :
  e = EvInterval \/ e = EvReset \/ e = EvMaintenance
  \/ (e <> EvInterval /\ e <> EvReset /\ e <> EvMaintenance).
Proof. destruct e; auto; right; right; right; repeat split; discriminate. Qed.

Lemma Some_eq {A} (a b : A) : Some a = Some b -> a = b.
Proof. intros H. inversion H. reflexivity. Qed.

Lemma tidy_handle e s s' : wf s -> tidy s -> handle e s = Some s' -> tidy s'.
Proof.
  intros W T H.
  destruct (event_cases e) as [-> | [-> | [-> | (N1 & N2 & N3)]]].
  - cbn [handle] in H. destruct (gameInterval s); [|inversion H; subst; exact T].
    unfold intervalStep in H.
    destruct (negb (paused s)); [eapply tidy_tick; eassumption|].
    inversion H; subst; exact T.
  - cbn [handle] in H. apply Some_eq in H. subst s'. apply tidy_resetGame.
  - cbn [handle] in H. apply Some_eq in H. subst s'. apply tidy_maintenance. exact T.
  - destruct (handle_quiet e s s' H N1 N2 N3) as (E1 & E2 & E3 & _).
    eapply tidy_same; eassumption.
Qed.

Lemma reachable_tidy s : reachable s -> tidy s.
Proof.
  induction 1 as [g d st | e s s' R IH H]; [apply tidy_resetGame|].
  eapply tidy_handle; [apply reachable_wf; exact R | exact IH | exact H].
Qed.

(** What the step after the collision tests does to snake and score. *)
Lemma proceed_growth head s :
  let eaten := match apple s with Some a => posEq head a | None => false end in
  snake (proceed head s)
  = (if eaten then head :: snake s else removelast (head :: snake s))
  /\ score (proceed head s) = (if eaten then score s + 10 else score s).
Proof.
  cbv zeta. unfold proceed. cbv zeta.
  change (apple (set_snake (head :: snake s) s)) with (apple s).
  destruct (match apple s with Some a => posEq head a | None => false end).
  - set (t := set_score _ _).
    assert (Ea : snake (spawnApple t) = head :: snake s
                 /\ score (spawnApple t) = score s + 10)
      by (rewrite (spawnApple_keeps snake), (spawnApple_keeps score) by reflexivity;
          split; reflexivity).
    clearbody t. generalize dependent (spawnApple t). intros a (E1 & E2).
    destruct (draw a) as [r u] eqn:Ed.
    assert (Eu : snake u = snake a /\ score u = score a)
      by (unfold draw, random in Ed; inversion Ed; split; reflexivity).
    clear Ed. destruct Eu as (U1 & U2).
    assert (Ev : snake (if Qltb r (25 # 100) then maybeAddObstacle u else u) = snake u
                 /\ score (if Qltb r (25 # 100) then maybeAddObstacle u else u)
                    = score u).
    { destruct (Qltb r (25 # 100)); [|auto].
      rewrite (maybeAddObstacle_keeps snake), (maybeAddObstacle_keeps score)
        by reflexivity. auto. }
    destruct Ev as (V1 & V2).
    change (snake (set_allowInput true ?v)) with (snake v).
    change (score (set_allowInput true ?v)) with (score v).
    split; congruence.
  - split; reflexivity.
Qed.





Lemma appFed_reachable : reachable Scenario.appFed.
Proof.
  apply (reachable_run
           [EvStart; EvCountdown; EvCountdown; EvCountdown; EvInterval; EvMaintenance]
           Scenario.appBoot).
  - apply reach_boot.
  - vm_compute. reflexivity.
Qed.

(** X1.  In every state the page can reach the board is in order: no two
    segments share a cell, no two obstacles share a cell, no obstacle lies
    under the snake, and the apple, when present, lies on a cell free of
    snake and obstacles. *)
Theorem board_stays_in_order s :
  reachable s ->
  NoDup (snake s) /\ NoDup (obstacles s)
  /\ (forall o, In o (obstacles s) -> ~ In o (snake s))
  /\ (forall a, apple s = Some a -> ~ In a (snake s) /\ ~ In a (obstacles s)).
Proof. intros R. exact (reachable_tidy s R). Qed.

Lemma board_stays_in_order_witness :
  NoDup (snake Scenario.appFed) /\ NoDup (obstacles Scenario.appFed)
  /\ (forall o, In o (obstacles Scenario.appFed) -> ~ In o (snake Scenario.appFed))
  /\ (forall a, apple Scenario.appFed = Some a ->
                ~ In a (snake Scenario.appFed) /\ ~ In a (obstacles Scenario.appFed)).
Proof. apply board_stays_in_order. exact appFed_reachable. Defined.



(** X3.  After [resetGame] the board is in order and holds at most as many
    obstacles as the difficulty asks for, never more than six. *)
Theorem reset_board s :
  tidy (resetGame s)
  /\ Z.of_nat (List.length (obstacles (resetGame s))) <= initialObstacleCount (difficulty s)
  /\ initialObstacleCount (difficulty s) <= 6
  /\ snake (resetGame s) = [mkPos 14 14] /\ score (resetGame s) = 0
  /\ running (resetGame s) = false.
Proof.
  destruct (tidy_resetGame s) as [T L]. destruct (resetGame_start s) as (Es & _).
  split; [exact T|]. split; [exact L|]. split.
  - unfold initialObstacleCount.
    repeat match goal with |- context [if ?b then _ else _] => destruct b end; lia.
  - split; [exact Es|]. unfold resetGame. cbv zeta.
    rewrite (spawnObstaclesInitial_keeps score), (spawnObstaclesInitial_keeps running),
      (spawnApple_keeps score), (spawnApple_keeps running) by reflexivity.
    split; reflexivity.
Qed.


Lemma propose_latched i s : allowInput s = false -> propose i s = s.
Proof.
  intros L. destruct i; cbn [propose]; [unfold keydown | unfold applyDirection];
    rewrite L; reflexivity.
Qed.

(** X5.  Once a proposal has been taken, the input latch stays closed until
    the next tick: every further key press or touch, the pause key and the
    start key included, leaves the state as it is.  A tick that does not end
    the game opens the latch again. *)
Theorem input_latched_until_tick :
  (forall ins s, allowInput s = false -> proposeAll ins s = s)
  /\ (forall s s', tick s = Some s' -> running s = true -> running s' = true ->
                   allowInput s' = true).
Proof.
  split.
  - induction ins as [|i ins IH]; intros s L; [reflexivity|].
    cbn [proposeAll fold_left]. rewrite (propose_latched i s L).
    apply (IH s L).
  - intros s s'. rewrite tick_unfold.
    destruct (snake s) as [|h0 rest]; [discriminate|]. cbv zeta.
    destruct (hitsBody _ _);
      [intros H _ R; inversion H; subst s'; rewrite gameOver_running in R; discriminate|].
    destruct (hitsObstacle _ _);
      [intros H _ R; inversion H; subst s'; rewrite gameOver_running in R; discriminate|].
    intros H _ _. inversion H. reflexivity.
Qed.

Lemma input_latched_until_tick_witness :
  proposeAll [Key "p"; Touch "up"; Key " "]
             (propose (Key "ArrowUp") Scenario.appRunning)
  = propose (Key "ArrowUp") Scenario.appRunning.
Proof.
  apply (proj1 input_latched_until_tick). vm_compute. reflexivity.
Defined.



(** X7.  On the board the next head cell is the neighbour on the torus: each
    coordinate moves by the direction and is taken modulo the board size. *)
Theorem nextHead_wraps h d :
  inGrid h -> isDirection d = true ->
  nextHead h d = mkPos ((px h + px d) mod width) ((py h + py d) mod rows).
Proof.
  intros [Hx Hy] Hd. unfold nextHead, width, rows in *.
  apply isDirection_cases in Hd.
  assert (W : forall a, -1 <= a -> Z.rem (a + 28) 28 = a mod 28).
  { intros a Ha. rewrite Z.rem_mod_nonneg by lia.
    rewrite <- (Z.mod_add a 1 28) by lia. reflexivity. }
  destruct Hd as [-> | [-> | [-> | ->]]]; cbn [px py]; rewrite !W by lia; reflexivity.
Qed.

Lemma nextHead_wraps_witness :
  nextHead (mkPos 27 0) (mkPos 1 0)
  = mkPos ((27 + 1) mod width) ((0 + 0) mod rows).
Proof.
  apply (nextHead_wraps (mkPos 27 0) (mkPos 1 0)).
  - unfold inGrid, width, rows. cbn. lia.
  - reflexivity.
Defined.

Lemma spawnApple_loop_border (n : nat) : forall s p,
  fair (gen s) -> apple (spawnApple_loop n s) = Some p ->
  1 <= px p <= width - 2 /\ 1 <= py p <= rows - 2.
Proof.
  induction n as [|n IH]; intros s p F; [discriminate|].
  cbn [spawnApple_loop]. unfold draw, random. afields.
  destruct (F (cursor (gen s))) as [A0 A1].
  destruct (F (S (cursor (gen s)))) as [B0 B1].
  set (q := mkPos _ _).
  assert (F2 : fair (gen (set_gen (mkRng (stream (gen s)) (S (S (cursor (gen s))))) s)))
    by exact F.
  destruct (existsb (fun x => posEq x q) (snake s)); [apply IH; exact F2|].
  destruct (existsb (fun o => posEq o q) (obstacles s)); [apply IH; exact F2|].
  afields. intros E. inversion E; subst p. unfold q, width, rows. cbn [px py].
  split; apply randInt_range; assumption || lia.
Qed.

(** X8.  With [Math.random()] in [0, 1), an apple is never placed on the
    outermost ring of the board. *)
Theorem apple_inside_border s p :
  fair (gen s) -> apple (spawnApple s) = Some p ->
  1 <= px p <= width - 2 /\ 1 <= py p <= rows - 2.
Proof. exact (spawnApple_loop_border 500 s p). Qed.

Lemma patternDraws_fair c : fair (mkRng Scenario.patternDraws c).
Proof.
  intros n. cbn [stream]. unfold Scenario.patternDraws.
  assert (H : (n * 37 mod 100 < 100)%nat) by (apply Nat.mod_upper_bound; discriminate).
  generalize dependent (n * 37 mod 100)%nat. intros m H.
  split.
  - unfold Qle. cbn [Qnum Qden]. lia.
  - unfold Qlt. cbn [Qnum Qden]. lia.
Qed.

Lemma apple_inside_border_witness :
  1 <= px (mkPos 1 10) <= width - 2 /\ 1 <= py (mkPos 1 10) <= rows - 2.
Proof.
  apply (apple_inside_border (set_gen (mkRng Scenario.patternDraws 0) Scenario.appCoiled)).
  - apply patternDraws_fair.
  - vm_compute. reflexivity.
Defined.

(** X9.  A tick that does not end the game moves the snake one cell: the new
    head goes in front; when it lands on the apple the snake keeps its tail
    and the score grows by ten, otherwise the tail cell is dropped and the
    score stays. *)
Theorem tick_moves_or_grows s s' h0 rest :
  snake s = h0 :: rest ->
  tick s = Some s' -> running s = true -> running s' = true ->
  let head := nextHead h0 (nextDir s) in
  (apple s = Some head -> snake s' = head :: snake s /\ score s' = score s + 10)
  /\ (apple s <> Some head ->
      snake s' = head :: removelast (snake s) /\ score s' = score s).
Proof.
  intros Es H R R'. cbv zeta. rewrite tick_unfold, Es in H. cbv zeta in H.
  destruct (hitsBody _ _);
    [inversion H; subst s'; rewrite gameOver_running in R'; discriminate|].
  destruct (hitsObstacle _ _);
    [inversion H; subst s'; rewrite gameOver_running in R'; discriminate|].
  inversion H; subst s'.
  destruct (proceed_growth (nextHead h0 (nextDir s)) (set_dir (nextDir s) s)) as [G1 G2].
  rewrite G1, G2. afields. rewrite Es. split.
  - intros ->.
    assert (T : posEq (nextHead h0 (nextDir s)) (nextHead h0 (nextDir s)) = true)
      by (apply posEq_eq; reflexivity).
    rewrite T. split; reflexivity.
  - intros N.
    assert (F : match apple s with
                | Some a => posEq (nextHead h0 (nextDir s)) a
                | None => false
                end = false).
    { destruct (apple s) as [a|]; [|reflexivity].
      destruct (posEq (nextHead h0 (nextDir s)) a) eqn:E; [|reflexivity].
      apply posEq_eq in E. subst a. congruence. }
    rewrite F. split; reflexivity.
Qed.

Lemma tick_moves_or_grows_witness :
  (apple Scenario.appRunning = Some (nextHead (mkPos 14 14) (nextDir Scenario.appRunning)) ->
   snake (Scenario.gridStateOf (tick Scenario.appRunning) Scenario.appRunning)
   = nextHead (mkPos 14 14) (nextDir Scenario.appRunning) :: snake Scenario.appRunning
   /\ score (Scenario.gridStateOf (tick Scenario.appRunning) Scenario.appRunning)
      = score Scenario.appRunning + 10)
  /\ (apple Scenario.appRunning <> Some (nextHead (mkPos 14 14) (nextDir Scenario.appRunning)) ->
      snake (Scenario.gridStateOf (tick Scenario.appRunning) Scenario.appRunning)
      = nextHead (mkPos 14 14) (nextDir Scenario.appRunning)
        :: removelast (snake Scenario.appRunning)
      /\ score (Scenario.gridStateOf (tick Scenario.appRunning) Scenario.appRunning)
         = score Scenario.appRunning).
Proof.
  apply (tick_moves_or_grows Scenario.appRunning
           (Scenario.gridStateOf (tick Scenario.appRunning) Scenario.appRunning)
           (mkPos 14 14) []); vm_compute; reflexivity.
Defined.

End GridExtras.

(* ================================================================= *)
(** * Further properties of the pixel engine *)

(** Reduce projections of setters of the pixel engine's state. *)
Ltac pfields :=
  cbn [Game.canvasWidth Game.canvasHeight Game.lastTimestamp Game.running
       Game.paused Game.gameOver Game.score Game.highScore Game.head Game.dir
       Game.length Game.segments Game.food Game.pendingDir Game.overlay
       Game.stored Game.gen Game.set_lastTimestamp Game.set_running
       Game.set_paused Game.set_gameOver Game.set_score Game.set_highScore
       Game.set_head Game.set_dir Game.set_length Game.set_segments
       Game.set_food Game.set_pendingDir Game.set_overlay Game.set_stored
       Game.set_gen Game.set_canvas fst snd JS.stream JS.cursor
       Game.x Game.y Game.dx Game.dy Game.fx Game.fy Game.color Game.points] in *.

Section PixelExtras.
Import JS Game.

(** X10.  [randInt(min, max)] returns an integer between [min] and [max],
    both included, whenever [Math.random()] returns a value in [0, 1). *)
Theorem random_integer_in_range (lo hi : Z) (r : Q) :
  (0 <= r)%Q -> (r < 1)%Q -> lo <= hi -> lo <= randInt lo hi r <= hi.
Proof. apply randInt_range. Qed.

Lemma random_integer_in_range_witness : 1 <= randInt 1 26 (999 # 1000) <= 26.
Proof.
  apply random_integer_in_range; [unfold Qle; cbn; lia | unfold Qlt; cbn; lia | lia].
Defined.

Lemma inject_half : (inject_Z 22 / 2 == 11)%Q.
Proof. reflexivity. Qed.

(** X11.  On a canvas of at least 66 by 66 pixels, with [Math.random()] in
    [0, 1), a placement never raises: it puts food of a configured type on a
    point of the food grid, at least 33 pixels away from every wall. *)
Theorem food_lands_on_grid s :
  fair (gen s) -> 66 <= canvasWidth s -> 66 <= canvasHeight s ->
  exists s4 f k j,
    placeFood s = Some s4 /\ food s4 = Some f
    /\ 0 <= k < (canvasWidth s - 44) / 22 /\ 0 <= j < (canvasHeight s - 44) / 22
    /\ fx f = (inject_Z (22 + k * 22) + inject_Z 22 / 2)%Q
    /\ fy f = (inject_Z (22 + j * 22) + inject_Z 22 / 2)%Q
    /\ In (color f, points f) foodTypes
    /\ (33 <= fx f)%Q /\ (fx f <= inject_Z (canvasWidth s) - 33)%Q
    /\ (33 <= fy f)%Q /\ (fy f <= inject_Z (canvasHeight s) - 33)%Q.
Proof.
  intros F Hw Hh.
  destruct (F (cursor (gen s))) as [A0 A1].
  destruct (F (S (cursor (gen s)))) as [B0 B1].
  destruct (F (S (S (cursor (gen s))))) as [C0 C1].
  assert (Pc : 0 < (canvasWidth s - 44) / 22) by (apply Z.div_str_pos; lia).
  assert (Pr : 0 < (canvasHeight s - 44) / 22) by (apply Z.div_str_pos; lia).
  pose proof (randInt_range 0 ((canvasWidth s - 44) / 22 - 1) _ A0 A1 ltac:(lia)) as Rk.
  pose proof (randInt_range 0 ((canvasHeight s - 44) / 22 - 1) _ B0 B1 ltac:(lia)) as Rj.
  pose proof (randInt_range 0 3 _ C0 C1 ltac:(lia)) as Rt.
  pose proof (Z.mul_div_le (canvasWidth s - 44) 22 ltac:(lia)) as Mw.
  pose proof (Z.mul_div_le (canvasHeight s - 44) 22 ltac:(lia)) as Mh.
  unfold placeFood, draw, random. cbv zeta. pfields.
  change (cellSize * 2) with 44. change cellSize with 22.
  change (Z.of_nat (List.length foodTypes) - 1) with 3.
  set (k := randInt 0 ((canvasWidth s - 44) / 22 - 1) _) in *.
  set (j := randInt 0 ((canvasHeight s - 44) / 22 - 1) _) in *.
  set (t := randInt 0 3 _) in *.
  assert (Et : exists c p, nth_error foodTypes (Z.to_nat t) = Some (c, p)
                           /\ In (c, p) foodTypes).
  { assert (E : t = 0 \/ t = 1 \/ t = 2 \/ t = 3) by lia.
    destruct E as [-> | [-> | [-> | ->]]]; do 2 eexists;
      (split; [reflexivity|]); cbn; auto. }
  destruct Et as (c & p & -> & Hin).
  eexists. exists (mkFood (inject_Z (22 + k * 22) + inject_Z 22 / 2)%Q
                          (inject_Z (22 + j * 22) + inject_Z 22 / 2)%Q c p), k, j.
  split; [reflexivity|]. pfields. split; [reflexivity|].
  split; [lia|]. split; [lia|]. split; [reflexivity|]. split; [reflexivity|].
  split; [exact Hin|].
  assert (Qk0 : (inject_Z 22 <= inject_Z (22 + k * 22))%Q) by (rewrite <- Zle_Qle; lia).
  assert (Qj0 : (inject_Z 22 <= inject_Z (22 + j * 22))%Q) by (rewrite <- Zle_Qle; lia).
  assert (Qk1 : (inject_Z (22 + k * 22) + inject_Z 44 <= inject_Z (canvasWidth s))%Q)
    by (rewrite <- inject_Z_plus, <- Zle_Qle; lia).
  assert (Qj1 : (inject_Z (22 + j * 22) + inject_Z 44 <= inject_Z (canvasHeight s))%Q)
    by (rewrite <- inject_Z_plus, <- Zle_Qle; lia).
  rewrite !inject_half.
  change (inject_Z 22) with 22%Q in *. change (inject_Z 44) with 44%Q in *.
  repeat split; lra.
Qed.

Lemma food_lands_on_grid_witness :
  exists s4 f k j,
    placeFood Scenario.gameStarted = Some s4 /\ food s4 = Some f
    /\ 0 <= k < (canvasWidth Scenario.gameStarted - 44) / 22
    /\ 0 <= j < (canvasHeight Scenario.gameStarted - 44) / 22
    /\ fx f = (inject_Z (22 + k * 22) + inject_Z 22 / 2)%Q
    /\ fy f = (inject_Z (22 + j * 22) + inject_Z 22 / 2)%Q
    /\ In (color f, points f) foodTypes
    /\ (33 <= fx f)%Q /\ (fx f <= inject_Z (canvasWidth Scenario.gameStarted) - 33)%Q
    /\ (33 <= fy f)%Q /\ (fy f <= inject_Z (canvasHeight Scenario.gameStarted) - 33)%Q.
Proof.
  apply food_lands_on_grid.
  - intros n. change (gen Scenario.gameStarted) with (mkRng Scenario.draws 3).
    cbn [stream]. unfold Scenario.draws.
    destruct n as [|[|[|n]]]; split; unfold Qle, Qlt; cbn; lia.
  - vm_compute. discriminate.
  - vm_compute. discriminate.
Defined.

Lemma Qltb_false_of_le a b : (b <= a)%Q -> Qltb a b = false.
Proof.
  intros H. unfold Qltb. apply negb_false_iff. apply Qle_bool_iff. exact H.
Qed.

Lemma clamp_within v b : (0 <= b)%Q -> (0 <= clamp v 0 b)%Q /\ (clamp v 0 b <= b)%Q.
Proof.
  intros Hb. unfold clamp. split.
  - apply Q.le_max_l.
  - apply Q.max_lub; [exact Hb | apply Q.le_min_l].
Qed.

(** X12.  [resizeCanvas] never makes the canvas smaller than 280 by 175, so
    the food grid keeps at least 10 columns and 5 rows; and after the resize
    listener has run the head is inside the canvas, so the resize itself never
    counts as a wall hit. *)
Theorem resize_keeps_head_inside (parentWidth innerHeight : Q) s :
  let s' := onResize parentWidth innerHeight s in
  280 <= canvasWidth s' /\ 175 <= canvasHeight s'
  /\ 10 <= (canvasWidth s' - cellSize * 2) / cellSize
  /\ 5 <= (canvasHeight s' - cellSize * 2) / cellSize
  /\ hitsWall s' = false.
Proof.
  cbv zeta. unfold onResize, resizeCanvas. cbv zeta. pfields.
  set (size := Z.max 280 _).
  assert (Hs : 280 <= size) by (unfold size; lia).
  set (h := Qfloor _).
  assert (Hh : 175 <= h).
  { unfold h. change 175 with (Qfloor (inject_Z 280 * (625 # 1000))).
    apply Qfloor_resp_le. apply Qmult_le_compat_r; [|discriminate].
    rewrite <- Zle_Qle. exact Hs. }
  clearbody size h.
  split; [exact Hs|]. split; [exact Hh|].
  change (cellSize * 2) with 44. change cellSize with 22.
  split; [apply Z.div_le_lower_bound; lia|].
  split; [apply Z.div_le_lower_bound; lia|].
  unfold hitsWall. pfields.
  assert (Qs : (0 <= inject_Z size)%Q) by (change 0%Q with (inject_Z 0); rewrite <- Zle_Qle; lia).
  assert (Qh : (0 <= inject_Z h)%Q) by (change 0%Q with (inject_Z 0); rewrite <- Zle_Qle; lia).
  destruct (clamp_within (x (head s)) (inject_Z size) Qs) as [X0 X1].
  destruct (clamp_within (y (head s)) (inject_Z h) Qh) as [Y0 Y1].
  rewrite !Qltb_false_of_le by assumption. reflexivity.
Qed.

(** X13.  A high score written by the game-over code reads back as the same
    number: in the pixel engine the next [resetGameState] loads exactly the
    score that [endGame] stored; the loaders of the grid and cell engines turn
    what [gameOver] and [triggerGameOver] stored back into the score. *)
Theorem high_score_survives_reload :
  (forall fuel reason s s' h,
      highScore s = Num h -> h < score s ->
      resetGameState fuel (endGame reason s) = Done s' ->
      highScore s' = Num (score s))
  /\ (forall s h,
      App.highScore s = Num h -> h < App.score s ->
      App.loadHighScore (App.snake_high (App.gameOver s)) = Num (App.score s))
  /\ (forall s,
      Classic.highScore s < Classic.score s ->
      Classic.loadHighScore (Classic.stored (Classic.triggerGameOver s))
      = Classic.score s).
Proof.
  split; [|split].
  - intros fuel reason s s' h Hh L R.
    destruct (endGame_records reason s h Hh) as [A _]. destruct (A L) as [_ St].
    unfold resetGameState in R. cbv zeta in R.
    destruct (spawnFood fuel _) as [s1| |] eqn:Es; try discriminate.
    inversion R; subst s'. pfields.
    rewrite (spawnFood_highScore _ _ _ Es). pfields.
    rewrite St. unfold loadHighScore.
    rewrite or_zero_string_toString. apply parseInt_toString.
  - intros s h Hh L. destruct (gameOver_records s h Hh) as [A _].
    destruct (A L) as [_ St]. rewrite St. unfold App.loadHighScore.
    rewrite or_zero_string_toString. apply parseInt_toString.
  - intros s L. unfold Classic.triggerGameOver. cbv zeta.
    cbn [Classic.highScore Classic.score Classic.set_isGameOver Classic.set_isRunning].
    apply Z.ltb_lt in L. rewrite L.
    cbn [Classic.stored Classic.set_stored].
    apply loadHighScore_roundtrip.
Qed.

Lemma high_score_survives_reload_witness :
  App.loadHighScore (App.snake_high (App.gameOver Scenario.appCoiled))
  = Num (App.score Scenario.appCoiled).
Proof.
  apply (proj1 (proj2 high_score_survives_reload) Scenario.appCoiled 0);
    vm_compute; reflexivity.
Defined.

Lemma eat_keeps_snake fuel a s' :
  eat fuel a = Done s' -> segments s' = segments a /\ head s' = head a.
Proof.
  unfold eat. destruct (food a) as [f|]; [|intros H; inversion H; auto].
  destruct (closer _ _ _ _ _); [|intros H; inversion H; auto].
  destruct (spawnFood fuel _) as [s3| |] eqn:Hs; try discriminate.
  intros H; inversion H. unfold recordHighScore.
  rewrite (spawnFood_only_food _ _ _ Hs).
  destruct (gt _ _); split; reflexivity.
Qed.

Lemma collide_keeps_snake s :
  segments (collide s) = segments s /\ head (collide s) = head s
  /\ length (collide s) = length s /\ food (collide s) = food s.
Proof.
  unfold collide, endGame, recordHighScore. cbv zeta.
  destruct (hitsWall s); [pfields; destruct (gt _ _); repeat split|].
  destruct (hitsSelf s); [pfields; destruct (gt _ _)|]; repeat split.
Qed.

Lemma update_keeps_snake fuel dt s s' :
  update fuel dt s = Done s' ->
  segments s' = segments (advance dt s) /\ head s' = head (advance dt s).
Proof.
  intros U. destruct (update_Done _ _ _ _ U) as (s2 & He & ->).
  destruct (collide_keeps_snake s2) as (-> & -> & _).
  exact (eat_keeps_snake _ _ _ He).
Qed.

Lemma advance_segments_bound dt s :
  (List.length (segments (advance dt s)) <= Z.to_nat (Z.max 3 (length s + 2)))%nat.
Proof.
  unfold advance. cbv zeta. pfields.
  destruct (pendingDir s); pfields;
    match goal with |- context [if ?b then _ else _] => destruct b end; pfields;
    rewrite length_firstn; apply Nat.le_min_l.
Qed.

(** X14.  After every frame the body holds at most [max(3, length + 2)]
    sampled positions, [length] being the snake's length when the frame
    began. *)
Theorem segments_stay_bounded fuel dt s s' :
  update fuel dt s = Done s' ->
  (List.length (segments s') <= Z.to_nat (Z.max 3 (length s + 2)))%nat.
Proof.
  intros U. destruct (update_keeps_snake _ _ _ _ U) as [-> _].
  apply advance_segments_bound.
Qed.

Lemma segments_stay_bounded_witness :
  (List.length (segments (Scenario.stateOf (update 4 (1 # 10) Scenario.gameStarted)
                                           Scenario.gameStarted))
   <= Z.to_nat (Z.max 3 (length Scenario.gameStarted + 2)))%nat.
Proof.
  apply (segments_stay_bounded 4 (1 # 10)%Q Scenario.gameStarted).
  vm_compute. reflexivity.
Defined.








Lemma placeFood_type s s4 :
  placeFood s = Some s4 ->
  exists f, food s4 = Some f /\ In (color f, points f) foodTypes.
Proof.
  unfold placeFood, draw, random. cbv zeta. pfields.
  destruct (nth_error foodTypes _) as [[c p]|] eqn:E; [|discriminate].
  intros H; inversion H. pfields. eexists. split; [reflexivity|].
  pfields. eapply nth_error_In. exact E.
Qed.

Lemma spawnFood_type (fuel : nat) : forall s s',
  spawnFood fuel s = Done s' ->
  exists f, food s' = Some f /\ In (color f, points f) foodTypes.
Proof.
  induction fuel as [|n IH]; intros s s' H; [discriminate|].
  cbn [spawnFood] in H.
  destruct (placeFood s) as [s4|] eqn:Ep; [|discriminate].
  destruct (overlaps s4); [eapply IH; exact H|].
  inversion H; subst s'. eapply placeFood_type. exact Ep.
Qed.

Lemma foodTypes_points c p : In (c, p) foodTypes -> 1 <= p.
Proof.
  cbn. intros [H | [H | [H | [H | []]]]]; inversion H; lia.
Qed.

Lemma advance_length dt s : length (advance dt s) = length s.
Proof.
  unfold advance. cbv zeta. pfields.
  destruct (pendingDir s); pfields;
    match goal with |- context [if ?b then _ else _] => destruct b end; reflexivity.
Qed.

Lemma sane_eat fuel a s' :
  sane a -> eat fuel a = Done s' -> sane s' /\ score a <= score s'.
Proof.
  intros (L & Ft) H. unfold eat in H.
  destruct (food a) as [f|] eqn:Ef;
    [|inversion H; subst; split; [split; [exact L|]|lia];
      intros g Hg; rewrite Ef in Hg; discriminate].
  destruct (closer _ _ _ _ _);
    [|inversion H; subst; split; [split; [exact L|]|lia];
      intros g Hg; rewrite Ef in Hg; inversion Hg; subst; apply Ft; reflexivity].
  destruct (spawnFood fuel _) as [s3| |] eqn:Hs; try discriminate.
  inversion H; subst s'.
  pose proof (foodTypes_points _ _ (Ft f eq_refl)) as Pf.
  destruct (spawnFood_type _ _ _ Hs) as (f3 & E3 & T3).
  pose proof (spawnFood_only_food _ _ _ Hs) as E.
  assert (S3 : score s3 = score a + points f) by (rewrite E; reflexivity).
  assert (L3 : length s3 = length a + Z.max 1 (points f)) by (rewrite E; reflexivity).
  unfold sane, recordHighScore.
  destruct (gt _ _); pfields; rewrite ?S3, ?L3, ?E3;
    (split; [split; [lia|intros g Hg; inversion Hg; subst; exact T3]|lia]).
Qed.

(** X16.  The snake's length follows the score: after [resetGameState] it is
    the initial length and the score is 0, and every frame keeps the length
    equal to the initial length plus the score, keeps the food one of the
    configured types, and never lowers the score. *)
Theorem length_follows_score :
  (forall fuel s s', resetGameState fuel s = Done s' -> sane s' /\ score s' = 0)
  /\ (forall fuel dt s s',
        sane s -> update fuel dt s = Done s' -> sane s' /\ score s <= score s').
Proof.
  split.
  - intros fuel s s' R. unfold resetGameState in R. cbv zeta in R.
    destruct (spawnFood fuel _) as [s1| |] eqn:Es; try discriminate.
    inversion R; subst s'. unfold sane. pfields.
    destruct (spawnFood_type _ _ _ Es) as (f & Ef & Tf).
    pose proof (spawnFood_only_food _ _ _ Es) as E1.
    assert (L1 : length s1 = initialLength) by (rewrite E1; reflexivity).
    assert (S1 : score s1 = 0) by (rewrite E1; reflexivity).
    rewrite L1, S1. split; [split; [reflexivity|]|reflexivity].
    intros g Hg. rewrite Ef in Hg. inversion Hg; subst. exact Tf.
  - intros fuel dt s s' (L & Ft) U.
    destruct (update_Done _ _ _ _ U) as (s2 & He & ->).
    assert (Sa : sane (advance dt s)).
    { unfold sane. rewrite advance_length, advance_score, advance_food. auto. }
    destruct (sane_eat _ _ _ Sa He) as [(L2 & F2) M].
    rewrite advance_score in M.
    destruct (collide_keeps_snake s2) as (_ & _ & Cl & Cf).
    unfold sane. rewrite Cl, Cf, collide_score. auto.
Qed.

Lemma length_follows_score_witness :
  sane (Scenario.stateOf (update 4 (1 # 10) Scenario.gameStarted) Scenario.gameStarted)
  /\ score Scenario.gameStarted
     <= score (Scenario.stateOf (update 4 (1 # 10) Scenario.gameStarted)
                                Scenario.gameStarted).
Proof.
  apply (proj2 length_follows_score 4%nat (1 # 10)%Q Scenario.gameStarted).
  - apply (proj1 length_follows_score 4%nat
             (set_gen (mkRng Scenario.draws 0) Scenario.gameStarted)
             (set_running false (set_paused true
                (set_lastTimestamp 0 Scenario.gameStarted)))).
    vm_compute. reflexivity.
  - vm_compute. reflexivity.
Defined.

(** X17.  Starting again after a game over gives a running, unpaused game
    with score 0, the high score reloaded from the store, the direction to
    the right and five seed segments; the pending direction is the one thing
    carried over from the finished game. *)
Theorem restart_after_game_over fuel s s' :
  gameOver s = true -> startGame fuel s = Done s' ->
  running s' = true /\ paused s' = false /\ gameOver s' = false
  /\ score s' = 0 /\ highScore s' = loadHighScore (stored s)
  /\ dir s' = mkVec 1 0 /\ List.length (segments s') = 5%nat
  /\ pendingDir s' = pendingDir s.
Proof.
  intros G H. unfold startGame in H. rewrite G in H. cbv zeta in H.
  destruct (resetGameState fuel s) as [s1| |] eqn:R; try discriminate.
  inversion H; subst s'. pfields.
  unfold resetGameState in R. cbv zeta in R.
  destruct (spawnFood fuel _) as [s2| |] eqn:Es; try discriminate.
  inversion R; subst s1. pfields.
  rewrite (spawnFood_only_food _ _ _ Es). pfields.
  repeat split.
Qed.

Lemma restart_after_game_over_witness :
  running (Scenario.stateOf (startGame 4 (Scenario.stateOf Scenario.crashed Scenario.gameStarted))
                            Scenario.gameStarted) = true
  /\ paused (Scenario.stateOf (startGame 4 (Scenario.stateOf Scenario.crashed Scenario.gameStarted))
                              Scenario.gameStarted) = false
  /\ gameOver (Scenario.stateOf (startGame 4 (Scenario.stateOf Scenario.crashed Scenario.gameStarted))
                                Scenario.gameStarted) = false
  /\ score (Scenario.stateOf (startGame 4 (Scenario.stateOf Scenario.crashed Scenario.gameStarted))
                             Scenario.gameStarted) = 0
  /\ highScore (Scenario.stateOf (startGame 4 (Scenario.stateOf Scenario.crashed Scenario.gameStarted))
                                 Scenario.gameStarted)
     = loadHighScore (stored (Scenario.stateOf Scenario.crashed Scenario.gameStarted))
  /\ dir (Scenario.stateOf (startGame 4 (Scenario.stateOf Scenario.crashed Scenario.gameStarted))
                           Scenario.gameStarted) = mkVec 1 0
  /\ List.length (segments (Scenario.stateOf (startGame 4 (Scenario.stateOf Scenario.crashed Scenario.gameStarted))
                                             Scenario.gameStarted)) = 5%nat
  /\ pendingDir (Scenario.stateOf (startGame 4 (Scenario.stateOf Scenario.crashed Scenario.gameStarted))
                                  Scenario.gameStarted)
     = pendingDir (Scenario.stateOf Scenario.crashed Scenario.gameStarted).
Proof.
  apply (restart_after_game_over 4 (Scenario.stateOf Scenario.crashed Scenario.gameStarted));
    vm_compute; reflexivity.
Defined.

End PixelExtras.

(* ================================================================= *)
(** * Further properties of the cell engine *)

(** Reduce projections of setters of the cell engine's state. *)
Ltac kfields :=
  cbn [Classic.cellSize Classic.cols Classic.rows Classic.speedMultiplier
       Classic.head Classic.dir Classic.pendingDir Classic.snake
       Classic.snakeLength Classic.food Classic.score Classic.highScore
       Classic.isRunning Classic.isGameOver Classic.headPrevCell Classic.stored
       Classic.gen Classic.set_speedMultiplier Classic.set_head Classic.set_dir
       Classic.set_pendingDir Classic.set_snake Classic.set_snakeLength
       Classic.set_food Classic.set_score Classic.set_highScore
       Classic.set_isRunning Classic.set_isGameOver Classic.set_headPrevCell
       Classic.set_stored Classic.set_gen fst snd JS.stream JS.cursor
       Classic.hx Classic.hy Classic.hpx Classic.hpy Classic.cx Classic.cy
       Classic.fx Classic.fy Classic.points Classic.color] in *.

Section CellExtras.
Import JS Classic.

Lemma triggerGameOver_keeps {A} (f : state -> A) s :
  (forall s v, f (set_isRunning v s) = f s) ->
  (forall s v, f (set_isGameOver v s) = f s) ->
  (forall s v, f (set_highScore v s) = f s) ->
  (forall s v, f (set_stored v s) = f s) ->
  f (triggerGameOver s) = f s.
Proof.
  intros H1 H2 H3 H4. unfold triggerGameOver. cbv zeta.
  match goal with |- context [if ?b then _ else _] => destruct b end;
    rewrite ?H4, ?H3, ?H2, ?H1; reflexivity.
Qed.

Lemma enter_dir c a : dir (enter c a) = dir a.
Proof.
  unfold enter. cbv zeta.
  set (b := set_head _ (set_headPrevCell c a)).
  assert (Eb : dir b = dir a) by reflexivity. clearbody b.
  destruct (hitsWall b); [rewrite triggerGameOver_keeps by reflexivity; exact Eb|].
  destruct (onSnake _ (snake b));
    [rewrite triggerGameOver_keeps by reflexivity; exact Eb|].
  kfields. destruct (food b) as [f|]; [|exact Eb]. kfields.
  destruct ((hx (head b) =? fx f) && (hy (head b) =? fy f)); [|exact Eb].
  rewrite (spawnFood_keeps dir) by reflexivity. exact Eb.
Qed.

Lemma update_dir_steer dt s :
  dir (update dt s) = if isGameOver s then dir s else dir (steer s).
Proof.
  unfold update. destruct (isGameOver s); [reflexivity|]. cbv zeta.
  assert (Eg : dir (glide dt (steer s)) = dir (steer s)) by reflexivity.
  generalize dependent (glide dt (steer s)). intros a Ea.
  destruct (negb _ || negb _); [rewrite enter_dir|]; exact Ea.
Qed.

Lemma cell_reverses_self d : isDirection d = true -> reverses d d = false.
Proof.
  unfold isDirection, reverses. destruct d as [a b]. cbn [cx cy].
  rewrite !orb_true_iff, !andb_true_iff, !Z.eqb_eq.
  intros H. apply andb_false_iff. rewrite !Z.eqb_neq. lia.
Qed.

(** X18.  Whatever the pending direction holds, a frame of the cell engine
    never turns the snake into the reverse of the direction it had: the
    reversal is tested again when the pending direction is consumed. *)
Theorem frame_never_reverses dt s :
  isDirection (dir s) = true -> reverses (dir (update dt s)) (dir s) = false.
Proof.
  intros Hd. rewrite update_dir_steer.
  destruct (isGameOver s); [apply cell_reverses_self; exact Hd|].
  unfold steer. destruct (pendingDir s) as [p|]; [|apply cell_reverses_self; exact Hd].
  cbv zeta.
  destruct ((cx p =? - cx (dir s)) && (cy p =? - cy (dir s))) eqn:E; cbn [negb]; kfields.
  - apply cell_reverses_self. exact Hd.
  - exact E.
Qed.

Lemma frame_never_reverses_witness :
  reverses
    (dir (update (1 # 10)
            (set_pendingDir (Some (mkCell (-1) 0)) Scenario.cellCoiled)))
    (dir (set_pendingDir (Some (mkCell (-1) 0)) Scenario.cellCoiled)) = false.
Proof.
  apply (frame_never_reverses (1 # 10)%Q
           (set_pendingDir (Some (mkCell (-1) 0)) Scenario.cellCoiled)).
  vm_compute. reflexivity.
Defined.

Lemma pickFoodType_In r : In (pickFoodType r) FOOD_TYPES.
Proof.
  unfold pickFoodType, FOOD_WEIGHTS, FOOD_TYPES. cbn [pickFoodType_loop].
  repeat match goal with |- context [if ?b then _ else _] => destruct b end;
    cbn [In]; auto 6.
Qed.

Lemma FOOD_TYPES_points c p : In (c, p) FOOD_TYPES -> 1 <= p <= 5.
Proof.
  unfold FOOD_TYPES. cbn [In].
  intros [H|[H|[H|[]]]]; inversion H; lia.
Qed.

(** The food the placement loop leaves behind: always one of the configured
    types, and on the board when the random values keep their contract. *)
Lemma spawnFood_loop_food n : forall s,
  exists f, food (spawnFood_loop n s) = Some f
    /\ In (color f, points f) FOOD_TYPES
    /\ (fair (gen s) -> 0 < cols s -> 0 < rows s ->
        0 <= fx f < cols s /\ 0 <= fy f < rows s).
Proof.
  induction n as [|n IH]; intros s.
  - cbn [spawnFood_loop]. eexists. kfields. split; [reflexivity|]. kfields.
    split; [cbn [In FOOD_TYPES]; auto|]. intros _ C R. lia.
  - cbn [spawnFood_loop]. unfold draw, random. kfields.
    set (c1 := floor_mul (stream (gen s) (cursor (gen s))) (cols s)).
    set (c2 := floor_mul (stream (gen s) (S (cursor (gen s)))) (rows s)).
    destruct (negb _ && negb _).
    + pose proof (pickFoodType_In
                    (stream (gen s) (S (S (cursor (gen s)))))) as T.
      destruct (pickFoodType _) as [c p]. eexists. kfields.
      split; [reflexivity|]. kfields. split; [exact T|].
      intros F C R. split; apply floor_mul_range; try apply F; assumption.
    + destruct (IH (set_gen (mkRng (stream (gen s)) (S (S (cursor (gen s))))) s))
        as (f & Ef & Tf & Bf).
      exists f. split; [exact Ef|]. split; [exact Tf|].
      intros F C R. apply Bf; [intros k; apply F|exact C|exact R].
Qed.

Lemma spawnFood_food s :
  exists f, food (spawnFood s) = Some f
    /\ In (color f, points f) FOOD_TYPES
    /\ (fair (gen s) -> 0 < cols s -> 0 < rows s ->
        0 <= fx f < cols s /\ 0 <= fy f < rows s).
Proof. exact (spawnFood_loop_food 200 s). Qed.

(** X19.  When [Math.random] keeps its contract and the board has at least
    one column and one row, [spawnFood] always leaves a food item, on a cell
    of the board and of one of the three configured types; this covers the
    fallback cell (0, 0) as well. *)
Theorem cell_food_on_board s :
  fair (gen s) -> 0 < cols s -> 0 < rows s ->
  exists f, food (spawnFood s) = Some f
    /\ 0 <= fx f < cols s /\ 0 <= fy f < rows s
    /\ In (color f, points f) FOOD_TYPES.
Proof.
  intros F C R. destruct (spawnFood_food s) as (f & Ef & Tf & Bf).
  exists f. destruct (Bf F C R). auto.
Qed.

Lemma cell_food_on_board_witness :
  exists f, food (spawnFood Scenario.cellCoiled) = Some f
    /\ 0 <= fx f < cols Scenario.cellCoiled
    /\ 0 <= fy f < rows Scenario.cellCoiled
    /\ In (color f, points f) FOOD_TYPES.
Proof.
  apply (cell_food_on_board Scenario.cellCoiled).
  - apply patternDraws_fair.
  - reflexivity.
  - reflexivity.
Defined.

Lemma sane_triggerGameOver s : sane s -> sane (triggerGameOver s).
Proof.
  unfold sane. intros H.
  rewrite (triggerGameOver_keeps score), (triggerGameOver_keeps snakeLength),
    (triggerGameOver_keeps snake), (triggerGameOver_keeps food) by reflexivity.
  exact H.
Qed.

Lemma sane_steer_glide dt s : sane s -> sane (glide dt (steer s)).
Proof.
  unfold sane, glide, steer. cbv zeta. intros H.
  destruct (pendingDir s) as [p|]; [|exact H].
  destruct (negb _); exact H.
Qed.

Lemma sane_enter c a : sane a -> sane (enter c a) /\ score a <= score (enter c a).
Proof.
  intros Sa. unfold enter. cbv zeta.
  set (b := set_head _ (set_headPrevCell c a)).
  assert (Sb : sane b) by exact Sa.
  assert (Eb : score b = score a) by reflexivity.
  clearbody b. clear Sa. rewrite <- Eb. clear Eb a.
  destruct (hitsWall b);
    [split; [apply sane_triggerGameOver; exact Sb
            |rewrite (triggerGameOver_keeps score) by reflexivity; lia]|].
  destruct (onSnake _ (snake b));
    [split; [apply sane_triggerGameOver; exact Sb
            |rewrite (triggerGameOver_keeps score) by reflexivity; lia]|].
  destruct Sb as (S0 & L & Ln & Ft).
  set (h := mkCell (hx (head b)) (hy (head b))).
  assert (Keep : sane (set_snake (firstn (Z.to_nat (snakeLength b)) (h :: snake b)) b)).
  { unfold sane. kfields. repeat split; auto; try lia.
    pose proof (firstn_le_length (Z.to_nat (snakeLength b)) (h :: snake b)). lia. }
  kfields. destruct (food b) as [f|] eqn:Ef; [|split; [exact Keep|kfields; lia]].
  kfields. destruct ((hx (head b) =? fx f) && (hy (head b) =? fy f));
    [|split; [exact Keep|kfields; lia]].
  pose proof (FOOD_TYPES_points _ _ (Ft f eq_refl)) as Pf.
  set (t := set_speedMultiplier _ _).
  assert (Et : score (spawnFood t) = score b + points f)
    by (rewrite (spawnFood_keeps score) by reflexivity; reflexivity).
  assert (Lt : snakeLength (spawnFood t) = snakeLength b + Z.max 1 (points f))
    by (rewrite (spawnFood_keeps snakeLength) by reflexivity; reflexivity).
  destruct (spawnFood_food t) as (g & Eg & Tg & _).
  generalize dependent (spawnFood t). intros u Et Lt Eg.
  unfold sane. kfields. rewrite Et, Lt, Eg.
  pose proof (firstn_le_length (Z.to_nat (snakeLength b + Z.max 1 (points f)))
                               (snake u)).
  repeat split; try lia.
  intros g' Hg. inversion Hg; subst. exact Tg.
Qed.

Lemma sane_initGame s : sane (initGame s) /\ score (initGame s) = 0.
Proof.
  unfold initGame. cbv zeta.
  set (a := set_snake _ _).
  assert (Ea : score a = 0) by reflexivity.
  assert (La : snakeLength a = 5) by reflexivity.
  assert (Na : Z.of_nat (List.length (snake a)) = 5) by reflexivity.
  destruct (spawnFood_food a) as (f & Ef & Tf & _).
  unfold sane.
  rewrite (spawnFood_keeps score), (spawnFood_keeps snakeLength),
    (spawnFood_keeps snake) by reflexivity.
  rewrite Ea, La, Na, Ef. repeat split; try lia.
  intros g Hg. inversion Hg; subst. exact Tf.
Qed.

Lemma sane_update dt s :
  sane s -> sane (update dt s) /\ score s <= score (update dt s).
Proof.
  intros Ss. destruct (isGameOver s) eqn:G.
  - unfold update. rewrite G. split; [exact Ss|lia].
  - rewrite (update_unfold dt s G). cbv zeta.
    pose proof (sane_steer_glide dt s Ss) as Sa.
    assert (Ea : score (glide dt (steer s)) = score s)
      by (destruct (steer_frame s) as (_ & _ & E & _); exact E).
    generalize dependent (glide dt (steer s)). intros a Sa Ea.
    rewrite <- Ea. destruct (negb _ || negb _).
    + apply sane_enter. exact Sa.
    + split; [exact Sa|lia].
Qed.

(** X20.  In the cell engine the target length follows the score: [initGame]
    gives score 0, and every frame keeps the score non-negative, the target
    length equal to five plus the score, the snake no longer than the target,
    and the food one of the configured types; no frame lowers the score. *)
Theorem cell_length_follows_score :
  (forall s, sane (initGame s) /\ score (initGame s) = 0)
  /\ (forall dt s, sane s -> sane (update dt s) /\ score s <= score (update dt s)).
Proof.
  split.
  - intros s. apply sane_initGame.
  - intros dt s Ss. apply sane_update. exact Ss.
Qed.

Lemma cell_length_follows_score_witness :
  sane (update (1 # 10) (initGame Scenario.cellCoiled))
  /\ score (initGame Scenario.cellCoiled)
     <= score (update (1 # 10) (initGame Scenario.cellCoiled)).
Proof.
  apply (proj2 cell_length_follows_score (1 # 10)%Q (initGame Scenario.cellCoiled)).
  apply (proj1 cell_length_follows_score Scenario.cellCoiled).
Defined.

Lemma enter_over c a :
  isGameOver a = false ->
  isGameOver (enter c a) =
  (cx c <? 0) || (cols a <=? cx c) || (cy c <? 0) || (rows a <=? cy c)
  || onSnake c (snake a).
Proof.
  intros G. unfold enter. cbv zeta.
  set (b := set_head _ (set_headPrevCell c a)).
  assert (Gb : isGameOver b = false) by exact G.
  assert (Wb : hitsWall b
               = (cx c <? 0) || (cols a <=? cx c) || (cy c <? 0) || (rows a <=? cy c))
    by reflexivity.
  assert (Hb : mkCell (hx (head b)) (hy (head b)) = c) by (destruct c; reflexivity).
  assert (Nb : snake b = snake a) by reflexivity.
  clearbody b. rewrite Hb, <- Wb, <- Nb.
  destruct (hitsWall b);
    [destruct (triggerGameOver_flags b) as (-> & _); reflexivity|].
  destruct (onSnake c (snake b));
    [destruct (triggerGameOver_flags b) as (-> & _); reflexivity|].
  cbn [orb]. kfields. destruct (food b) as [f|]; [|exact Gb]. kfields.
  destruct ((hx (head b) =? fx f) && (hy (head b) =? fy f)); [|exact Gb].
  rewrite (spawnFood_keeps isGameOver) by reflexivity. exact Gb.
Qed.

(** X21.  A frame of a game that is not over ends it in exactly one
    situation: the head's rounded cell differs from the cell entered last,
    and that cell is off the board or holds a cell of the snake. *)
Theorem frame_ends_on_collision dt s :
  isGameOver s = false ->
  let c := cellOf (glide dt (steer s)) in
  isGameOver (update dt s) =
  (negb (cx c =? cx (headPrevCell s)) || negb (cy c =? cy (headPrevCell s)))
  && ((cx c <? 0) || (cols s <=? cx c) || (cy c <? 0) || (rows s <=? cy c)
      || onSnake c (snake s)).
Proof.
  intros G. cbv zeta. rewrite (update_unfold dt s G). cbv zeta.
  destruct (steer_frame s) as (N1 & P1 & _ & G1).
  destruct (glide_frame dt (steer s)) as (N2 & P2 & _ & G2).
  assert (C : cols (glide dt (steer s)) = cols s)
    by (unfold glide, steer; destruct (pendingDir s) as [p|]; [destruct (negb _)|];
        reflexivity).
  assert (R : rows (glide dt (steer s)) = rows s)
    by (unfold glide, steer; destruct (pendingDir s) as [p|]; [destruct (negb _)|];
        reflexivity).
  rewrite N1 in N2. rewrite P1 in P2. rewrite G1, G in G2.
  generalize dependent (glide dt (steer s)). intros a N2 P2 G2 C R.
  rewrite P2. destruct (negb _ || negb _); cbn [andb].
  - rewrite (enter_over _ _ G2), C, R, N2. reflexivity.
  - exact G2.
Qed.

Lemma frame_ends_on_collision_witness :
  isGameOver Scenario.cellCoiled = false
  /\ isGameOver (update (1 # 10) Scenario.cellCoiled) = true.
Proof.
  split; [reflexivity|].
  rewrite (frame_ends_on_collision (1 # 10)%Q Scenario.cellCoiled eq_refl).
  vm_compute. reflexivity.
Defined.

Lemma speed_formula_band z :
  0 <= z -> (1 <= 1 + Qmin 1 (inject_Z z / 50))%Q /\ (1 + Qmin 1 (inject_Z z / 50) <= 2)%Q.
Proof.
  intros Hz.
  assert (P : (0 <= inject_Z z / 50)%Q).
  { apply Qle_shift_div_l; [reflexivity|]. rewrite Qmult_0_l.
    change 0%Q with (inject_Z 0). rewrite <- Zle_Qle. exact Hz. }
  pose proof (Q.le_min_l 1 (inject_Z z / 50)) as U.
  assert (L : (0 <= Qmin 1 (inject_Z z / 50))%Q)
    by (apply Q.min_glb; [discriminate|exact P]).
  split; lra.
Qed.

(** X22.  The speed multiplier changes only when food is eaten, to
    [1 + min(1, score / 50)] of the new score; so once it lies between 1
    and 2 it stays there. *)
Theorem speed_stays_in_band dt s :
  sane s ->
  (speedMultiplier (update dt s) = speedMultiplier s
   \/ speedMultiplier (update dt s)
      = (1 + Qmin 1 (inject_Z (score (update dt s)) / 50))%Q)
  /\ ((1 <= speedMultiplier s)%Q /\ (speedMultiplier s <= 2)%Q ->
      (1 <= speedMultiplier (update dt s))%Q /\ (speedMultiplier (update dt s) <= 2)%Q).
Proof.
  intros Ss.
  assert (K : speedMultiplier (update dt s) = speedMultiplier s
              \/ speedMultiplier (update dt s)
                 = (1 + Qmin 1 (inject_Z (score (update dt s)) / 50))%Q).
  { destruct (isGameOver s) eqn:G; [unfold update; rewrite G; left; reflexivity|].
    rewrite (update_unfold dt s G). cbv zeta.
    assert (M : speedMultiplier (glide dt (steer s)) = speedMultiplier s)
      by (unfold glide, steer; destruct (pendingDir s) as [p|]; [destruct (negb _)|];
          reflexivity).
    generalize dependent (glide dt (steer s)). intros a M. rewrite <- M.
    destruct (negb _ || negb _); [|left; reflexivity].
    unfold enter. cbv zeta.
    set (b := set_head _ (set_headPrevCell (cellOf a) a)).
    assert (Mb : speedMultiplier b = speedMultiplier a) by reflexivity.
    clearbody b. rewrite <- Mb.
    destruct (hitsWall b);
      [left; apply (triggerGameOver_keeps speedMultiplier); reflexivity|].
    destruct (onSnake _ (snake b));
      [left; apply (triggerGameOver_keeps speedMultiplier); reflexivity|].
    kfields. destruct (food b) as [f|]; [|left; reflexivity]. kfields.
    destruct ((hx (head b) =? fx f) && (hy (head b) =? fy f)); [|left; reflexivity].
    right.
    rewrite (spawnFood_keeps speedMultiplier), (spawnFood_keeps score) by reflexivity.
    reflexivity. }
  split; [exact K|]. intros B.
  destruct K as [-> | ->]; [exact B|].
  apply speed_formula_band.
  destruct (sane_update dt s Ss) as ((S0 & _) & _). exact S0.
Qed.

Lemma speed_stays_in_band_witness :
  (1 <= speedMultiplier (update (1 # 10) (initGame Scenario.cellCoiled)))%Q
  /\ (speedMultiplier (update (1 # 10) (initGame Scenario.cellCoiled)) <= 2)%Q.
Proof.
  apply (proj2 (speed_stays_in_band (1 # 10)%Q (initGame Scenario.cellCoiled)
                  (proj1 (sane_initGame Scenario.cellCoiled)))).
  unfold initGame. cbv zeta.
  rewrite (spawnFood_keeps speedMultiplier) by reflexivity.
  split; vm_compute; intros H; discriminate H.
Defined.

(** X23.  [resetGame] stops the game and clears the game-over flag, the
    score and the pending direction, heads right from the cell a third of
    the way across and half-way down with five body cells to its left; the
    speed multiplier, the last entered cell and the high score are carried
    over from the game before. *)
Theorem reset_carries_speed s :
  let r := resetGame s in
  isRunning r = false /\ isGameOver r = false /\ score r = 0
  /\ pendingDir r = None /\ dir r = mkCell 1 0
  /\ (hx (head r) = cols s / 3 /\ hy (head r) = rows s / 2)
  /\ snake r = map (fun i => mkCell (cols s / 3 - i) (rows s / 2)) [1; 2; 3; 4; 5]
  /\ speedMultiplier r = speedMultiplier s
  /\ headPrevCell r = headPrevCell s
  /\ highScore r = highScore s.
Proof.
  cbv zeta. unfold resetGame, initGame. cbv zeta.
  rewrite (spawnFood_keeps isRunning), (spawnFood_keeps isGameOver),
    (spawnFood_keeps score), (spawnFood_keeps pendingDir), (spawnFood_keeps dir),
    (spawnFood_keeps head), (spawnFood_keeps snake),
    (spawnFood_keeps speedMultiplier), (spawnFood_keeps headPrevCell),
    (spawnFood_keeps highScore) by reflexivity.
  kfields. change (Z.to_nat 5) with 5%nat. cbn [body map]. kfields.
  repeat split.
  repeat (apply f_equal2;
          [apply (f_equal (fun v => mkCell v (rows s / 2))); lia|]).
  reflexivity.
Qed.

End CellExtras.
